(** * Gibson cache server: the query layer of [src/query.c]

    A shallow embedding of the request handlers of [query.c] and the
    properties of its specification that were checked against it.

    Conventions of the embedding:
    - [byte_t] is [ascii]; a buffer is a [list ascii];
    - [long], [time_t], [size_t] and the counters are [Z]; the wrap-around
      of [long] and [size_t] arithmetic is written out where the source
      can reach it ([wrap_long], [wrap_size]);
    - the prefix index ([trie.h]) is a finite map from keys to node slots:
      a key absent from the map has no node, a key bound to [None] has a
      node whose [data] is [NULL]; [tr_remove], which [trie.c] defines,
      is modelled from the specification;
    - handlers are state passing: they take the server and the request
      payload and return the new server and the reply they enqueue;
    - the object pool and the heap are seen through the calls made to
      them, kept in the server ([item_pool], [heap_freed]);
    - a request is the list of its bytes, and a pointer into it the bytes
      from there on.  The memory behind a request is not modelled: where
      the source computes a length that reaches past the request, the
      length is kept as computed and a read of that length is cut where
      the request ends; what is stated of the bytes of a value carries the
      hypothesis that they lie within the request ([value_in_request]);
    - the allocator's byte count, the codec and the pattern search of the
      index are parameters ([collaborators]); the assertions and the log
      are left out.

    Embedded: the parsers, the item life cycle, the handlers of GET, SET,
    DEL, TTL, INC, DEC, LOCK, UNLOCK, META, STATS and of the bulk
    operations, and the dispatcher [gbProcessQuery] over the opcodes as an
    enumeration ([query.h] has their numbers). *)

From Stdlib Require Import ZArith QArith Ascii String.
From Stdlib Require DecimalString DecimalFacts DecimalPos.
From stdpp Require Import gmap strings list fin_maps.

Local Open Scope Z_scope.

(** ** Machine arithmetic *)

(** Two's complement [long] (64 bits). *)
Definition wrap_long (z : Z) : Z := (z + 2 ^ 63) mod 2 ^ 64 - 2 ^ 63.

(** Unsigned [size_t] (64 bits). *)
Definition wrap_size (z : Z) : Z := z mod 2 ^ 64.

(** The macro [min(a,b)]: [( a < b ? a : b )]. *)
Definition min (a b : Z) : Z := if a <? b then a else b.

Definition sizeof_long : Z := 8.
Definition sizeof_size_t : Z := 8.

(** ** Bytes *)

Abbreviation byte_t := ascii.
Abbreviation bytes := (list ascii).

Definition byte_val (c : byte_t) : Z := Z.of_N (N_of_ascii c).

Definition byte_eqb (a b : byte_t) : bool := Ascii.eqb a b.

Definition SP : byte_t := " "%char.
Definition CH_0 : byte_t := "0"%char.
Definition CH_9 : byte_t := "9"%char.
Definition CH_MINUS : byte_t := "-"%char.
Definition NUL : byte_t := Ascii.zero.

(** A C string literal as a buffer. *)
Definition lit (s : string) : bytes := list_ascii_of_string s.

(** [zmemdup( v, vlen )]: a fresh copy of the [vlen] bytes at [v].  A
    pointer into a request is modelled by the bytes of the request from it
    on.  When [vlen] reaches past them the code copies memory that lies
    behind the request, which no value of the model stands for; the copy
    is then cut where [v] ends, and nothing is claimed of it: what is
    stated of the bytes of a copy is stated of lengths within [v] (see
    [value_in_request]). *)
Definition zmemdup (v : bytes) (vlen : Z) : bytes := take (Z.to_nat vlen) v.

(** [strlen]: the bytes of a C string, up to its first NUL. *)
Fixpoint c_str (s : bytes) : bytes :=
  match s with
  | [] => []
  | c :: s' => if byte_eqb c NUL then [] else c :: c_str s'
  end.

Definition strlen (s : bytes) : Z := Z.of_nat (length (c_str s)).

(** ** gbQueryParseLong *)

(** The test [c >= '0' && c <= '9']. *)
Definition is_digit (c : byte_t) : bool :=
  (byte_val CH_0 <=? byte_val c) && (byte_val c <=? byte_val CH_9).

(** The loop [for( i = start; i < vlen; ++i )] over the bytes it has left,
    with the accumulator [n]; [None] is the [return 0] of a byte that is
    not a digit. *)
Fixpoint parse_digits (v : bytes) (n : Z) : option Z :=
  match v with
  | [] => Some n
  | c :: v' =>
      if is_digit c
      then parse_digits v' (wrap_long (n * 10 + (byte_val c - byte_val CH_0)))
      else None
  end.

(** [gbQueryParseLong( v, vlen, &l )]: [Some l] when it returns 1, [None]
    when it returns 0.  The source asserts [vlen > 0]; entered with
    [vlen = 0] the loop does not run and [l] is 0 whatever [v[0]] holds,
    which is what the first case gives.  [v] holds the bytes at the
    pointer as far as the request goes.  When [vlen] reaches past them the
    code reads memory that lies behind the request, which no value of the
    model stands for; the read is then cut where [v] ends, and nothing is
    claimed of its result: what is stated of a number read is stated of
    lengths within [v] (see [value_in_request]). *)
Definition gbQueryParseLong (v : bytes) (vlen : Z) : option Z :=
  match take (Z.to_nat vlen) v with
  | [] => Some 0
  | c :: rest =>
      if byte_eqb c CH_0 then Some 0
      else if byte_eqb c CH_MINUS
      then (fun n => wrap_long (n * -1)) <$> parse_digits rest 0
      else (fun n => wrap_long (n * 1)) <$> parse_digits (c :: rest) 0
  end.

(** ** Data model *)

Inductive gbItemEncoding := GB_ENC_PLAIN | GB_ENC_LZF | GB_ENC_NUMBER.

Definition encoding_eqb (a b : gbItemEncoding) : bool :=
  match a, b with
  | GB_ENC_PLAIN, GB_ENC_PLAIN | GB_ENC_LZF, GB_ENC_LZF
  | GB_ENC_NUMBER, GB_ENC_NUMBER => true
  | _, _ => false
  end.

(** The [void *data] of an item: a heap buffer, or a [long] kept in the
    pointer itself. *)
Inductive item_data :=
| DataBuf (b : bytes)
| DataLong (n : Z).

(** [(long)item->data].  Only items whose encoding is [GB_ENC_NUMBER] are
    read this way, and all of them are built from a [long]; the address of
    a buffer read as a number is not modelled and taken as 0. *)
Definition data_long (d : item_data) : Z :=
  match d with DataLong n => n | DataBuf _ => 0 end.

(** The bytes at [item->data], none for a number. *)
Definition data_bytes (d : item_data) : bytes :=
  match d with DataBuf b => b | DataLong _ => [] end.

(** [gbItem]; [i_time] is the field [time], the creation time. *)
Record gbItem := mkItem {
  i_data : item_data;
  i_size : Z;
  i_encoding : gbItemEncoding;
  i_time : Z;
  i_last_access_time : Z;
  i_ttl : Z;
  i_lock : Z
}.

(** [server->stats], the counters the query layer reads or writes.
    [compravg] is a [double] in the source and an exact rational here. *)
Record gbStats := mkStats {
  time : Z;
  memused : Z;
  mempeak : Z;
  nitems : Z;
  ncompressed : Z;
  sizeavg : Z;
  compravg : Q;
  firstin : Z;
  lastin : Z;
  requests : Z
}.

(** [server->limits]. *)
Record gbLimits := mkLimits {
  maxkeysize : Z;
  maxvaluesize : Z;
  maxitemttl : Z;
  maxmem : Z
}.

(** Calls to the object pool of items, most recent first. *)
Inductive pool_op :=
| opool_alloc_object
| opool_free_object (item : gbItem).

(** A node slot of the index: [node->data]. *)
Abbreviation slot := (option gbItem).
Abbreviation tree_t := (gmap bytes slot).

(** [gbServer].  The object pool and the heap are seen through the calls
    made to them: [item_pool] holds the calls to the pool and [heap_freed]
    the [data] pointers of items handed to [zfree], both most recent
    first.  The calls [zfree( ki->data )] on the strings of the list of
    keys a reply is staged in, allocated and freed within one handler, are
    not followed. *)
Record gbServer := mkServer {
  tree : tree_t;
  stats : gbStats;
  limits : gbLimits;
  compression : Z;
  item_pool : list pool_op;
  heap_freed : list item_data
}.

Definition set_tree (s : gbServer) (t : tree_t) : gbServer :=
  mkServer t (stats s) (limits s) (compression s) (item_pool s) (heap_freed s).

Definition set_stats (s : gbServer) (st : gbStats) : gbServer :=
  mkServer (tree s) st (limits s) (compression s) (item_pool s) (heap_freed s).

Definition pool_call (s : gbServer) (op : pool_op) : gbServer :=
  mkServer (tree s) (stats s) (limits s) (compression s) (op :: item_pool s)
    (heap_freed s).

(** [zfree( data )] on the [data] pointer of an item. *)
Definition zfree (s : gbServer) (data : item_data) : gbServer :=
  mkServer (tree s) (stats s) (limits s) (compression s) (item_pool s)
    (data :: heap_freed s).

(** The test [item->data != NULL]: a pointer is null when it is the number
    0; the address of a buffer is not. *)
Definition data_is_null (d : item_data) : bool :=
  match d with
  | DataLong 0 => true
  | _ => false
  end.

(** The test [item->encoding != GB_ENC_NUMBER && item->data != NULL] of
    both destructors. *)
Definition owns_buffer (it : gbItem) : bool :=
  negb (encoding_eqb (i_encoding it) GB_ENC_NUMBER)
  && negb (data_is_null (i_data it)).

(** [if( item->encoding != GB_ENC_NUMBER && item->data != NULL )
    zfree( item->data );] *)
Definition zfree_buffer (s : gbServer) (it : gbItem) : gbServer :=
  if owns_buffer it then zfree s (i_data it) else s.

(** Assignments to the fields of [server->stats]. *)
Definition set_memused (s : gbServer) (v : Z) : gbServer :=
  let st := stats s in
  set_stats s (mkStats (time st) v (mempeak st) (nitems st) (ncompressed st)
                 (sizeavg st) (compravg st) (firstin st) (lastin st)
                 (requests st)).

Definition set_mempeak (s : gbServer) (v : Z) : gbServer :=
  let st := stats s in
  set_stats s (mkStats (time st) (memused st) v (nitems st) (ncompressed st)
                 (sizeavg st) (compravg st) (firstin st) (lastin st)
                 (requests st)).

Definition set_nitems (s : gbServer) (v : Z) : gbServer :=
  let st := stats s in
  set_stats s (mkStats (time st) (memused st) (mempeak st) v (ncompressed st)
                 (sizeavg st) (compravg st) (firstin st) (lastin st)
                 (requests st)).

Definition set_ncompressed (s : gbServer) (v : Z) : gbServer :=
  let st := stats s in
  set_stats s (mkStats (time st) (memused st) (mempeak st) (nitems st) v
                 (sizeavg st) (compravg st) (firstin st) (lastin st)
                 (requests st)).

Definition set_sizeavg (s : gbServer) (v : Z) : gbServer :=
  let st := stats s in
  set_stats s (mkStats (time st) (memused st) (mempeak st) (nitems st)
                 (ncompressed st) v (compravg st) (firstin st) (lastin st)
                 (requests st)).

Definition set_compravg (s : gbServer) (v : Q) : gbServer :=
  let st := stats s in
  set_stats s (mkStats (time st) (memused st) (mempeak st) (nitems st)
                 (ncompressed st) (sizeavg st) v (firstin st) (lastin st)
                 (requests st)).

Definition set_firstin (s : gbServer) (v : Z) : gbServer :=
  let st := stats s in
  set_stats s (mkStats (time st) (memused st) (mempeak st) (nitems st)
                 (ncompressed st) (sizeavg st) (compravg st) v (lastin st)
                 (requests st)).

Definition set_lastin (s : gbServer) (v : Z) : gbServer :=
  let st := stats s in
  set_stats s (mkStats (time st) (memused st) (mempeak st) (nitems st)
                 (ncompressed st) (sizeavg st) (compravg st) (firstin st) v
                 (requests st)).

(** ** Replies *)

Inductive reply_code :=
| REPL_OK | REPL_VAL | REPL_ERR | REPL_ERR_NOT_FOUND
| REPL_ERR_NAN | REPL_ERR_MEM | REPL_ERR_LOCKED.

(** What a handler hands to the reply encoder; the last argument of the
    first three is the close-after-send flag. *)
Inductive reply :=
| gbClientEnqueueCode (code : reply_code) (close : bool)
| gbClientEnqueueItem (code : reply_code) (item : gbItem) (close : bool)
| gbClientEnqueueData (code : reply_code) (enc : gbItemEncoding) (n : Z)
    (len : Z) (close : bool)
| gbClientEnqueueKeyValueSet (found : Z) (m_keys : list bytes)
    (m_values : list slot) (close : bool).

(** The code a reply carries; a key/value set is sent as [REPL_VAL]. *)
Definition code_of (r : reply) : reply_code :=
  match r with
  | gbClientEnqueueCode c _ => c
  | gbClientEnqueueItem c _ _ => c
  | gbClientEnqueueData c _ _ _ _ => c
  | gbClientEnqueueKeyValueSet _ _ _ _ => REPL_VAL
  end.

(** ** The index *)

(** [tr_find_node]: the node of a key, if there is one. *)
Definition tr_find_node (t : tree_t) (k : bytes) : option slot := t !! k.

(** [tr_find]: the item of a key, [NULL] without node or without data. *)
Definition tr_find (t : tree_t) (k : bytes) : slot :=
  match t !! k with Some d => d | None => None end.

(** [tr_insert]: binds the key and returns the item it held. *)
Definition tr_insert (t : tree_t) (k : bytes) (item : gbItem) : tree_t * slot :=
  (<[k := Some item]> t, tr_find t k).

(** Modelled from the spec: [tr_remove] lives in [trie.c].  The spec
    lists no removal of a key among the operations of the index; its
    [is_valid], which is where the call stands, "nulls the slot in the
    index".  So [tr_remove] clears the data of the node of the key and
    leaves the node; a key without node is left without. *)
Definition tr_remove (t : tree_t) (k : bytes) : tree_t :=
  match t !! k with
  | Some _ => <[k := None]> t
  | None => t
  end.

(** [node->data = d] on the node of [k]. *)
Definition set_node_data (t : tree_t) (k : bytes) (d : slot) : tree_t :=
  <[k := d]> t.

(** ** Request parsing *)

(** The loop [while( i++ < end && *p != ' ' ) ++p;] from position [p] with
    counter [i]: the bytes stepped over, the position and the counter it
    stops at.  The source keeps [p] inside the buffer ([end <= size]); the
    last case, a read past the buffer, stops the loop. *)
Fixpoint scan_field (p : bytes) (i end_ : Z) : bytes * bytes * Z :=
  match p with
  | c :: p' =>
      if i <? end_ then
        if byte_eqb c SP then ([], p, i + 1)
        else let '(tok, q, j) := scan_field p' (i + 1) end_ in (c :: tok, q, j)
      else ([], p, i + 1)
  | [] => ([], [], i + 1)
  end.

(** What the key/value parsers hand back: the key and its length, the
    position of the value ([None] for a [NULL] pointer) and its length. *)
Record parsed_kv := mkParsedKV {
  p_key : bytes;
  p_klen : Z;
  p_value : option bytes;
  p_vlen : Z
}.

(** The value lies within the request: its length does not reach past
    the bytes that the request holds from the pointer on.  It does not
    when the request ends with its key (see [gbParseKeyValue]): the
    handler then reads memory behind the request. *)
Definition value_in_request (kv : parsed_kv) : Prop :=
  p_vlen kv <= Z.of_nat (length (default [] (p_value kv))).

(** [gbParseKeyValue]; [want_value] tells whether the caller passed a
    [value] pointer.  [None] is the [return 0].  The length of the value is
    a [size_t] difference: it wraps when the request ends with the key. *)
Definition gbParseKeyValue (lim : gbLimits) (buffer : bytes) (size : Z)
    (want_value : bool) : option parsed_kv :=
  let end_ := min size (maxkeysize lim) in
  let '(key, p, _) := scan_field buffer 0 end_ in
  let klen := Z.of_nat (length key) in
  let p := tail p in
  let '(value, vlen) :=
    if want_value
    then (Some p, min (wrap_size (size - klen - 1)) (maxvaluesize lim))
    else (None, 0) in
  if klen <=? 0 then None
  else if want_value && (vlen <=? 0) then None
  else Some (mkParsedKV key klen value vlen).

(** [gbParseKeyAndOptionalValue]: the value is [NULL] when nothing is left
    after the key. *)
Definition gbParseKeyAndOptionalValue (lim : gbLimits) (buffer : bytes)
    (size : Z) (want_value : bool) : option parsed_kv :=
  let end_ := min size (maxkeysize lim) in
  let '(key, p, _) := scan_field buffer 0 end_ in
  let klen := Z.of_nat (length key) in
  let p := tail p in
  let '(value, vlen) :=
    if want_value then
      let left := wrap_size (size - klen) in
      if 0 <? left
      then (Some p, min (left - 1) (maxvaluesize lim))
      else (None, 0)
    else (None, 0) in
  if klen <=? 0 then None
  else if want_value && bool_decide (is_Some value) && (vlen <=? 0) then None
  else Some (mkParsedKV key klen value vlen).

Record parsed_tkv := mkParsedTKV {
  p_ttl : bytes;
  p_ttllen : Z;
  p_kv : parsed_kv
}.

(** [gbParseTtlKeyValue]: the counter [i] is not reset between the ttl and
    the key, so both fields together are bounded by [end]. *)
Definition gbParseTtlKeyValue (lim : gbLimits) (buffer : bytes) (size : Z)
    (want_value : bool) : option parsed_tkv :=
  let end_ := min size (maxkeysize lim) in
  let '(ttl, p, i) := scan_field buffer 0 end_ in
  let ttllen := Z.of_nat (length ttl) in
  let p := tail p in
  let '(key, p, _) := scan_field p i end_ in
  let klen := Z.of_nat (length key) in
  let p := tail p in
  let '(value, vlen) :=
    if want_value
    then (Some p, min (wrap_size (size - ttllen - klen - 2)) (maxvaluesize lim))
    else (None, 0) in
  if ttllen <=? 0 then None
  else if klen <=? 0 then None
  else if want_value && (vlen <=? 0) then None
  else Some (mkParsedTKV ttl ttllen (mkParsedKV key klen value vlen)).

(** The payload of a request: [client->buffer + sizeof(short)], of
    [client->buffer_size - sizeof(short)] bytes. *)
Definition payload_size (p : bytes) : Z := Z.of_nat (length p).

(** ** Items in place *)

Definition set_data (it : gbItem) (d : item_data) : gbItem :=
  mkItem d (i_size it) (i_encoding it) (i_time it) (i_last_access_time it)
    (i_ttl it) (i_lock it).

Definition set_size (it : gbItem) (n : Z) : gbItem :=
  mkItem (i_data it) n (i_encoding it) (i_time it) (i_last_access_time it)
    (i_ttl it) (i_lock it).

Definition set_encoding (it : gbItem) (e : gbItemEncoding) : gbItem :=
  mkItem (i_data it) (i_size it) e (i_time it) (i_last_access_time it)
    (i_ttl it) (i_lock it).

Definition set_time (it : gbItem) (t : Z) : gbItem :=
  mkItem (i_data it) (i_size it) (i_encoding it) t (i_last_access_time it)
    (i_ttl it) (i_lock it).

Definition set_last_access_time (it : gbItem) (t : Z) : gbItem :=
  mkItem (i_data it) (i_size it) (i_encoding it) (i_time it) t
    (i_ttl it) (i_lock it).

Definition set_ttl (it : gbItem) (t : Z) : gbItem :=
  mkItem (i_data it) (i_size it) (i_encoding it) (i_time it)
    (i_last_access_time it) t (i_lock it).

Definition set_lock (it : gbItem) (l : Z) : gbItem :=
  mkItem (i_data it) (i_size it) (i_encoding it) (i_time it)
    (i_last_access_time it) (i_ttl it) l.

(** A write through the item pointer held by the node of [k]. *)
Definition store_item (s : gbServer) (k : bytes) (it : gbItem) : gbServer :=
  set_tree s (set_node_data (tree s) k (Some it)).

(** The test of both validity checks: [ttl > 0 && eta >= ttl]. *)
Definition expired (it : gbItem) (now : Z) : bool :=
  (0 <? i_ttl it) && (i_ttl it <=? now - i_time it).

(** [gbItemIsLocked( item, server, eta )]. *)
Definition gbItemIsLocked (it : gbItem) (s : gbServer) (eta : Z) : bool :=
  let eta := if eta =? 0 then time (stats s) - i_time it else eta in
  (i_lock it =? -1) || (eta <? i_lock it).

(** The collaborators of the query layer, which [query.c] only calls. *)
Record collaborators := mkCollaborators {
  (** [zmem_used()]: the allocator's byte count, read off the server as it
      stands at the call. *)
  zmem_used : gbServer -> Z;
  (** [lzf_compress( in, in_len, out, out_len )]: the bytes it leaves in
      the scratch buffer; their number is its result, none when it gives
      up. *)
  lzf_compress : bytes -> Z -> Z -> bytes;
  (** The keys a pattern search of the index visits, in the order of the
      walk: given the index, the pattern and its length, the limit and the
      greatest key length. *)
  tr_matching : tree_t -> bytes -> Z -> Z -> Z -> list bytes
}.

Section Query.

Variable E : collaborators.

(** *** Creation and destruction *)

Definition gbCreateVolatileItem (s : gbServer) (data : item_data) (size : Z)
    (encoding : gbItemEncoding) : gbServer * gbItem :=
  (pool_call s opool_alloc_object, mkItem data size encoding 0 0 (-1) 0).

(** [gbDestroyVolatileItem]; the item that goes back to the pool is
    recorded as it was handed over. *)
Definition gbDestroyVolatileItem (s : gbServer) (it : gbItem) : gbServer :=
  let s := zfree_buffer s it in
  pool_call s (opool_free_object it).

Definition gbCreateItem (s : gbServer) (data : item_data) (size : Z)
    (encoding : gbItemEncoding) (ttl : Z) : gbServer * gbItem :=
  let s := pool_call s opool_alloc_object in
  let now := time (stats s) in
  let item := mkItem data size encoding now now ttl 0 in
  let s :=
    if encoding_eqb encoding GB_ENC_LZF
    then set_ncompressed s (ncompressed (stats s) + 1)
    else s in
  let s := if firstin (stats s) =? 0 then set_firstin s now else s in
  let s := set_lastin s now in
  let s := set_memused s (zmem_used E s) in
  let s := set_nitems s (nitems (stats s) + 1) in
  let s := set_sizeavg s (memused (stats s) ÷ nitems (stats s)) in
  let s :=
    if mempeak (stats s) <? memused (stats s)
    then set_mempeak s (memused (stats s))
    else s in
  (s, item).

(** [gbDestroyItem]; the item that goes back to the pool is recorded as
    it was handed over. *)
Definition gbDestroyItem (s : gbServer) (it : gbItem) : gbServer :=
  let s :=
    if encoding_eqb (i_encoding it) GB_ENC_LZF
    then set_ncompressed s (ncompressed (stats s) - 1)
    else s in
  let s := zfree_buffer s it in
  let s := pool_call s (opool_free_object it) in
  let s := set_memused s (zmem_used E s) in
  let s := set_nitems s (nitems (stats s) - 1) in
  set_sizeavg s (if nitems (stats s) =? 0 then 0
                 else memused (stats s) ÷ nitems (stats s)).

(** *** Validity *)

(** [gbIsNodeStillValid( node, item, server, remove )], the node being the
    one of key [k]. *)
Definition gbIsNodeStillValid (k : bytes) (it : gbItem) (s : gbServer)
    (remove : bool) : gbServer * bool :=
  if expired it (time (stats s)) then
    let s := if remove then set_tree s (set_node_data (tree s) k None) else s in
    (gbDestroyItem s it, false)
  else (s, true).

(** [gbIsItemStillValid( item, server, key, klen, remove )]. *)
Definition gbIsItemStillValid (it : gbItem) (s : gbServer) (key : bytes)
    (remove : bool) : gbServer * bool :=
  if expired it (time (stats s)) then
    let s := if remove then set_tree s (tr_remove (tree s) key) else s in
    (gbDestroyItem s it, false)
  else (s, true).

(** *** SET *)

Definition gbSingleSet (v : bytes) (vlen : Z) (k : bytes) (s : gbServer)
    : gbServer * gbItem :=
  let needcompr := wrap_size (vlen - 4) in
  let '(s, encoding, data, vlen) :=
    if compression s <? vlen then
      let out := lzf_compress E v vlen needcompr in
      let comprlen := Z.of_nat (length out) in
      if comprlen =? 0 then (s, GB_ENC_PLAIN, zmemdup v vlen, vlen)
      else
        let rate := (100 - (inject_Z comprlen * 100) / inject_Z vlen)%Q in
        let s :=
          if Qeq_bool (compravg (stats s)) 0 then set_compravg s rate
          else set_compravg s ((compravg (stats s) + rate) / 2)%Q in
        (s, GB_ENC_LZF, zmemdup out comprlen, comprlen)
    else (s, GB_ENC_PLAIN, zmemdup v vlen, vlen) in
  let '(s, item) := gbCreateItem s (DataBuf data) vlen encoding (-1) in
  let '(t, old) := tr_insert (tree s) k item in
  let s := set_tree s t in
  let s := match old with Some o => gbDestroyItem s o | None => s end in
  (s, item).

Definition gbQuerySetHandler (s : gbServer) (p : bytes) : gbServer * reply :=
  if memused (stats s) <=? maxmem (limits s) then
    match gbParseTtlKeyValue (limits s) p (payload_size p) true with
    | Some r =>
        let kv := p_kv r in
        match gbQueryParseLong (p_ttl r) (p_ttllen r) with
        | Some ttl =>
            let set_it (_ : unit) :=
              let '(s, item) :=
                gbSingleSet (default [] (p_value kv)) (p_vlen kv) (p_key kv) s in
              if 0 <? ttl then
                let item :=
                  set_ttl (set_time item (time (stats s)))
                    (min (maxitemttl (limits s)) ttl) in
                (store_item s (p_key kv) item,
                 gbClientEnqueueItem REPL_VAL item false)
              else (s, gbClientEnqueueItem REPL_VAL item false) in
            match tr_find (tree s) (p_key kv) with
            | Some item =>
                if gbItemIsLocked item s 0
                then (s, gbClientEnqueueCode REPL_ERR_LOCKED false)
                else set_it ()
            | None => set_it ()
            end
        | None => (s, gbClientEnqueueCode REPL_ERR_NAN false)
        end
    | None => (s, gbClientEnqueueCode REPL_ERR false)
    end
  else (s, gbClientEnqueueCode REPL_ERR_MEM false).

(** *** TTL *)

Definition gbQueryTtlHandler (s : gbServer) (p : bytes) : gbServer * reply :=
  match gbParseKeyValue (limits s) p (payload_size p) true with
  | Some kv =>
      let k := p_key kv in
      match tr_find (tree s) k with
      | Some item =>
          let '(s, valid) := gbIsItemStillValid item s k true in
          if valid then
            match gbQueryParseLong (default [] (p_value kv)) (p_vlen kv) with
            | Some ttl =>
                let now := time (stats s) in
                let item :=
                  set_ttl (set_last_access_time (set_time item now) now)
                    (min (maxitemttl (limits s)) ttl) in
                (store_item s k item, gbClientEnqueueCode REPL_OK false)
            | None => (s, gbClientEnqueueCode REPL_ERR_NAN false)
            end
          else (s, gbClientEnqueueCode REPL_ERR_NOT_FOUND false)
      | None => (s, gbClientEnqueueCode REPL_ERR_NOT_FOUND false)
      end
  | None => (s, gbClientEnqueueCode REPL_ERR false)
  end.

(** *** GET *)

Definition gbQueryGetHandler (s : gbServer) (p : bytes) : gbServer * reply :=
  match gbParseKeyValue (limits s) p (payload_size p) false with
  | Some kv =>
      let k := p_key kv in
      match tr_find_node (tree s) k with
      | Some (Some item) =>
          let '(s, valid) := gbIsNodeStillValid k item s true in
          if valid then
            let item := set_last_access_time item (time (stats s)) in
            (store_item s k item, gbClientEnqueueItem REPL_VAL item false)
          else (s, gbClientEnqueueCode REPL_ERR_NOT_FOUND false)
      | _ => (s, gbClientEnqueueCode REPL_ERR_NOT_FOUND false)
      end
  | None => (s, gbClientEnqueueCode REPL_ERR false)
  end.

(** *** DEL *)

Definition gbQueryDelHandler (s : gbServer) (p : bytes) : gbServer * reply :=
  match gbParseKeyValue (limits s) p (payload_size p) false with
  | Some kv =>
      let k := p_key kv in
      match tr_find_node (tree s) k with
      | Some (Some item) =>
          if gbItemIsLocked item s 0
          then (s, gbClientEnqueueCode REPL_ERR_LOCKED false)
          else
            let '(s, valid) := gbIsNodeStillValid k item s true in
            if valid then
              let s := gbDestroyItem s item in
              (set_tree s (set_node_data (tree s) k None),
               gbClientEnqueueCode REPL_OK false)
            else (s, gbClientEnqueueCode REPL_ERR_NOT_FOUND false)
      | _ => (s, gbClientEnqueueCode REPL_ERR_NOT_FOUND false)
      end
  | None => (s, gbClientEnqueueCode REPL_ERR false)
  end.

(** *** INC and DEC *)

(** The promotion of a plain item whose bytes read as the number [num]:
    the buffer is freed and the item becomes the number [num + delta]. *)
Definition promote (s : gbServer) (it : gbItem) (num delta : Z)
    : gbServer * gbItem :=
  let num := wrap_long (num + delta) in
  let s := zfree s (i_data it) in
  let s := set_memused s (zmem_used E s) in
  (s, set_size (set_data (set_encoding it GB_ENC_NUMBER) (DataLong num))
        sizeof_long).

Definition gbQueryIncDecHandler (s : gbServer) (p : bytes) (delta : Z)
    : gbServer * reply :=
  match gbParseKeyValue (limits s) p (payload_size p) false with
  | Some kv =>
      let k := p_key kv in
      let node := tr_find_node (tree s) k in
      match (match node with Some d => d | None => None end) with
      | None =>
          let '(s, item) :=
            gbCreateItem s (DataLong 1) sizeof_long GB_ENC_NUMBER (-1) in
          let s :=
            match node with
            | Some _ => set_tree s (set_node_data (tree s) k (Some item))
            | None => set_tree s (fst (tr_insert (tree s) k item))
            end in
          (s, gbClientEnqueueItem REPL_VAL item false)
      | Some item =>
          let '(s, valid) := gbIsNodeStillValid k item s true in
          if negb valid
          then (s, gbClientEnqueueCode REPL_ERR_NOT_FOUND false)
          else if gbItemIsLocked item s 0
          then (s, gbClientEnqueueCode REPL_ERR_LOCKED false)
          else
            let item := set_last_access_time item (time (stats s)) in
            let s := store_item s k item in
            if encoding_eqb (i_encoding item) GB_ENC_NUMBER then
              let item :=
                set_data item (DataLong (wrap_long (data_long (i_data item) + delta))) in
              (store_item s k item, gbClientEnqueueItem REPL_VAL item false)
            else
              match
                (if encoding_eqb (i_encoding item) GB_ENC_PLAIN
                 then gbQueryParseLong (data_bytes (i_data item)) (i_size item)
                 else None)
              with
              | Some num =>
                  let '(s, item) := promote s item num delta in
                  (store_item s k item, gbClientEnqueueItem REPL_VAL item false)
              | None => (s, gbClientEnqueueCode REPL_ERR_NAN false)
              end
      end
  | None => (s, gbClientEnqueueCode REPL_ERR false)
  end.

(** *** LOCK and UNLOCK *)

Definition gbQueryLockHandler (s : gbServer) (p : bytes) : gbServer * reply :=
  match gbParseKeyValue (limits s) p (payload_size p) true with
  | Some kv =>
      let k := p_key kv in
      match tr_find_node (tree s) k with
      | Some (Some item) =>
          let '(s, valid) := gbIsNodeStillValid k item s true in
          if valid then
            match gbQueryParseLong (default [] (p_value kv)) (p_vlen kv) with
            | Some locktime =>
                let now := time (stats s) in
                let item := set_last_access_time item now in
                let s := store_item s k item in
                if negb (gbItemIsLocked item s 0) then
                  let item := set_lock (set_time item now) locktime in
                  (store_item s k item, gbClientEnqueueCode REPL_OK false)
                else (s, gbClientEnqueueCode REPL_ERR_LOCKED false)
            | None => (s, gbClientEnqueueCode REPL_ERR_NAN false)
            end
          else (s, gbClientEnqueueCode REPL_ERR_NOT_FOUND false)
      | _ => (s, gbClientEnqueueCode REPL_ERR_NOT_FOUND false)
      end
  | None => (s, gbClientEnqueueCode REPL_ERR false)
  end.

Definition gbQueryUnlockHandler (s : gbServer) (p : bytes) : gbServer * reply :=
  match gbParseKeyValue (limits s) p (payload_size p) false with
  | Some kv =>
      let k := p_key kv in
      match tr_find_node (tree s) k with
      | Some (Some item) =>
          let '(s, valid) := gbIsNodeStillValid k item s true in
          if valid then
            let item :=
              set_last_access_time (set_lock item 0) (time (stats s)) in
            (store_item s k item, gbClientEnqueueCode REPL_OK false)
          else (s, gbClientEnqueueCode REPL_ERR_NOT_FOUND false)
      | _ => (s, gbClientEnqueueCode REPL_ERR_NOT_FOUND false)
      end
  | None => (s, gbClientEnqueueCode REPL_ERR false)
  end.

(** *** META *)

(** [strncmp( a, b, n ) == 0], [b] being a literal: a buffer that ends
    reads as its terminating NUL. *)
Fixpoint strncmp_eq (a b : bytes) (n : nat) : bool :=
  match n with
  | O => true
  | S n' =>
      let ca := hd NUL a in
      let cb := hd NUL b in
      if byte_eqb ca cb
      then if byte_eqb ca NUL then true else strncmp_eq (tail a) (tail b) n'
      else false
  end.

(** Modelled from the spec: the numbers of the enumeration
    [gbItemEncoding], declared in [query.h], in the order the spec lists
    its members. *)
Definition encoding_long (e : gbItemEncoding) : Z :=
  match e with GB_ENC_PLAIN => 0 | GB_ENC_LZF => 1 | GB_ENC_NUMBER => 2 end.

Definition gbGetItemMeta (s : gbServer) (it : gbItem) (m : bytes) (mlen : Z)
    : option Z :=
  let named name n := strncmp_eq m (lit name) (Z.to_nat (min mlen n)) in
  if named "size"%string 4 then Some (i_size it)
  else if named "encoding"%string 8 then Some (encoding_long (i_encoding it))
  else if named "access"%string 6 then Some (i_last_access_time it)
  else if named "created"%string 7 then Some (i_time it)
  else if named "ttl"%string 3 then Some (i_ttl it)
  else if named "left"%string 4 then
    Some (if i_ttl it <=? 0 then -1
          else i_ttl it - (time (stats s) - i_time it))
  else if named "lock"%string 4 then Some (i_lock it)
  else None.

Definition gbQueryMetaHandler (s : gbServer) (p : bytes) : gbServer * reply :=
  match gbParseKeyValue (limits s) p (payload_size p) true with
  | Some kv =>
      let k := p_key kv in
      match tr_find_node (tree s) k with
      | Some (Some item) =>
          let '(s, valid) := gbIsNodeStillValid k item s true in
          if valid then
            let ret :=
              match gbGetItemMeta s item (default [] (p_value kv)) (p_vlen kv) with
              | Some v =>
                  gbClientEnqueueData REPL_VAL GB_ENC_NUMBER v sizeof_long false
              | None => gbClientEnqueueCode REPL_ERR false
              end in
            (store_item s k (set_last_access_time item (time (stats s))), ret)
          else (s, gbClientEnqueueCode REPL_ERR_NOT_FOUND false)
      | _ => (s, gbClientEnqueueCode REPL_ERR_NOT_FOUND false)
      end
  | None => (s, gbClientEnqueueCode REPL_ERR false)
  end.

(** *** Walks of the index *)

(** [tr_search_callback] and [tr_count]: the callback runs on every
    visited key that holds an item when it is reached, with the key as a C
    string and the item; the walk returns the sum of its results.  [cb]
    takes the key of the node, through whose item pointer it writes. *)
Fixpoint tr_walk (cb : gbServer -> bytes -> gbItem -> gbServer * Z)
    (keys : list bytes) (s : gbServer) : gbServer * Z :=
  match keys with
  | [] => (s, 0)
  | key :: rest =>
      let '(s, r) :=
        match tr_find (tree s) key with
        | Some item => cb s key item
        | None => (s, 0)
        end in
      let '(s, n) := tr_walk cb rest s in
      (s, r + n)
  end.

Definition tr_search_callback (s : gbServer) (expr : bytes) (exprlen : Z)
    (limit maxkeylen : Z) (cb : gbServer -> bytes -> gbItem -> gbServer * Z)
    : gbServer * Z :=
  tr_walk cb (tr_matching E (tree s) expr exprlen limit maxkeylen) s.

Definition tr_count := tr_search_callback.

(** [tr_search_nodes_callback]: the callback is handed the node. *)
Fixpoint tr_walk_nodes (cb : gbServer -> bytes -> slot -> gbServer * Z)
    (keys : list bytes) (s : gbServer) : gbServer * Z :=
  match keys with
  | [] => (s, 0)
  | key :: rest =>
      let '(s, r) :=
        match tr_find_node (tree s) key with
        | Some d => cb s key d
        | None => (s, 0)
        end in
      let '(s, n) := tr_walk_nodes cb rest s in
      (s, r + n)
  end.

Definition tr_search_nodes_callback (s : gbServer) (expr : bytes)
    (exprlen : Z) (maxkeylen : Z)
    (cb : gbServer -> bytes -> slot -> gbServer * Z) : gbServer * Z :=
  tr_walk_nodes cb (tr_matching E (tree s) expr exprlen (-1) maxkeylen) s.

(** [tr_search]: the matching keys and, beside them, what their nodes
    hold; its result is their number. *)
Definition tr_search (s : gbServer) (expr : bytes) (exprlen : Z)
    (limit maxkeylen : Z) : Z * list bytes * list slot :=
  let keys := tr_matching E (tree s) expr exprlen limit maxkeylen in
  (Z.of_nat (length keys), keys, map (tr_find (tree s)) keys).

(** *** MSET *)

Definition gbMultiSetCallback (value : bytes) (vlen : Z)
    (s : gbServer) (key : bytes) (item : gbItem) : gbServer * Z :=
  if gbItemIsLocked item s 0 then (s, 0)
  else
    let '(s, valid) := gbIsItemStillValid item s (c_str key) true in
    if negb valid then (s, 0)
    else (fst (gbSingleSet value vlen (c_str key) s), 1).

(** The reply of the bulk handlers that send a count. *)
Definition reply_found (found : Z) : reply :=
  if found =? 0 then gbClientEnqueueCode REPL_ERR_NOT_FOUND false
  else gbClientEnqueueData REPL_VAL GB_ENC_NUMBER found sizeof_size_t false.

Definition gbQueryMultiSetHandler (s : gbServer) (p : bytes)
    : gbServer * reply :=
  if memused (stats s) <=? maxmem (limits s) then
    match gbParseKeyValue (limits s) p (payload_size p) true with
    | Some kv =>
        let '(s, found) :=
          tr_search_callback s (p_key kv) (p_klen kv) (-1)
            (maxkeysize (limits s))
            (gbMultiSetCallback (default [] (p_value kv)) (p_vlen kv)) in
        (s, reply_found found)
    | None => (s, gbClientEnqueueCode REPL_ERR false)
    end
  else (s, gbClientEnqueueCode REPL_ERR_MEM false).

(** *** MTTL *)

Definition gbMultiTtlCallback (ttl : Z)
    (s : gbServer) (key : bytes) (item : gbItem) : gbServer * Z :=
  let '(s, valid) := gbIsItemStillValid item s (c_str key) true in
  if negb valid then (s, 0)
  else
    let now := time (stats s) in
    (store_item s key
       (set_ttl (set_last_access_time (set_time item now) now)
          (min (maxitemttl (limits s)) ttl)),
     1).

Definition gbQueryMultiTtlHandler (s : gbServer) (p : bytes)
    : gbServer * reply :=
  match gbParseKeyValue (limits s) p (payload_size p) true with
  | Some kv =>
      match gbQueryParseLong (default [] (p_value kv)) (p_vlen kv) with
      | Some ttl =>
          let '(s, found) :=
            tr_search_callback s (p_key kv) (p_klen kv) (-1)
              (maxkeysize (limits s)) (gbMultiTtlCallback ttl) in
          (s, reply_found found)
      | None => (s, gbClientEnqueueCode REPL_ERR_NAN false)
      end
  | None => (s, gbClientEnqueueCode REPL_ERR false)
  end.

(** *** MDEL *)

Definition gbMultiDelCallback (s : gbServer) (key : bytes) (d : slot)
    : gbServer * Z :=
  match d with
  | None => (s, 0)
  | Some item =>
      if gbItemIsLocked item s 0 then (s, 0)
      else
        let '(s, valid) := gbIsNodeStillValid key item s true in
        if valid then
          (gbDestroyItem (set_tree s (set_node_data (tree s) key None)) item, 1)
        else (s, 0)
  end.

Definition gbQueryMultiDelHandler (s : gbServer) (p : bytes)
    : gbServer * reply :=
  match gbParseKeyValue (limits s) p (payload_size p) false with
  | Some kv =>
      let '(s, found) :=
        tr_search_nodes_callback s (p_key kv) (p_klen kv)
          (maxkeysize (limits s)) gbMultiDelCallback in
      (s, reply_found found)
  | None => (s, gbClientEnqueueCode REPL_ERR false)
  end.

(** *** MINC and MDEC *)

Definition gbMultiIncDecCallback (delta : Z)
    (s : gbServer) (key : bytes) (item : gbItem) : gbServer * Z :=
  if gbItemIsLocked item s 0 then (s, 0)
  else
    let '(s, valid) := gbIsItemStillValid item s (c_str key) true in
    if negb valid then (s, 0)
    else
      let item := set_last_access_time item (time (stats s)) in
      let s := store_item s key item in
      if encoding_eqb (i_encoding item) GB_ENC_NUMBER then
        (store_item s key
           (set_data item (DataLong (wrap_long (data_long (i_data item) + delta)))),
         1)
      else if encoding_eqb (i_encoding item) GB_ENC_PLAIN then
        match gbQueryParseLong (data_bytes (i_data item)) (i_size item) with
        | Some num =>
            let '(s, item) := promote s item num delta in
            (store_item s key item, 1)
        | None => (s, 0)
        end
      else (s, 1).

Definition gbQueryMultiIncDecHandler (s : gbServer) (p : bytes) (delta : Z)
    : gbServer * reply :=
  match gbParseKeyValue (limits s) p (payload_size p) false with
  | Some kv =>
      let '(s, found) :=
        tr_search_callback s (p_key kv) (p_klen kv) (-1)
          (maxkeysize (limits s)) (gbMultiIncDecCallback delta) in
      (s, reply_found found)
  | None => (s, gbClientEnqueueCode REPL_ERR false)
  end.

(** *** MLOCK and MUNLOCK *)

Definition gbMultiLockCallback (locktime : Z)
    (s : gbServer) (key : bytes) (item : gbItem) : gbServer * Z :=
  let '(s, valid) := gbIsItemStillValid item s (c_str key) true in
  if valid && negb (gbItemIsLocked item s 0) then
    let now := time (stats s) in
    (store_item s key
       (set_lock (set_last_access_time (set_time item now) now) locktime),
     1)
  else (s, 0).

Definition gbQueryMultiLockHandler (s : gbServer) (p : bytes)
    : gbServer * reply :=
  match gbParseKeyValue (limits s) p (payload_size p) true with
  | Some kv =>
      match gbQueryParseLong (default [] (p_value kv)) (p_vlen kv) with
      | Some locktime =>
          let '(s, found) :=
            tr_search_callback s (p_key kv) (p_klen kv) (-1)
              (maxkeysize (limits s)) (gbMultiLockCallback locktime) in
          (s, reply_found found)
      | None => (s, gbClientEnqueueCode REPL_ERR_NAN false)
      end
  | None => (s, gbClientEnqueueCode REPL_ERR false)
  end.

Definition gbMultiUnlockCallback
    (s : gbServer) (key : bytes) (item : gbItem) : gbServer * Z :=
  let '(s, valid) := gbIsItemStillValid item s (c_str key) true in
  if valid then
    (store_item s key
       (set_last_access_time (set_lock item 0) (time (stats s))),
     1)
  else (s, 0).

Definition gbQueryMultiUnlockHandler (s : gbServer) (p : bytes)
    : gbServer * reply :=
  match gbParseKeyValue (limits s) p (payload_size p) false with
  | Some kv =>
      let '(s, found) :=
        tr_search_callback s (p_key kv) (p_klen kv) (-1)
          (maxkeysize (limits s)) gbMultiUnlockCallback in
      (s, reply_found found)
  | None => (s, gbClientEnqueueCode REPL_ERR false)
  end.

(** *** COUNT *)

Definition gbCountCallback
    (s : gbServer) (key : bytes) (item : gbItem) : gbServer * Z :=
  let '(s, valid) := gbIsItemStillValid item s (c_str key) true in
  if negb valid then (s, 0)
  else (store_item s key (set_last_access_time item (time (stats s))), 1).

Definition gbQueryCountHandler (s : gbServer) (p : bytes) : gbServer * reply :=
  match gbParseKeyValue (limits s) p (payload_size p) false with
  | Some kv =>
      let '(s, found) :=
        tr_count s (p_key kv) (p_klen kv) (-1) (maxkeysize (limits s))
          gbCountCallback in
      (s, gbClientEnqueueData REPL_VAL GB_ENC_NUMBER found sizeof_size_t false)
  | None => (s, gbClientEnqueueCode REPL_ERR false)
  end.

(** *** MGET *)

(** The first [ll_foreach_2] of the handler, over the staged keys and
    values: an entry without item, or whose item has expired, is dropped
    from the count and its value set to [NULL]; the others are touched. *)
Fixpoint mget_filter (m_keys : list bytes) (m_values : list slot)
    (s : gbServer) (found : Z) : gbServer * Z * list slot :=
  match m_keys, m_values with
  | ki :: m_keys, vi :: m_values =>
      let '(s, found, vi) :=
        match vi with
        | None => (s, found - 1, None)
        | Some item =>
            let '(s, valid) := gbIsItemStillValid item s (c_str ki) true in
            if valid then
              let item := set_last_access_time item (time (stats s)) in
              (store_item s ki item, found, Some item)
            else (s, found - 1, None)
        end in
      let '(s, found, vs) := mget_filter m_keys m_values s found in
      (s, found, vi :: vs)
  | _, _ => (s, found, [])
  end.

(** The handler from its call of [tr_search] on, the limit being known. *)
Definition mget_search (s : gbServer) (expr : bytes) (exprlen : Z)
    (limit : Z) : gbServer * reply :=
  let '(found, m_keys, m_values) :=
    tr_search s expr exprlen limit (maxkeysize (limits s)) in
  if found =? 0 then (s, gbClientEnqueueCode REPL_ERR_NOT_FOUND false)
  else
    let '(s, found, m_values) := mget_filter m_keys m_values s found in
    if found =? 0 then (s, gbClientEnqueueCode REPL_ERR_NOT_FOUND false)
    else (s, gbClientEnqueueKeyValueSet found m_keys m_values false).

Definition gbQueryMultiGetHandler (s : gbServer) (p : bytes)
    : gbServer * reply :=
  match gbParseKeyAndOptionalValue (limits s) p (payload_size p) true with
  | Some kv =>
      match p_value kv with
      | Some v =>
          if p_vlen kv =? 0 then mget_search s (p_key kv) (p_klen kv) (-1)
          else
            match gbQueryParseLong v (p_vlen kv) with
            | Some limit => mget_search s (p_key kv) (p_klen kv) limit
            | None => (s, gbClientEnqueueCode REPL_ERR_NAN false)
            end
      | None => mget_search s (p_key kv) (p_klen kv) (-1)
      end
  | None => (s, gbClientEnqueueCode REPL_ERR false)
  end.

(** *** KEYS *)

(** [sprintf( index, "%lu", i )]. *)
Definition index_string (i : nat) : bytes :=
  lit (DecimalString.NilZero.string_of_uint (Nat.to_uint i)).

(** The loop that numbers the keys found and wraps each of them in a
    volatile item. *)
Fixpoint keys_stage (keys : list bytes) (i : nat) (s : gbServer)
    : gbServer * list bytes * list slot :=
  match keys with
  | [] => (s, [], [])
  | key :: rest =>
      let '(s, item) :=
        gbCreateVolatileItem s (DataBuf key) (strlen key) GB_ENC_PLAIN in
      let '(s, ks, vs) := keys_stage rest (S i) s in
      (s, index_string i :: ks, Some item :: vs)
  end.

(** The loop that frees the volatile items once the reply is queued. *)
Fixpoint keys_unstage (m_values : list slot) (s : gbServer) : gbServer :=
  match m_values with
  | [] => s
  | Some item :: rest => keys_unstage rest (gbDestroyVolatileItem s item)
  | None :: rest => keys_unstage rest s
  end.

Definition gbQueryKeysHandler (s : gbServer) (p : bytes) : gbServer * reply :=
  match gbParseKeyValue (limits s) p (payload_size p) false with
  | Some kv =>
      let '(found, keys, _) :=
        tr_search s (p_key kv) (p_klen kv) (-1) (maxkeysize (limits s)) in
      if found =? 0 then (s, gbClientEnqueueCode REPL_ERR_NOT_FOUND false)
      else
        let '(s, m_keys, m_values) := keys_stage keys 0 s in
        (keys_unstage m_values s,
         gbClientEnqueueKeyValueSet found m_keys m_values false)
  | None => (s, gbClientEnqueueCode REPL_ERR false)
  end.

(** *** The bulk opcodes *)

Inductive bulk_op :=
| OP_MSET | OP_MTTL | OP_MGET | OP_MDEL | OP_MINC | OP_MDEC
| OP_MLOCK | OP_MUNLOCK | OP_COUNT | OP_KEYS.

(** The branches of [gbProcessQuery] for the bulk opcodes. *)
Definition gbProcessBulk (op : bulk_op) (s : gbServer) (p : bytes)
    : gbServer * reply :=
  match op with
  | OP_MSET => gbQueryMultiSetHandler s p
  | OP_MTTL => gbQueryMultiTtlHandler s p
  | OP_MGET => gbQueryMultiGetHandler s p
  | OP_MDEL => gbQueryMultiDelHandler s p
  | OP_MINC => gbQueryMultiIncDecHandler s p 1
  | OP_MDEC => gbQueryMultiIncDecHandler s p (-1)
  | OP_MLOCK => gbQueryMultiLockHandler s p
  | OP_MUNLOCK => gbQueryMultiUnlockHandler s p
  | OP_COUNT => gbQueryCountHandler s p
  | OP_KEYS => gbQueryKeysHandler s p
  end.

(** The limit [gbQueryMultiGetHandler] searches with, [None] when the
    second token of the request is there and is not a number. *)
Definition mget_limit (kv : parsed_kv) : option Z :=
  match p_value kv with
  | Some v => if p_vlen kv =? 0 then Some (-1) else gbQueryParseLong v (p_vlen kv)
  | None => Some (-1)
  end.

(** The value of [found] a bulk handler decides its reply on: the result
    of its walk, for [OP_MGET] what is left of it once the entries without
    a valid item are taken off.  [None] when the handler replies before
    any walk (memory, parse error, not a number). *)
Definition walk_total (op : bulk_op) (s : gbServer) (p : bytes) : option Z :=
  let lim := limits s in
  let size := payload_size p in
  let walk kv cb :=
    snd (tr_search_callback s (p_key kv) (p_klen kv) (-1) (maxkeysize lim) cb) in
  match op with
  | OP_MSET =>
      if memused (stats s) <=? maxmem lim then
        kv ← gbParseKeyValue lim p size true;
        Some (walk kv (gbMultiSetCallback (default [] (p_value kv)) (p_vlen kv)))
      else None
  | OP_MTTL =>
      kv ← gbParseKeyValue lim p size true;
      ttl ← gbQueryParseLong (default [] (p_value kv)) (p_vlen kv);
      Some (walk kv (gbMultiTtlCallback ttl))
  | OP_MGET =>
      kv ← gbParseKeyAndOptionalValue lim p size true;
      limit ← mget_limit kv;
      let '(found, m_keys, m_values) :=
        tr_search s (p_key kv) (p_klen kv) limit (maxkeysize lim) in
      Some (if found =? 0 then 0
            else snd (fst (mget_filter m_keys m_values s found)))
  | OP_MDEL =>
      kv ← gbParseKeyValue lim p size false;
      Some (snd (tr_search_nodes_callback s (p_key kv) (p_klen kv)
                   (maxkeysize lim) gbMultiDelCallback))
  | OP_MINC =>
      kv ← gbParseKeyValue lim p size false;
      Some (walk kv (gbMultiIncDecCallback 1))
  | OP_MDEC =>
      kv ← gbParseKeyValue lim p size false;
      Some (walk kv (gbMultiIncDecCallback (-1)))
  | OP_MLOCK =>
      kv ← gbParseKeyValue lim p size true;
      locktime ← gbQueryParseLong (default [] (p_value kv)) (p_vlen kv);
      Some (walk kv (gbMultiLockCallback locktime))
  | OP_MUNLOCK =>
      kv ← gbParseKeyValue lim p size false;
      Some (walk kv gbMultiUnlockCallback)
  | OP_COUNT =>
      kv ← gbParseKeyValue lim p size false;
      Some (snd (tr_count s (p_key kv) (p_klen kv) (-1) (maxkeysize lim)
                   gbCountCallback))
  | OP_KEYS =>
      kv ← gbParseKeyValue lim p size false;
      Some (fst (fst (tr_search s (p_key kv) (p_klen kv) (-1) (maxkeysize lim))))
  end.

End Query.

(** ** A reference index *)

(** Modelled from the spec: the pattern search of the index, which lives
    in [trie.c].  A pattern ending in [*] matches the keys that share what
    stands before the star, any other pattern matches the key equal to
    it. *)
Fixpoint pattern_matches (expr key : bytes) : bool :=
  match expr, key with
  | [], [] => true
  | [c], _ =>
      if byte_eqb c "*"%char then true
      else match key with [k] => byte_eqb c k | _ => false end
  | c :: expr', k :: key' => byte_eqb c k && pattern_matches expr' key'
  | _, _ => false
  end.

(** The keys of the index that match, cut at [limit] unless it is
    negative. *)
Definition prefix_matching (t : tree_t) (expr : bytes) (exprlen : Z)
    (limit maxkeylen : Z) : list bytes :=
  let found :=
    filter (fun k => Is_true (pattern_matches (take (Z.to_nat exprlen) expr) k))
      (map fst (map_to_list t)) in
  if limit <? 0 then found else take (Z.to_nat limit) found.

(** The bytes the buffers of the indexed items take. *)
Definition buffers_size (s : gbServer) : Z :=
  map_fold (fun _ (d : slot) acc =>
              match d with
              | Some it =>
                  if encoding_eqb (i_encoding it) GB_ENC_NUMBER then acc
                  else acc + i_size it
              | None => acc
              end) 0 (tree s).

(** Collaborators to run the handlers with: a codec that always gives up
    and the index above. *)
Definition ref_collaborators : collaborators :=
  mkCollaborators buffers_size (fun _ _ _ => []) prefix_matching.

Abbreviation run := ref_collaborators.

Definition test_limits : gbLimits := mkLimits 1024 4096 2592000 1000000.

(** A server at time [now] holding [t], with [used] bytes in use. *)
Definition test_server (t : tree_t) (now used : Z) : gbServer :=
  mkServer t (mkStats now used used (Z.of_nat (size t)) 0 0 0 0 0 0)
    test_limits 64 [] [].

(** A plain item created at time 0. *)
Definition plain_item (v : string) (ttl lock : Z) : gbItem :=
  mkItem (DataBuf (lit v)) (Z.of_nat (length (lit v))) GB_ENC_PLAIN 0 0 ttl lock.

(** ** Servers to run requests on *)

Definition key_foo : bytes := lit "foo".

Definition one_key (it : gbItem) : tree_t := {[ key_foo := Some it ]}.

(** ["foo"] holds ["bar"] with a ttl of 2 seconds; the time is 3. *)
Definition item_expired : gbItem := plain_item "bar" 2 0.
Definition srv_expired : gbServer := test_server (one_key item_expired) 3 100.

(** The same, locked for ever. *)
Definition item_expired_locked : gbItem := plain_item "bar" 2 (-1).
Definition srv_expired_locked : gbServer :=
  test_server (one_key item_expired_locked) 3 100.

(** The same, locked for 10 seconds; the time is 5. *)
Definition item_expired_timelock : gbItem := plain_item "bar" 2 10.
Definition srv_expired_timelock : gbServer :=
  test_server (one_key item_expired_timelock) 5 100.

(** ["foo"] holds ["bar"] without expiry, locked for 60 seconds; the time
    is 5. *)
Definition item_locked : gbItem := plain_item "bar" (-1) 60.
Definition srv_locked : gbServer := test_server (one_key item_locked) 5 100.

(** ["foo"] holds the bytes ["42"], then the bytes ["abc"]; the time is 5. *)
Definition item_42 : gbItem := plain_item "42" (-1) 0.
Definition srv_42 : gbServer := test_server (one_key item_42) 5 100.
Definition item_abc : gbItem := plain_item "abc" (-1) 0.
Definition srv_abc : gbServer := test_server (one_key item_abc) 5 100.

Definition srv_empty : gbServer := test_server ∅ 5 100.

(** Three keys, and twice the memory the limits allow in use. *)
Definition three_keys : tree_t :=
  <[lit "a/1" := Some (plain_item "x" (-1) 0)]>
    (<[lit "a/2" := Some (plain_item "y" (-1) 0)]>
       (<[lit "b/1" := Some (plain_item "z" (-1) 0)]> ∅)).
Definition srv_three : gbServer := test_server three_keys 5 100.
Definition srv_over : gbServer := test_server three_keys 5 2000000.

(** ** Statements *)

(** The outcome [r] of a request that found the item [it] expired: the
    reply is [REPL_ERR_NOT_FOUND], the index is [t'], the item went back
    to the pool and is no longer counted. *)
Definition destroyed_with (s : gbServer) (it : gbItem) (t' : tree_t)
    (r : gbServer * reply) : Prop :=
  snd r = gbClientEnqueueCode REPL_ERR_NOT_FOUND false
  /\ tree (fst r) = t'
  /\ item_pool (fst r) = opool_free_object it :: item_pool s
  /\ nitems (stats (fst r)) = nitems (stats s) - 1.

(** The lock test of the specification. *)
Definition locked (it : gbItem) (now : Z) : Prop :=
  i_lock it = -1 \/ now - i_time it < i_lock it.

(** The reply of a bulk handler that sends a count. *)
Definition number_reply (found : Z) : reply :=
  gbClientEnqueueData REPL_VAL GB_ENC_NUMBER found sizeof_size_t false.

Definition not_found_reply : reply :=
  gbClientEnqueueCode REPL_ERR_NOT_FOUND false.

(** A key/value set of [found] pairs. *)
Definition set_reply (found : Z) (r : reply) : Prop :=
  exists m_keys m_values,
    r = gbClientEnqueueKeyValueSet found m_keys m_values false.

(** ** The clock and the request counter *)

(** [server->stats.time] is written by the timer of the server, between
    requests: the server at the reading [now] of the clock. *)
Definition set_clock (s : gbServer) (now : Z) : gbServer :=
  let st := stats s in
  set_stats s (mkStats now (memused st) (mempeak st) (nitems st)
                 (ncompressed st) (sizeavg st) (compravg st) (firstin st)
                 (lastin st) (requests st)).

Definition set_requests (s : gbServer) (v : Z) : gbServer :=
  let st := stats s in
  set_stats s (mkStats (time st) (memused st) (mempeak st) (nitems st)
                 (ncompressed st) (sizeavg st) (compravg st) (firstin st)
                 (lastin st) v).

(** ** STATS *)

(** What [gbQueryStatsHandler] reads beside the counters above: the build
    constants of [configure.h], the counters of [server->stats] that no
    other handler uses, the fields of the object pool, which move with
    the calls made to it, and the two texts that [sprintf( s, "%f", .. )]
    leaves for the fragmentation ratio of the allocator and for
    [requests / (double)connections]. *)
Record server_info := mkServerInfo {
  VERSION : bytes;
  BUILD_DATETIME : bytes;
  HAVE_JEMALLOC : bool;
  started : Z;
  nclients : Z;
  crondone : Z;
  connections : Z;
  memavail : Z;
  pool_used : list pool_op -> Z;
  pool_capacity : list pool_op -> Z;
  pool_total_capacity : list pool_op -> Z;
  pool_object_size : Z;
  pool_max_block_size : Z;
  fragmentation_text : bytes;
  reqs_per_client_text : Z -> Z -> bytes
}.

(** [(long)value] of a [double]: the integer part. *)
Definition long_of_double (q : Q) : Z :=
  wrap_long (Qnum q ÷ Z.pos (Qden q)).

(** The lists [server->m_keys] and [server->m_values] while a reply is
    staged, with the server and the counter [elems]. *)
Record staged := mkStaged {
  sg_server : gbServer;
  sg_keys : list bytes;
  sg_values : list slot;
  sg_elems : Z
}.

(** The macro [APPEND_LONG_STAT( key, value )]. *)
Definition APPEND_LONG_STAT (key : string) (value : Z) (st : staged) : staged :=
  let '(s, item) :=
    gbCreateVolatileItem (sg_server st) (DataLong (wrap_long value))
      sizeof_long GB_ENC_NUMBER in
  mkStaged s (sg_keys st ++ [lit key]) (sg_values st ++ [Some item])
    (sg_elems st + 1).

(** The macro [APPEND_STRING_STAT( key, value )]: the value is a C string,
    copied by [zstrdup]. *)
Definition APPEND_STRING_STAT (key : string) (value : bytes) (st : staged)
    : staged :=
  let '(s, item) :=
    gbCreateVolatileItem (sg_server st) (DataBuf (c_str value))
      (strlen value) GB_ENC_PLAIN in
  mkStaged s (sg_keys st ++ [lit key]) (sg_values st ++ [Some item])
    (sg_elems st + 1).

(** The macro [APPEND_FLOAT_STAT( key, value )], given the text that
    [sprintf] wrote. *)
Definition APPEND_FLOAT_STAT (key : string) (text : bytes) (st : staged)
    : staged :=
  APPEND_STRING_STAT key text st.

(** The statistics staged by [gbQueryStatsHandler], in its order. *)
Definition stats_staged (info : server_info) (s : gbServer) : staged :=
  let pool f (st : staged) := f (item_pool (sg_server st)) in
  let st := mkStaged s [] [] 0 in
  let st := APPEND_STRING_STAT "server_version" (VERSION info) st in
  let st := APPEND_STRING_STAT "server_build_datetime" (BUILD_DATETIME info) st in
  let st :=
    if HAVE_JEMALLOC info
    then APPEND_STRING_STAT "server_allocator" (lit "jemalloc") st
    else APPEND_STRING_STAT "server_allocator" (lit "malloc") st in
  let st :=
    APPEND_STRING_STAT "server_arch"
      (if sizeof_long =? 8 then lit "64" else lit "32") st in
  let st := APPEND_LONG_STAT "server_started" (started info) st in
  let st := APPEND_LONG_STAT "server_time" (time (stats s)) st in
  let st := APPEND_LONG_STAT "first_item_seen" (firstin (stats s)) st in
  let st := APPEND_LONG_STAT "last_item_seen" (lastin (stats s)) st in
  let st := APPEND_LONG_STAT "total_items" (nitems (stats s)) st in
  let st := APPEND_LONG_STAT "total_compressed_items" (ncompressed (stats s)) st in
  let st := APPEND_LONG_STAT "total_clients" (nclients info) st in
  let st := APPEND_LONG_STAT "total_cron_done" (crondone info) st in
  let st := APPEND_LONG_STAT "total_connections" (connections info) st in
  let st := APPEND_LONG_STAT "total_requests" (requests (stats s)) st in
  let st := APPEND_LONG_STAT "item_pool_current_used" (pool (pool_used info) st) st in
  let st :=
    APPEND_LONG_STAT "item_pool_current_capacity" (pool (pool_capacity info) st) st in
  let st :=
    APPEND_LONG_STAT "item_pool_total_capacity"
      (pool (pool_total_capacity info) st) st in
  let st := APPEND_LONG_STAT "item_pool_object_size" (pool_object_size info) st in
  let st :=
    APPEND_LONG_STAT "item_pool_max_block_size" (pool_max_block_size info) st in
  let st := APPEND_LONG_STAT "memory_available" (memavail info) st in
  let st := APPEND_LONG_STAT "memory_usable" (maxmem (limits s)) st in
  let st := APPEND_LONG_STAT "memory_used" (memused (stats s)) st in
  let st := APPEND_LONG_STAT "memory_peak" (mempeak (stats s)) st in
  let st := APPEND_FLOAT_STAT "memory_fragmentation" (fragmentation_text info) st in
  let st := APPEND_LONG_STAT "item_size_avg" (sizeavg (stats s)) st in
  let st :=
    APPEND_LONG_STAT "compr_rate_avg" (long_of_double (compravg (stats s))) st in
  APPEND_FLOAT_STAT "reqs_per_client_avg"
    (reqs_per_client_text info (requests (stats s)) (connections info)) st.

Definition gbQueryStatsHandler (info : server_info) (s : gbServer) (p : bytes)
    : gbServer * reply :=
  let st := stats_staged info s in
  (keys_unstage (sg_values st) (sg_server st),
   gbClientEnqueueKeyValueSet (sg_elems st) (sg_keys st) (sg_values st) false).

(** ** The dispatcher *)

(** The opcodes of [gbProcessQuery].  Their numbers are those of
    [query.h]; [OP_BULK] stands for the ten bulk opcodes and [OP_OTHER] for
    any number that is none of them. *)
Inductive opcode :=
| OP_GET | OP_SET | OP_TTL | OP_DEL | OP_INC | OP_DEC | OP_LOCK | OP_UNLOCK
| OP_STATS | OP_PING | OP_META | OP_END
| OP_BULK (op : bulk_op)
| OP_OTHER.

(** [gbProcessQuery], the opcode read and the payload behind it; [None]
    is [GB_ERR], returned without reply. *)
Definition gbProcessQuery (E : collaborators) (info : server_info)
    (op : opcode) (s : gbServer) (p : bytes) : gbServer * option reply :=
  let s := set_requests s (requests (stats s) + 1) in
  let sent (r : gbServer * reply) := (fst r, Some (snd r)) in
  match op with
  | OP_GET => sent (gbQueryGetHandler E s p)
  | OP_SET => sent (gbQuerySetHandler E s p)
  | OP_TTL => sent (gbQueryTtlHandler E s p)
  | OP_DEL => sent (gbQueryDelHandler E s p)
  | OP_INC => sent (gbQueryIncDecHandler E s p 1)
  | OP_DEC => sent (gbQueryIncDecHandler E s p (-1))
  | OP_LOCK => sent (gbQueryLockHandler E s p)
  | OP_UNLOCK => sent (gbQueryUnlockHandler E s p)
  | OP_STATS => sent (gbQueryStatsHandler info s p)
  | OP_PING => (s, Some (gbClientEnqueueCode REPL_OK false))
  | OP_META => sent (gbQueryMetaHandler E s p)
  | OP_END => (s, Some (gbClientEnqueueCode REPL_OK true))
  | OP_BULK op => sent (gbProcessBulk E op s p)
  | OP_OTHER => (s, None)
  end.

(** The close-after-send flag of a reply. *)
Definition close_of (r : reply) : bool :=
  match r with
  | gbClientEnqueueCode _ c => c
  | gbClientEnqueueItem _ _ c => c
  | gbClientEnqueueData _ _ _ _ c => c
  | gbClientEnqueueKeyValueSet _ _ _ c => c
  end.

(** An instance to run STATS with. *)
Definition test_info : server_info :=
  mkServerInfo (lit "1.0.0") (lit "today") false 1 2 3 4 5
    (fun ops => Z.of_nat (length ops)) (fun _ => 64) (fun _ => 64) 56 1024
    (lit "1.250000") (fun _ _ => lit "0.500000").

(** ** Decimal numbers *)

(** The digits of a positive number, as [sprintf] writes them. *)
Definition decimal (n : positive) : bytes :=
  lit (DecimalString.NilEmpty.string_of_uint (Pos.to_uint n)).

(** The names [gbGetItemMeta] compares the field of a META request with,
    in its order. *)
Definition meta_fields : list string :=
  ["size"; "encoding"; "access"; "created"; "ttl"; "left"; "lock"]%string.

(** The pattern and the limit a bulk handler searches the index with: what
    its parser makes of the request, [None] when the parser refuses it or
    when the limit of an MGET is not a number. *)
Definition bulk_pattern (op : bulk_op) (s : gbServer) (p : bytes)
    : option (parsed_kv * Z) :=
  match op with
  | OP_MGET =>
      kv ← gbParseKeyAndOptionalValue (limits s) p (payload_size p) true;
      limit ← mget_limit kv;
      Some (kv, limit)
  | OP_MSET | OP_MTTL | OP_MLOCK =>
      kv ← gbParseKeyValue (limits s) p (payload_size p) true;
      Some (kv, -1)
  | _ =>
      kv ← gbParseKeyValue (limits s) p (payload_size p) false;
      Some (kv, -1)
  end.

(** The keys that the search of a bulk request matches. *)
Definition bulk_matches (E : collaborators) (s : gbServer)
    (q : parsed_kv * Z) : list bytes :=
  tr_matching E (tree s) (p_key (fst q)) (p_klen (fst q)) (snd q)
    (maxkeysize (limits s)).

(** The volatile item that KEYS wraps a key in. *)
Definition volatile_key (key : bytes) : gbItem :=
  mkItem (DataBuf key) (strlen key) GB_ENC_PLAIN 0 0 (-1) 0.

(** The [data] pointers that both destructors hand to [zfree] when they
    give the items of [ops] back to the pool. *)
Definition buffers_freed (ops : list pool_op) : list item_data :=
  flat_map (fun op =>
              match op with
              | opool_free_object it =>
                  if owns_buffer it then [i_data it] else []
              | opool_alloc_object => []
              end) ops.

(** The server after the calls [ops] to the object pool, the latest
    first, each item given back through its destructor. *)
Definition after_pool_calls (s : gbServer) (ops : list pool_op) : gbServer :=
  mkServer (tree s) (stats s) (limits s) (compression s) (ops ++ item_pool s)
    (buffers_freed ops ++ heap_freed s).

(** The labels of a STATS reply, in its order. *)
Definition stats_labels : list string :=
  ["server_version"; "server_build_datetime"; "server_allocator";
   "server_arch"; "server_started"; "server_time"; "first_item_seen";
   "last_item_seen"; "total_items"; "total_compressed_items";
   "total_clients"; "total_cron_done"; "total_connections";
   "total_requests"; "item_pool_current_used";
   "item_pool_current_capacity"; "item_pool_total_capacity";
   "item_pool_object_size"; "item_pool_max_block_size";
   "memory_available"; "memory_usable"; "memory_used"; "memory_peak";
   "memory_fragmentation"; "item_size_avg"; "compr_rate_avg";
   "reqs_per_client_avg"]%string.

(** What no handler writes: the clock, the limits, the compression
    threshold and the counter of requests, which the dispatcher alone
    moves. *)
Definition settings (s : gbServer) : Z * gbLimits * Z * Z :=
  (time (stats s), limits s, compression s, requests (stats s)).

(** The number of keys of the index that hold an item. *)
Definition live (t : tree_t) : Z :=
  Z.of_nat (size (filter (fun kd : bytes * slot => is_Some (snd kd)) t)).

(** The counter of items is the number of items in the index. *)
Definition counted (s : gbServer) : Prop := nitems (stats s) = live (tree s).

(** A callback of a walk keeps the count of items: it does on a key that
    holds the item it is handed and that is a C string. *)
Definition keeps_count (cb : gbServer -> bytes -> gbItem -> gbServer * Z)
    : Prop :=
  forall s key item,
    counted s -> tr_find (tree s) key = Some item -> c_str key = key ->
    counted (fst (cb s key item)).

(** The keys a search hands to a bulk handler, as the index gives them:
    each once, and each a C string. *)
Definition search_sound (E : collaborators) (s : gbServer)
    (q : parsed_kv * Z) : Prop :=
  NoDup (bulk_matches E s q)
  /\ Forall (fun key => NUL ∉ key) (bulk_matches E s q).

(** ** Further servers and requests to run *)

(** ["foo"] holds the number 7; the time is 5. *)
Definition item_7 : gbItem :=
  mkItem (DataLong 7) sizeof_long GB_ENC_NUMBER 0 0 (-1) 0.
Definition srv_7 : gbServer := test_server (one_key item_7) 5 100.

(** ["foo"] holds ["bar"] with a ttl of 10 seconds; the time is 5. *)
Definition item_ttl : gbItem := plain_item "bar" 10 0.
Definition srv_ttl : gbServer := test_server (one_key item_ttl) 5 100.

(** The fields of the requests run below, as the parsers give them. *)
Definition kv_foo : parsed_kv := mkParsedKV key_foo 3 None 0.
Definition kv_foo_with (v : string) : parsed_kv :=
  mkParsedKV key_foo 3 (Some (lit v)) (Z.of_nat (length (lit v))).
Definition tkv_foo_baz (ttl : string) : parsed_tkv :=
  mkParsedTKV (lit ttl) (Z.of_nat (length (lit ttl))) (kv_foo_with "baz").

(** The key holds an item that has not expired. *)
Definition valid_item (s : gbServer) (key : bytes) : bool :=
  match tr_find (tree s) key with
  | Some it => negb (expired it (time (stats s)))
  | None => false
  end.

(** What MGET stages for a key, seen from the server it is asked on: the
    item of the key, touched, and nothing for a key without item or whose
    item has expired. *)
Definition mget_value (s : gbServer) (key : bytes) : slot :=
  match tr_find (tree s) key with
  | Some it =>
      if expired it (time (stats s)) then None
      else Some (set_last_access_time it (time (stats s)))
  | None => None
  end.

(** The reply of MGET to the keys [keys] of a search: the set of the keys
    and of what each holds, counted by the values that are there, or
    [REPL_ERR_NOT_FOUND] when no value is. *)
Definition mget_reply (s : gbServer) (keys : list bytes) : reply :=
  let m_values := map (mget_value s) keys in
  let found := Z.of_nat (length (filter is_Some m_values)) in
  if found =? 0 then gbClientEnqueueCode REPL_ERR_NOT_FOUND false
  else gbClientEnqueueKeyValueSet found keys m_values false.

(** ["a/1"] holds an item without expiry, ["a/2"] one that expired at 2;
    the time is 5. *)
Definition mixed_keys : tree_t :=
  <[lit "a/1" := Some (plain_item "x" (-1) 0)]>
    (<[lit "a/2" := Some (plain_item "y" 2 0)]> ∅).
Definition srv_mixed : gbServer := test_server mixed_keys 5 100.

(** * Properties *)

(** ** Runs of the parsers *)

Example parse_long_42 : gbQueryParseLong (lit "42") 2 = Some 42.
Proof. reflexivity. Qed.

Example parse_long_neg : gbQueryParseLong (lit "-17") 3 = Some (-17).
Proof. reflexivity. Qed.

Example parse_long_nan : gbQueryParseLong (lit "4x2") 3 = None.
Proof. reflexivity. Qed.

Example parse_kv_ex :
  gbParseKeyValue test_limits (lit "foo 60") 6 true
  = Some (mkParsedKV (lit "foo") 3 (Some (lit "60")) 2).
Proof. reflexivity. Qed.

Example parse_key_only :
  gbParseKeyValue test_limits (lit "foo") 3 false
  = Some (mkParsedKV (lit "foo") 3 None 0).
Proof. reflexivity. Qed.

(** A request that stops after the key: the length of the value wraps
    and is cut to [maxvaluesize]. *)
Example parse_kv_wraps :
  gbParseKeyValue test_limits (lit "foo") 3 true
  = Some (mkParsedKV (lit "foo") 3 (Some []) 4096).
Proof. reflexivity. Qed.

Example parse_tkv_ex :
  gbParseTtlKeyValue test_limits (lit "-1 foo bar") 10 true
  = Some (mkParsedTKV (lit "-1") 2 (mkParsedKV (lit "foo") 3 (Some (lit "bar")) 3)).
Proof. reflexivity. Qed.

Example parse_opt_absent :
  gbParseKeyAndOptionalValue test_limits (lit "a/*") 3 true
  = Some (mkParsedKV (lit "a/*") 3 None 0).
Proof. reflexivity. Qed.

Example parse_opt_present :
  gbParseKeyAndOptionalValue test_limits (lit "a/* 10") 6 true
  = Some (mkParsedKV (lit "a/*") 3 (Some (lit "10")) 2).
Proof. reflexivity. Qed.

(** ** The integer parser *)

Lemma take_all {A} (l : list A) : take (Z.to_nat (Z.of_nat (length l))) l = l.
Proof. rewrite Nat2Z.id. apply firstn_all. Qed.

(** The digit loop succeeds exactly on digits. *)
Lemma parse_digits_is_Some (v : bytes) (n : Z) :
  is_Some (parse_digits v n) <-> forallb is_digit v = true.
Proof.
  revert n. induction v as [|c v IH]; intros n; simpl.
  - split; [reflexivity | eauto].
  - destruct (is_digit c); simpl.
    + apply IH.
    + split; [intros [x Hx] | intros Hx]; discriminate.
Qed.

(** On the digits alone the loop reads the decimal number, modulo the
    width of a [long]. *)
Lemma parse_digits_step (v : bytes) (c : byte_t) (n : Z) :
  is_digit c = true ->
  parse_digits (v ++ [c]) n
  = (fun m => wrap_long (m * 10 + (byte_val c - byte_val CH_0)))
      <$> parse_digits v n.
Proof.
  intros Hc. revert n. induction v as [|d v IH]; intros n; simpl.
  - now rewrite Hc.
  - destruct (is_digit d); [apply IH | reflexivity].
Qed.

(** A first byte ['0'] ends the parse at once, whatever follows. *)
Lemma gbQueryParseLong_zero_first (rest : bytes) :
  gbQueryParseLong (CH_0 :: rest) (Z.of_nat (length (CH_0 :: rest))) = Some 0.
Proof. unfold gbQueryParseLong. now rewrite take_all. Qed.

(** When the first byte is not ['0'], the parser succeeds exactly when
    every byte after the optional sign is a digit. *)
Lemma gbQueryParseLong_digits (c : byte_t) (rest : bytes) :
  c <> CH_0 ->
  is_Some (gbQueryParseLong (c :: rest) (Z.of_nat (length (c :: rest))))
  <-> forallb is_digit (if byte_eqb c CH_MINUS then rest else c :: rest) = true.
Proof.
  intros Hc. unfold gbQueryParseLong. rewrite take_all.
  destruct (byte_eqb c CH_0) eqn:E0.
  - apply Ascii.eqb_eq in E0. contradiction.
  - destruct (byte_eqb c CH_MINUS); rewrite fmap_is_Some;
      apply parse_digits_is_Some.
Qed.

(** C7: the integer parser is claimed to fail on any byte that is not a
    digit after the optional sign.  On the two bytes ["0a"] it returns 1
    with the value 0: the test of a leading ['0'] returns before the loop
    that checks the digits has looked at the rest.  A TTL request with
    that value is answered [REPL_OK]. *)
Theorem gbQueryParseLong_accepts_0a :
  gbQueryParseLong (lit "0a") 2 = Some 0
  /\ forallb is_digit (lit "0a") = false
  /\ snd (gbQueryTtlHandler run srv_42 (lit "foo 0a"))
     = gbClientEnqueueCode REPL_OK false.
Proof. repeat split; vm_compute; reflexivity. Qed.

(** ** Locks and expiry *)

Lemma gbItemIsLocked_true (it : gbItem) (s : gbServer) :
  gbItemIsLocked it s 0 = true <-> locked it (time (stats s)).
Proof.
  unfold gbItemIsLocked, locked. simpl.
  rewrite orb_true_iff, Z.eqb_eq, Z.ltb_lt. reflexivity.
Qed.

Lemma gbItemIsLocked_false (it : gbItem) (s : gbServer) :
  gbItemIsLocked it s 0 = false <-> ~ locked it (time (stats s)).
Proof.
  rewrite <- gbItemIsLocked_true. destruct (gbItemIsLocked it s 0); split;
    congruence.
Qed.

Lemma expired_true (it : gbItem) (now : Z) :
  expired it now = true <-> 0 < i_ttl it /\ i_ttl it <= now - i_time it.
Proof.
  unfold expired. rewrite andb_true_iff, Z.ltb_lt, Z.leb_le. reflexivity.
Qed.

Lemma expired_false_ttl (it : gbItem) (now : Z) :
  i_ttl it <= 0 -> expired it now = false.
Proof.
  intros H. unfold expired. destruct (Z.ltb_spec 0 (i_ttl it)); [lia | reflexivity].
Qed.

(** [tr_remove] on a key that holds an item nulls its slot. *)
Lemma tr_remove_item (t : tree_t) (k : bytes) (it : gbItem) :
  tr_find t k = Some it -> tr_remove t k = <[k := None]> t.
Proof.
  unfold tr_find, tr_remove. destruct (t !! k); [reflexivity|discriminate].
Qed.

(** [tr_remove] leaves the other keys alone. *)
Lemma tr_remove_ne (t : tree_t) (k k' : bytes) :
  k' <> k -> tr_remove t k !! k' = t !! k'.
Proof.
  intros Hne. unfold tr_remove. destruct (t !! k); [|reflexivity].
  now apply lookup_insert_ne.
Qed.

(** In the range of a [long] the sum is the sum. *)
Lemma wrap_long_id (z : Z) : - 2 ^ 63 <= z < 2 ^ 63 -> wrap_long z = z.
Proof. intros H. unfold wrap_long. rewrite Z.mod_small; lia. Qed.

Section Properties.

Variable E : collaborators.

(** *** SET on a locked key *)

(** Past the memory check and the parse, a locked item stops SET before
    anything is written. *)
Lemma set_stops_on_lock (s : gbServer) (p : bytes) (r : parsed_tkv)
    (ttl : Z) (it : gbItem) :
  memused (stats s) <= maxmem (limits s) ->
  gbParseTtlKeyValue (limits s) p (payload_size p) true = Some r ->
  gbQueryParseLong (p_ttl r) (p_ttllen r) = Some ttl ->
  tr_find (tree s) (p_key (p_kv r)) = Some it ->
  gbItemIsLocked it s 0 = true ->
  gbQuerySetHandler E s p = (s, gbClientEnqueueCode REPL_ERR_LOCKED false).
Proof.
  intros Hmem Hparse Httl Hfind Hlock. unfold gbQuerySetHandler.
  apply Z.leb_le in Hmem. rewrite Hmem, Hparse, Httl, Hfind, Hlock.
  reflexivity.
Qed.

(** C2: a SET whose key holds a locked item returns the server as it
    was, index, counters and pool alike, and, once past the memory check
    with a ttl field that is a number, replies [REPL_ERR_LOCKED]. *)
Theorem set_locked_unchanged (s : gbServer) (p : bytes) (r : parsed_tkv)
    (it : gbItem) :
  gbParseTtlKeyValue (limits s) p (payload_size p) true = Some r ->
  tr_find (tree s) (p_key (p_kv r)) = Some it ->
  locked it (time (stats s)) ->
  fst (gbQuerySetHandler E s p) = s
  /\ (memused (stats s) <= maxmem (limits s) ->
        is_Some (gbQueryParseLong (p_ttl r) (p_ttllen r)) ->
        snd (gbQuerySetHandler E s p)
        = gbClientEnqueueCode REPL_ERR_LOCKED false).
Proof.
  intros Hparse Hfind Hlock. apply gbItemIsLocked_true in Hlock. split.
  - unfold gbQuerySetHandler. rewrite Hparse, Hfind, Hlock.
    destruct (memused (stats s) <=? maxmem (limits s)); [|reflexivity].
    destruct (gbQueryParseLong _ _); reflexivity.
  - intros Hmem [ttl Httl].
    now rewrite (set_stops_on_lock s p r ttl it).
Qed.

(** C9: SET does not look at the expiry of the item it finds.  On a key
    whose item has expired the reply is never [REPL_ERR_NOT_FOUND]: if the
    item is locked the reply is [REPL_ERR_LOCKED] and the server is
    returned as it was, the expired item still in the index and not
    destroyed; if it is not locked the value is written and the reply is
    [REPL_VAL]. *)
Theorem set_ignores_expiry (s : gbServer) (p : bytes) (r : parsed_tkv)
    (ttl : Z) (it : gbItem) :
  memused (stats s) <= maxmem (limits s) ->
  gbParseTtlKeyValue (limits s) p (payload_size p) true = Some r ->
  gbQueryParseLong (p_ttl r) (p_ttllen r) = Some ttl ->
  tr_find (tree s) (p_key (p_kv r)) = Some it ->
  expired it (time (stats s)) = true ->
  (locked it (time (stats s)) ->
     gbQuerySetHandler E s p = (s, gbClientEnqueueCode REPL_ERR_LOCKED false)
     /\ tr_find (tree (fst (gbQuerySetHandler E s p))) (p_key (p_kv r)) = Some it
     /\ item_pool (fst (gbQuerySetHandler E s p)) = item_pool s)
  /\ (~ locked it (time (stats s)) ->
        code_of (snd (gbQuerySetHandler E s p)) = REPL_VAL).
Proof.
  intros Hmem Hparse Httl Hfind _. split.
  - intros Hlock. apply gbItemIsLocked_true in Hlock.
    rewrite (set_stops_on_lock s p r ttl it) by auto. auto.
  - intros Hlock. apply gbItemIsLocked_false in Hlock.
    unfold gbQuerySetHandler. apply Z.leb_le in Hmem.
    rewrite Hmem, Hparse, Httl, Hfind, Hlock.
    destruct (gbSingleSet E _ _ _ s) as [s' item].
    destruct (0 <? ttl); reflexivity.
Qed.

(** *** The validity checks *)

Lemma gbIsNodeStillValid_expired (k : bytes) (it : gbItem) (s : gbServer) :
  expired it (time (stats s)) = true ->
  gbIsNodeStillValid E k it s true
  = (gbDestroyItem E (set_tree s (set_node_data (tree s) k None)) it, false).
Proof. intros H. unfold gbIsNodeStillValid. now rewrite H. Qed.

Lemma gbIsNodeStillValid_valid (k : bytes) (it : gbItem) (s : gbServer)
    (remove : bool) :
  expired it (time (stats s)) = false ->
  gbIsNodeStillValid E k it s remove = (s, true).
Proof. intros H. unfold gbIsNodeStillValid. now rewrite H. Qed.

Lemma gbIsItemStillValid_expired (k : bytes) (it : gbItem) (s : gbServer) :
  expired it (time (stats s)) = true ->
  gbIsItemStillValid E it s k true
  = (gbDestroyItem E (set_tree s (tr_remove (tree s) k)) it, false).
Proof. intros H. unfold gbIsItemStillValid. now rewrite H. Qed.

Lemma gbIsItemStillValid_valid (k : bytes) (it : gbItem) (s : gbServer)
    (remove : bool) :
  expired it (time (stats s)) = false ->
  gbIsItemStillValid E it s k remove = (s, true).
Proof. intros H. unfold gbIsItemStillValid. now rewrite H. Qed.

(** What [gbDestroyItem] leaves: the index as it was, the item in the
    trace of the pool, one item less in the count. *)
Lemma gbDestroyItem_tree (s : gbServer) (it : gbItem) :
  tree (gbDestroyItem E s it) = tree s.
Proof.
  unfold gbDestroyItem, zfree_buffer.
  destruct (encoding_eqb _ _); destruct (owns_buffer it); reflexivity.
Qed.

Lemma gbDestroyItem_pool (s : gbServer) (it : gbItem) :
  item_pool (gbDestroyItem E s it) = opool_free_object it :: item_pool s.
Proof.
  unfold gbDestroyItem, zfree_buffer.
  destruct (encoding_eqb _ _); destruct (owns_buffer it); reflexivity.
Qed.

Lemma gbDestroyItem_nitems (s : gbServer) (it : gbItem) :
  nitems (stats (gbDestroyItem E s it)) = nitems (stats s) - 1.
Proof.
  unfold gbDestroyItem, zfree_buffer.
  destruct (encoding_eqb _ _); destruct (owns_buffer it); reflexivity.
Qed.

(** Destroying the item of a server whose index is [t]. *)
Lemma destroyed_with_intro (s : gbServer) (it : gbItem) (t : tree_t) :
  destroyed_with s it t
    (gbDestroyItem E (set_tree s t) it,
     gbClientEnqueueCode REPL_ERR_NOT_FOUND false).
Proof.
  unfold destroyed_with. cbn [fst snd].
  rewrite gbDestroyItem_tree, gbDestroyItem_pool, gbDestroyItem_nitems.
  simpl. auto.
Qed.

Lemma tr_find_node_item (t : tree_t) (k : bytes) (it : gbItem) :
  tr_find t k = Some it -> tr_find_node t k = Some (Some it).
Proof.
  unfold tr_find, tr_find_node. destruct (t !! k) as [d|]; [|discriminate].
  now intros ->.
Qed.

(** What [gbCreateItem] makes and leaves: the item, the index as it was,
    one more call in the trace of the pool and one more item in the
    count. *)
Lemma gbCreateItem_spec (s : gbServer) (data : item_data) (size : Z)
    (encoding : gbItemEncoding) (ttl : Z) :
  let r := gbCreateItem E s data size encoding ttl in
  snd r = mkItem data size encoding (time (stats s)) (time (stats s)) ttl 0
  /\ tree (fst r) = tree s
  /\ item_pool (fst r) = opool_alloc_object :: item_pool s
  /\ nitems (stats (fst r)) = nitems (stats s) + 1.
Proof.
  unfold gbCreateItem. cbn zeta.
  repeat match goal with
    | |- context [if ?c then _ else _] => destruct c
    end; cbn; auto.
Qed.

(** *** INC and DEC on an absent key *)

(** C6: INC and DEC on a key that holds no item (no node, or a node
    without data) create the number 1, whatever the delta, bind the key to
    it and reply [REPL_VAL] with it. *)
Theorem incdec_absent_creates_one (s : gbServer) (p : bytes) (kv : parsed_kv)
    (delta : Z) :
  gbParseKeyValue (limits s) p (payload_size p) false = Some kv ->
  tr_find (tree s) (p_key kv) = None ->
  let now := time (stats s) in
  let item := mkItem (DataLong 1) sizeof_long GB_ENC_NUMBER now now (-1) 0 in
  let r := gbQueryIncDecHandler E s p delta in
  snd r = gbClientEnqueueItem REPL_VAL item false
  /\ tree (fst r) = <[p_key kv := Some item]> (tree s)
  /\ item_pool (fst r) = opool_alloc_object :: item_pool s
  /\ nitems (stats (fst r)) = nitems (stats s) + 1.
Proof.
  intros Hparse Hfind now item r. subst r.
  unfold gbQueryIncDecHandler. rewrite Hparse.
  unfold tr_find in Hfind. unfold tr_find_node.
  pose proof (gbCreateItem_spec s (DataLong 1) sizeof_long GB_ENC_NUMBER (-1))
    as (Hitem & Htree & Hpool & Hn).
  destruct (gbCreateItem E s _ _ _ _) as [s' it']. cbn [fst snd] in *.
  subst it'. fold now. fold item.
  destruct (tree s !! p_key kv) as [d|] eqn:Hnode.
  - subst d. cbn. rewrite Htree. auto.
  - cbn. rewrite Htree. auto.
Qed.

(** *** DEL on an expired item *)

(** C8, as the code has it: DEL tests the lock before the expiry.  On an
    expired item that is not locked the reply is [REPL_ERR_NOT_FOUND], the
    item is destroyed and its slot nulled; on an expired item that is
    locked the reply is [REPL_ERR_LOCKED] and nothing changes. *)
Theorem del_expired_lock_first (s : gbServer) (p : bytes) (kv : parsed_kv)
    (it : gbItem) :
  gbParseKeyValue (limits s) p (payload_size p) false = Some kv ->
  tr_find_node (tree s) (p_key kv) = Some (Some it) ->
  expired it (time (stats s)) = true ->
  (~ locked it (time (stats s)) ->
     destroyed_with s it (<[p_key kv := None]> (tree s))
       (gbQueryDelHandler E s p))
  /\ (locked it (time (stats s)) ->
        gbQueryDelHandler E s p
        = (s, gbClientEnqueueCode REPL_ERR_LOCKED false)).
Proof.
  intros Hparse Hnode Hexp. unfold gbQueryDelHandler.
  rewrite Hparse, Hnode. split; intros Hlock.
  - apply gbItemIsLocked_false in Hlock. rewrite Hlock.
    rewrite gbIsNodeStillValid_expired by assumption.
    apply destroyed_with_intro.
  - apply gbItemIsLocked_true in Hlock. now rewrite Hlock.
Qed.

(** *** INC and DEC on a plain item *)

(** C5, as the code has it: INC and DEC on a plain item that is neither
    expired nor locked.  If its bytes read as the number [n], the buffer
    of the item is freed and the item becomes the number [n + delta] (the
    sum of two [long]s, which is [n + delta] wherever that is a [long]),
    of the size of a [long], touched, and the reply is [REPL_VAL] with it.
    If they do not, the reply is [REPL_ERR_NAN], nothing is freed and the
    item keeps its fields but for the time of its last access, which is
    the time of the request. *)
Theorem incdec_plain (s : gbServer) (p : bytes) (kv : parsed_kv)
    (it : gbItem) (delta : Z) :
  gbParseKeyValue (limits s) p (payload_size p) false = Some kv ->
  tr_find_node (tree s) (p_key kv) = Some (Some it) ->
  expired it (time (stats s)) = false ->
  ~ locked it (time (stats s)) ->
  i_encoding it = GB_ENC_PLAIN ->
  let now := time (stats s) in
  let r := gbQueryIncDecHandler E s p delta in
  match gbQueryParseLong (data_bytes (i_data it)) (i_size it) with
  | Some n =>
      let it' :=
        mkItem (DataLong (wrap_long (n + delta))) sizeof_long GB_ENC_NUMBER
          (i_time it) now (i_ttl it) (i_lock it) in
      snd r = gbClientEnqueueItem REPL_VAL it' false
      /\ tree (fst r) = <[p_key kv := Some it']> (tree s)
      /\ heap_freed (fst r) = i_data it :: heap_freed s
      /\ item_pool (fst r) = item_pool s
      /\ (- 2 ^ 63 <= n + delta < 2 ^ 63 -> wrap_long (n + delta) = n + delta)
  | None =>
      snd r = gbClientEnqueueCode REPL_ERR_NAN false
      /\ tree (fst r) = <[p_key kv := Some (set_last_access_time it now)]> (tree s)
      /\ heap_freed (fst r) = heap_freed s
      /\ item_pool (fst r) = item_pool s
      /\ stats (fst r) = stats s
  end.
Proof.
  intros Hparse Hnode Hexp Hlock Henc now r. subst r.
  apply gbItemIsLocked_false in Hlock.
  unfold gbQueryIncDecHandler. rewrite Hparse, Hnode.
  rewrite gbIsNodeStillValid_valid by assumption. simpl negb. cbv iota.
  rewrite Hlock.
  cbn [i_encoding i_data i_size set_last_access_time].
  rewrite Henc. cbn [encoding_eqb].
  destruct (gbQueryParseLong (data_bytes (i_data it)) (i_size it)) as [n|].
  - unfold promote. cbn. repeat split.
    + apply insert_insert_eq.
    + apply wrap_long_id.
  - cbn. auto.
Qed.

(** *** Expiry on access *)

(** C1, as the code has it: a request on the key of an item whose ttl is
    positive and has run out is answered [REPL_ERR_NOT_FOUND], the item
    destroyed and its slot nulled, by GET, UNLOCK, INC, DEC, LOCK, META
    and TTL, and by DEL when the item is not locked; DEL on a locked item
    replies [REPL_ERR_LOCKED] and changes nothing.  SET applies no expiry
    check: whatever request of SET comes through for the key, it replies
    [REPL_ERR_LOCKED] and changes nothing when the item is locked, and
    [REPL_VAL] when it is not.  [p] is a request of a key alone, [pv] one
    of a key and a value, [ps] one of SET.  An item whose ttl is not
    positive passes both validity checks at any time. *)
Theorem expiry_on_access (s : gbServer) (p pv : bytes) (kv kvv : parsed_kv)
    (it it0 : gbItem) (delta : Z) :
  gbParseKeyValue (limits s) p (payload_size p) false = Some kv ->
  gbParseKeyValue (limits s) pv (payload_size pv) true = Some kvv ->
  p_key kvv = p_key kv ->
  tr_find (tree s) (p_key kv) = Some it ->
  0 < i_ttl it ->
  i_ttl it <= time (stats s) - i_time it ->
  i_ttl it0 <= 0 ->
  let nulled := <[p_key kv := None]> (tree s) in
  destroyed_with s it nulled (gbQueryGetHandler E s p)
  /\ destroyed_with s it nulled (gbQueryUnlockHandler E s p)
  /\ destroyed_with s it nulled (gbQueryIncDecHandler E s p delta)
  /\ destroyed_with s it nulled (gbQueryLockHandler E s pv)
  /\ destroyed_with s it nulled (gbQueryMetaHandler E s pv)
  /\ destroyed_with s it nulled (gbQueryTtlHandler E s pv)
  /\ (~ locked it (time (stats s)) ->
        destroyed_with s it nulled (gbQueryDelHandler E s p))
  /\ (locked it (time (stats s)) ->
        gbQueryDelHandler E s p
        = (s, gbClientEnqueueCode REPL_ERR_LOCKED false))
  /\ (forall (ps : bytes) (r : parsed_tkv) (ttl : Z),
        memused (stats s) <= maxmem (limits s) ->
        gbParseTtlKeyValue (limits s) ps (payload_size ps) true = Some r ->
        gbQueryParseLong (p_ttl r) (p_ttllen r) = Some ttl ->
        p_key (p_kv r) = p_key kv ->
        (locked it (time (stats s)) ->
           gbQuerySetHandler E s ps
           = (s, gbClientEnqueueCode REPL_ERR_LOCKED false))
        /\ (~ locked it (time (stats s)) ->
              code_of (snd (gbQuerySetHandler E s ps)) = REPL_VAL))
  /\ (forall now, expired it0 now = false)
  /\ (forall k remove,
        gbIsNodeStillValid E k it0 s remove = (s, true)
        /\ gbIsItemStillValid E it0 s k remove = (s, true)).
Proof.
  intros Hparse Hparsev Hkey Hfind Hpos Hout Hnone nulled.
  assert (Hexp : expired it (time (stats s)) = true)
    by (apply expired_true; auto).
  pose proof (tr_find_node_item _ _ _ Hfind) as Hnode.
  assert (Hgo : destroyed_with s it nulled
                  (gbDestroyItem E (set_tree s nulled) it,
                   gbClientEnqueueCode REPL_ERR_NOT_FOUND false))
    by apply destroyed_with_intro.
  repeat split_and.
  - unfold gbQueryGetHandler. rewrite Hparse, Hnode.
    now rewrite gbIsNodeStillValid_expired.
  - unfold gbQueryUnlockHandler. rewrite Hparse, Hnode.
    now rewrite gbIsNodeStillValid_expired.
  - unfold gbQueryIncDecHandler. rewrite Hparse, Hnode.
    now rewrite gbIsNodeStillValid_expired.
  - unfold gbQueryLockHandler. rewrite Hparsev, Hkey, Hnode.
    now rewrite gbIsNodeStillValid_expired.
  - unfold gbQueryMetaHandler. rewrite Hparsev, Hkey, Hnode.
    now rewrite gbIsNodeStillValid_expired.
  - unfold gbQueryTtlHandler. rewrite Hparsev, Hkey, Hfind.
    rewrite gbIsItemStillValid_expired by assumption.
    now rewrite (tr_remove_item _ _ _ Hfind).
  - intros Hlock. apply gbItemIsLocked_false in Hlock.
    unfold gbQueryDelHandler. rewrite Hparse, Hnode, Hlock.
    now rewrite gbIsNodeStillValid_expired.
  - intros Hlock. apply gbItemIsLocked_true in Hlock.
    unfold gbQueryDelHandler. now rewrite Hparse, Hnode, Hlock.
  - intros ps r ttl Hmem Hps Httl Hk. rewrite <- Hk in Hfind. split.
    + intros Hlock. apply gbItemIsLocked_true in Hlock.
      now apply (set_stops_on_lock s ps r ttl it).
    + intros Hlock. apply gbItemIsLocked_false in Hlock.
      unfold gbQuerySetHandler. apply Z.leb_le in Hmem.
      rewrite Hmem, Hps, Httl, Hfind, Hlock.
      destruct (gbSingleSet E _ _ _ s) as [s' item].
      destruct (0 <? ttl); reflexivity.
  - intros now. now apply expired_false_ttl.
  - intros k remove.
    split; [apply gbIsNodeStillValid_valid | apply gbIsItemStillValid_valid];
      now apply expired_false_ttl.
Qed.

(** *** The limit of MGET *)

(** A value that [gbParseKeyAndOptionalValue] hands back is not empty. *)
Lemma optional_value_not_empty (lim : gbLimits) (p : bytes) (size : Z)
    (kv : parsed_kv) (v : bytes) :
  gbParseKeyAndOptionalValue lim p size true = Some kv ->
  p_value kv = Some v ->
  (p_vlen kv =? 0) = false.
Proof.
  unfold gbParseKeyAndOptionalValue.
  destruct (scan_field p 0 (min size (maxkeysize lim))) as [[key q] j].
  destruct (0 <? wrap_size (size - Z.of_nat (length key)));
    destruct (Z.of_nat (length key) <=? 0); try discriminate.
  - destruct (Z.leb_spec (min (wrap_size (size - Z.of_nat (length key)) - 1)
                            (maxvaluesize lim)) 0) as [Hle|Hgt]; cbn.
    + discriminate.
    + intros [= <-] _. cbn. apply Z.eqb_neq. lia.
  - cbn. intros [= <-]. discriminate.
Qed.

(** *** Memory admission of the bulk operations *)

Lemma reply_found_not_mem (found : Z) :
  code_of (reply_found found) <> REPL_ERR_MEM.
Proof. unfold reply_found. destruct (found =? 0); discriminate. Qed.

Lemma mget_search_not_mem (s : gbServer) (expr : bytes) (exprlen limit : Z) :
  code_of (snd (mget_search E s expr exprlen limit)) <> REPL_ERR_MEM.
Proof.
  unfold mget_search.
  destruct (tr_search E s expr exprlen limit _) as [[found ks] vs].
  destruct (found =? 0); [discriminate|].
  destruct (mget_filter E ks vs s found) as [[s' found'] vs'].
  destruct (found' =? 0); discriminate.
Qed.

(** C3, as the code has it: of the bulk operations MSET alone checks the
    memory in use.  Over the limit it replies [REPL_ERR_MEM] and returns
    the server as it was; MTTL, MDEL, MINC, MDEC and MLOCK (and the other
    bulk operations) never reply [REPL_ERR_MEM]. *)
Theorem mset_alone_checks_memory (s : gbServer) (p : bytes) (op : bulk_op) :
  maxmem (limits s) < memused (stats s) ->
  gbQueryMultiSetHandler E s p = (s, gbClientEnqueueCode REPL_ERR_MEM false)
  /\ (op <> OP_MSET ->
        code_of (snd (gbProcessBulk E op s p)) <> REPL_ERR_MEM).
Proof.
  intros Hmem. split.
  - unfold gbQueryMultiSetHandler.
    destruct (Z.leb_spec (memused (stats s)) (maxmem (limits s)));
      [lia | reflexivity].
  - intros Hop.
    destruct op; try contradiction; cbn [gbProcessBulk];
      unfold gbQueryMultiTtlHandler, gbQueryMultiGetHandler,
        gbQueryMultiDelHandler, gbQueryMultiIncDecHandler,
        gbQueryMultiLockHandler, gbQueryMultiUnlockHandler,
        gbQueryCountHandler, gbQueryKeysHandler.
    + destruct (gbParseKeyValue _ p _ true) as [kv|]; [|discriminate].
      destruct (gbQueryParseLong _ _); [|discriminate].
      destruct (tr_search_callback E s _ _ _ _ _).
      apply reply_found_not_mem.
    + destruct (gbParseKeyAndOptionalValue _ p _ true) as [kv|]; [|discriminate].
      destruct (p_value kv); [destruct (p_vlen kv =? 0)|];
        try apply mget_search_not_mem.
      destruct (gbQueryParseLong _ _); [apply mget_search_not_mem|discriminate].
    + destruct (gbParseKeyValue _ p _ false) as [kv|]; [|discriminate].
      destruct (tr_search_nodes_callback E s _ _ _ _).
      apply reply_found_not_mem.
    + destruct (gbParseKeyValue _ p _ false) as [kv|]; [|discriminate].
      destruct (tr_search_callback E s _ _ _ _ _).
      apply reply_found_not_mem.
    + destruct (gbParseKeyValue _ p _ false) as [kv|]; [|discriminate].
      destruct (tr_search_callback E s _ _ _ _ _).
      apply reply_found_not_mem.
    + destruct (gbParseKeyValue _ p _ true) as [kv|]; [|discriminate].
      destruct (gbQueryParseLong _ _); [|discriminate].
      destruct (tr_search_callback E s _ _ _ _ _).
      apply reply_found_not_mem.
    + destruct (gbParseKeyValue _ p _ false) as [kv|]; [|discriminate].
      destruct (tr_search_callback E s _ _ _ _ _).
      apply reply_found_not_mem.
    + destruct (gbParseKeyValue _ p _ false) as [kv|]; [|discriminate].
      destruct (tr_count E s _ _ _ _ _). discriminate.
    + destruct (gbParseKeyValue _ p _ false) as [kv|]; [|discriminate].
      destruct (tr_search E s _ _ _ _) as [[found ks] vs].
      destruct (found =? 0); [discriminate|].
      destruct (keys_stage ks 0 s) as [[s' mk] mv]. discriminate.
Qed.

(** *** The reply of the bulk operations *)

(** A walk whose callback never answers below zero counts from zero up. *)
Lemma tr_walk_nonneg (cb : gbServer -> bytes -> gbItem -> gbServer * Z) :
  (forall s k it, 0 <= snd (cb s k it)) ->
  forall keys s, 0 <= snd (tr_walk cb keys s).
Proof.
  intros Hcb keys. induction keys as [|key keys IH]; intros s; simpl; [lia|].
  destruct (tr_find (tree s) key) as [it|].
  - specialize (Hcb s key it). destruct (cb s key it) as [s1 r].
    specialize (IH s1). destruct (tr_walk cb keys s1) as [s2 n].
    simpl in *. lia.
  - specialize (IH s). destruct (tr_walk cb keys s) as [s2 n]. simpl in *. lia.
Qed.

Lemma tr_walk_nodes_nonneg (cb : gbServer -> bytes -> slot -> gbServer * Z) :
  (forall s k d, 0 <= snd (cb s k d)) ->
  forall keys s, 0 <= snd (tr_walk_nodes cb keys s).
Proof.
  intros Hcb keys. induction keys as [|key keys IH]; intros s; simpl; [lia|].
  destruct (tr_find_node (tree s) key) as [d|].
  - specialize (Hcb s key d). destruct (cb s key d) as [s1 r].
    specialize (IH s1). destruct (tr_walk_nodes cb keys s1) as [s2 n].
    simpl in *. lia.
  - specialize (IH s). destruct (tr_walk_nodes cb keys s) as [s2 n].
    simpl in *. lia.
Qed.

Local Ltac callback_cases :=
  repeat match goal with
    | |- context [gbItemIsLocked ?it ?s 0] => destruct (gbItemIsLocked it s 0)
    | |- context [gbIsItemStillValid ?E ?it ?s ?k ?r] =>
        destruct (gbIsItemStillValid E it s k r) as [? []]
    | |- context [gbIsNodeStillValid ?E ?k ?it ?s ?r] =>
        destruct (gbIsNodeStillValid E k it s r) as [? []]
    | |- context [encoding_eqb ?a ?b] => destruct (encoding_eqb a b)
    | |- context [gbQueryParseLong ?v ?n] => destruct (gbQueryParseLong v n)
    | |- context [promote ?E ?s ?it ?n ?d] => destruct (promote E s it n d)
    end;
  simpl; lia.

Lemma gbMultiSetCallback_nonneg v vlen s k it :
  0 <= snd (gbMultiSetCallback E v vlen s k it).
Proof. unfold gbMultiSetCallback. callback_cases. Qed.

Lemma gbMultiTtlCallback_nonneg ttl s k it :
  0 <= snd (gbMultiTtlCallback E ttl s k it).
Proof. unfold gbMultiTtlCallback. callback_cases. Qed.

Lemma gbMultiDelCallback_nonneg s k d :
  0 <= snd (gbMultiDelCallback E s k d).
Proof. unfold gbMultiDelCallback. destruct d; [callback_cases | simpl; lia]. Qed.

Lemma gbMultiIncDecCallback_nonneg delta s k it :
  0 <= snd (gbMultiIncDecCallback E delta s k it).
Proof. unfold gbMultiIncDecCallback. callback_cases. Qed.

Lemma gbMultiLockCallback_nonneg locktime s k it :
  0 <= snd (gbMultiLockCallback E locktime s k it).
Proof. unfold gbMultiLockCallback. callback_cases. Qed.

Lemma gbMultiUnlockCallback_nonneg s k it :
  0 <= snd (gbMultiUnlockCallback E s k it).
Proof. unfold gbMultiUnlockCallback. callback_cases. Qed.

Lemma gbCountCallback_nonneg s k it :
  0 <= snd (gbCountCallback E s k it).
Proof. unfold gbCountCallback. callback_cases. Qed.

(** The filter of MGET takes at most one off the count per staged entry. *)
Lemma mget_filter_bounds (m_keys : list bytes) (m_values : list slot)
    (s : gbServer) (found : Z) :
  found - Z.of_nat (length m_keys)
  <= snd (fst (mget_filter E m_keys m_values s found)) <= found.
Proof.
  revert m_values s found.
  induction m_keys as [|ki ks IH]; intros [|vi vs] s found;
    try (simpl; lia).
  cbn [mget_filter].
  destruct vi as [item|].
  - destruct (gbIsItemStillValid E item s (c_str ki) true) as [s1 []].
    + specialize (IH vs (store_item s1 ki
                           (set_last_access_time item (time (stats s1)))) found).
      destruct (mget_filter E ks vs _ found) as [[s2 f2] vs2].
      simpl in *. lia.
    + specialize (IH vs s1 (found - 1)).
      destruct (mget_filter E ks vs s1 (found - 1)) as [[s2 f2] vs2].
      simpl in *. lia.
  - specialize (IH vs s (found - 1)).
    destruct (mget_filter E ks vs s (found - 1)) as [[s2 f2] vs2].
    simpl in *. lia.
Qed.

Lemma reply_found_shape (found : Z) :
  0 <= found ->
  (found = 0 -> reply_found found = not_found_reply)
  /\ (0 < found -> reply_found found = number_reply found).
Proof.
  intros Hpos. unfold reply_found, not_found_reply, number_reply.
  destruct (Z.eqb_spec found 0); split; intros; (reflexivity || lia).
Qed.

(** The handlers that walk with a callback: the server and the count the
    walk leaves decide the outcome. *)
Local Ltac by_walk Hnonneg :=
  match goal with
  | |- context [tr_search_callback ?E ?s ?e ?n ?l ?m ?cb] =>
      let H := fresh "H" in
      pose proof (tr_walk_nonneg cb Hnonneg (tr_matching E (tree s) e n l m) s) as H;
      fold (tr_search_callback E s e n l m cb) in H;
      destruct (tr_search_callback E s e n l m cb) as [? ?];
      cbn in *; intros [= <-];
      split; [exact H | now apply reply_found_shape]
  end.

(** C4, as the code has it: the reply of a bulk handler that reached its
    walk is decided by the count [found] the walk leaves, which is never
    negative.  MSET, MTTL, MDEL, MINC, MDEC, MLOCK and MUNLOCK reply
    [REPL_ERR_NOT_FOUND] for 0 and [REPL_VAL] with the count as a number
    above 0; MGET and KEYS reply [REPL_ERR_NOT_FOUND] for 0 and a key/value
    set of [found] pairs above 0; COUNT always replies [REPL_VAL] with the
    count, 0 included. *)
Theorem bulk_reply_by_total (s : gbServer) (op : bulk_op) (p : bytes)
    (found : Z) :
  walk_total E op s p = Some found ->
  0 <= found
  /\ let r := snd (gbProcessBulk E op s p) in
     match op with
     | OP_COUNT => r = number_reply found
     | OP_MGET | OP_KEYS =>
         (found = 0 -> r = not_found_reply)
         /\ (0 < found -> set_reply found r)
     | _ =>
         (found = 0 -> r = not_found_reply)
         /\ (0 < found -> r = number_reply found)
     end.
Proof.
  destruct op; cbn [walk_total gbProcessBulk];
    unfold gbQueryMultiSetHandler, gbQueryMultiTtlHandler,
      gbQueryMultiGetHandler, gbQueryMultiDelHandler,
      gbQueryMultiIncDecHandler, gbQueryMultiLockHandler,
      gbQueryMultiUnlockHandler, gbQueryCountHandler, gbQueryKeysHandler.
  - (* MSET *)
    destruct (memused (stats s) <=? maxmem (limits s)); [|discriminate].
    destruct (gbParseKeyValue _ p _ true) as [kv|]; [cbn|discriminate].
    by_walk (gbMultiSetCallback_nonneg (default [] (p_value kv)) (p_vlen kv)).
  - (* MTTL *)
    destruct (gbParseKeyValue _ p _ true) as [kv|]; [cbn|discriminate].
    destruct (gbQueryParseLong _ _) as [ttl|]; [cbn|discriminate].
    by_walk (gbMultiTtlCallback_nonneg ttl).
  - (* MGET *)
    destruct (gbParseKeyAndOptionalValue _ p _ true) as [kv|];
      [cbn|discriminate].
    assert (Hsearch : forall limit,
      (let '(n, ks, vs) :=
         tr_search E s (p_key kv) (p_klen kv) limit (maxkeysize (limits s)) in
       Some (if n =? 0 then 0 else snd (fst (mget_filter E ks vs s n))))
      = Some found ->
      0 <= found
      /\ (found = 0 ->
            snd (mget_search E s (p_key kv) (p_klen kv) limit) = not_found_reply)
      /\ (0 < found ->
            set_reply found (snd (mget_search E s (p_key kv) (p_klen kv) limit)))).
    { intros limit. unfold mget_search, tr_search.
      set (ks := tr_matching E (tree s) _ _ _ _).
      set (vs := map (tr_find (tree s)) ks).
      destruct (Z.eqb_spec (Z.of_nat (length ks)) 0) as [Hz|Hnz].
      - intros [= <-]. split; [lia|]. split; [reflexivity | lia].
      - pose proof (mget_filter_bounds ks vs s (Z.of_nat (length ks))) as Hb.
        destruct (mget_filter E ks vs s (Z.of_nat (length ks)))
          as [[s' n] vs'].
        cbn in *. intros [= <-]. split; [lia|].
        destruct (Z.eqb_spec n 0); split; intros; try lia;
          [reflexivity | eexists _, _; reflexivity]. }
    unfold mget_limit.
    destruct (p_value kv) as [v|]; [destruct (p_vlen kv =? 0)|]; cbn;
      try apply Hsearch.
    destruct (gbQueryParseLong v (p_vlen kv)) as [limit|]; cbn;
      [apply Hsearch | discriminate].
  - (* MDEL *)
    destruct (gbParseKeyValue _ p _ false) as [kv|]; [cbn|discriminate].
    pose proof (tr_walk_nodes_nonneg _ gbMultiDelCallback_nonneg
                  (tr_matching E (tree s) (p_key kv) (p_klen kv) (-1)
                     (maxkeysize (limits s))) s) as H.
    fold (tr_search_nodes_callback E s (p_key kv) (p_klen kv)
            (maxkeysize (limits s)) (gbMultiDelCallback E)) in H.
    destruct (tr_search_nodes_callback E s _ _ _ _) as [s' n].
    cbn in *. intros [= <-].
    split; [exact H | now apply reply_found_shape].
  - (* MINC *)
    destruct (gbParseKeyValue _ p _ false) as [kv|]; [cbn|discriminate].
    by_walk (gbMultiIncDecCallback_nonneg 1).
  - (* MDEC *)
    destruct (gbParseKeyValue _ p _ false) as [kv|]; [cbn|discriminate].
    by_walk (gbMultiIncDecCallback_nonneg (-1)).
  - (* MLOCK *)
    destruct (gbParseKeyValue _ p _ true) as [kv|]; [cbn|discriminate].
    destruct (gbQueryParseLong _ _) as [locktime|]; [cbn|discriminate].
    by_walk (gbMultiLockCallback_nonneg locktime).
  - (* MUNLOCK *)
    destruct (gbParseKeyValue _ p _ false) as [kv|]; [cbn|discriminate].
    by_walk gbMultiUnlockCallback_nonneg.
  - (* COUNT *)
    destruct (gbParseKeyValue _ p _ false) as [kv|]; [cbn|discriminate].
    unfold tr_count.
    pose proof (tr_walk_nonneg _ gbCountCallback_nonneg
                  (tr_matching E (tree s) (p_key kv) (p_klen kv) (-1)
                     (maxkeysize (limits s))) s) as H.
    fold (tr_search_callback E s (p_key kv) (p_klen kv) (-1)
            (maxkeysize (limits s)) (gbCountCallback E)) in H.
    destruct (tr_search_callback E s _ _ _ _ _) as [s' n].
    cbn in *. intros [= <-]. split; [exact H | reflexivity].
  - (* KEYS *)
    destruct (gbParseKeyValue _ p _ false) as [kv|]; [cbn|discriminate].
    unfold tr_search.
    set (ks := tr_matching E (tree s) _ _ _ _).
    cbn. intros [= <-]. split; [lia|].
    destruct (Z.eqb_spec (Z.of_nat (length ks)) 0) as [Hz|Hnz].
    + split; [reflexivity | lia].
    + destruct (keys_stage ks 0 s) as [[s' mk] mv]. cbn.
      split; [lia | intros _; eexists _, _; reflexivity].
Qed.

End Properties.

(** ** Runs of the handlers *)

(** C1 at work: GET, TTL and SET on the expired ["foo"], which is not
    locked. *)
Lemma expiry_on_access_witness :
  destroyed_with srv_expired item_expired
    (<[key_foo := None]> (tree srv_expired))
    (gbQueryGetHandler run srv_expired (lit "foo"))
  /\ destroyed_with srv_expired item_expired
       (<[key_foo := None]> (tree srv_expired))
       (gbQueryTtlHandler run srv_expired (lit "foo 60"))
  /\ code_of (snd (gbQuerySetHandler run srv_expired (lit "-1 foo baz")))
     = REPL_VAL.
Proof.
  destruct (expiry_on_access run srv_expired (lit "foo") (lit "foo 60")
              (mkParsedKV key_foo 3 None 0)
              (mkParsedKV key_foo 3 (Some (lit "60")) 2)
              item_expired item_42 1)
    as (Hget & _ & _ & _ & _ & Httl & _ & _ & Hset & _).
  - reflexivity.
  - reflexivity.
  - reflexivity.
  - reflexivity.
  - simpl. lia.
  - simpl. lia.
  - simpl. lia.
  - split; [exact Hget|]. split; [exact Httl|].
    refine (proj2 (Hset (lit "-1 foo baz")
                     (mkParsedTKV (lit "-1") 2
                        (mkParsedKV key_foo 3 (Some (lit "baz")) 3))
                     (-1) _ _ _ _) _).
    + simpl. lia.
    + reflexivity.
    + reflexivity.
    + reflexivity.
    + unfold locked. simpl. lia.
Defined.

(** C1 as stated fails on two handlers: DEL on an expired item that is
    locked replies [REPL_ERR_LOCKED] and leaves the server as it was, and
    SET on an expired item replies [REPL_VAL]. *)
Lemma expiry_on_access_counterexample :
  expired item_expired_locked (time (stats srv_expired_locked)) = true
  /\ tr_find (tree srv_expired_locked) key_foo = Some item_expired_locked
  /\ gbQueryDelHandler run srv_expired_locked (lit "foo")
     = (srv_expired_locked, gbClientEnqueueCode REPL_ERR_LOCKED false)
  /\ expired item_expired (time (stats srv_expired)) = true
  /\ tr_find (tree srv_expired) key_foo = Some item_expired
  /\ code_of (snd (gbQuerySetHandler run srv_expired (lit "-1 foo baz")))
     = REPL_VAL.
Proof. repeat split; vm_compute; reflexivity. Qed.

(** C2 at work: SET on the locked ["foo"]. *)
Lemma set_locked_unchanged_witness :
  locked item_locked (time (stats srv_locked))
  /\ fst (gbQuerySetHandler run srv_locked (lit "-1 foo baz")) = srv_locked.
Proof.
  assert (Hl : locked item_locked (time (stats srv_locked)))
    by (right; simpl; lia).
  split; [exact Hl|].
  refine (proj1 (set_locked_unchanged run srv_locked (lit "-1 foo baz")
                   (mkParsedTKV (lit "-1") 2
                      (mkParsedKV key_foo 3 (Some (lit "baz")) 3))
                   item_locked _ _ Hl)).
  - reflexivity.
  - reflexivity.
Defined.

(** C9 at work: SET on the expired ["foo"], locked for ever. *)
Lemma set_ignores_expiry_witness :
  expired item_expired_locked (time (stats srv_expired_locked)) = true
  /\ gbQuerySetHandler run srv_expired_locked (lit "-1 foo baz")
     = (srv_expired_locked, gbClientEnqueueCode REPL_ERR_LOCKED false).
Proof.
  split; [reflexivity|].
  refine (proj1 (proj1 (set_ignores_expiry run srv_expired_locked
                          (lit "-1 foo baz")
                          (mkParsedTKV (lit "-1") 2
                             (mkParsedKV key_foo 3 (Some (lit "baz")) 3))
                          (-1) item_expired_locked _ _ _ _ _) _)).
  - simpl. lia.
  - reflexivity.
  - reflexivity.
  - reflexivity.
  - reflexivity.
  - left. reflexivity.
Defined.

(** C6 at work: DEC on an empty index. *)
Lemma incdec_absent_creates_one_witness :
  snd (gbQueryIncDecHandler run srv_empty (lit "foo") (-1))
  = gbClientEnqueueItem REPL_VAL
      (mkItem (DataLong 1) sizeof_long GB_ENC_NUMBER 5 5 (-1) 0) false.
Proof.
  refine (proj1 (incdec_absent_creates_one run srv_empty (lit "foo")
                   (mkParsedKV key_foo 3 None 0) (-1) _ _)).
  - reflexivity.
  - reflexivity.
Defined.

(** C8 at work: DEL on the expired ["foo"], which is not locked. *)
Lemma del_expired_lock_first_witness :
  ~ locked item_expired (time (stats srv_expired))
  /\ destroyed_with srv_expired item_expired
       (<[key_foo := None]> (tree srv_expired))
       (gbQueryDelHandler run srv_expired (lit "foo")).
Proof.
  assert (Hl : ~ locked item_expired (time (stats srv_expired)))
    by (unfold locked; simpl; lia).
  split; [exact Hl|].
  refine (proj1 (del_expired_lock_first run srv_expired (lit "foo")
                   (mkParsedKV key_foo 3 None 0) item_expired _ _ _) Hl).
  - reflexivity.
  - reflexivity.
  - reflexivity.
Defined.

(** C8 as stated fails: ["foo"] expired 3 seconds ago and is locked for 5
    more; DEL replies [REPL_ERR_LOCKED], the item stays where it is and is
    not destroyed. *)
Lemma del_expired_counterexample :
  expired item_expired_timelock (time (stats srv_expired_timelock)) = true
  /\ tr_find_node (tree srv_expired_timelock) key_foo
     = Some (Some item_expired_timelock)
  /\ snd (gbQueryDelHandler run srv_expired_timelock (lit "foo"))
     = gbClientEnqueueCode REPL_ERR_LOCKED false
  /\ tree (fst (gbQueryDelHandler run srv_expired_timelock (lit "foo")))
       !! key_foo
     = Some (Some item_expired_timelock)
  /\ item_pool (fst (gbQueryDelHandler run srv_expired_timelock (lit "foo")))
     = [].
Proof. repeat split; vm_compute; reflexivity. Qed.

(** C5 at work: INC on ["foo"] holding the bytes ["42"]. *)
Lemma incdec_plain_witness :
  snd (gbQueryIncDecHandler run srv_42 (lit "foo") 1)
  = gbClientEnqueueItem REPL_VAL
      (mkItem (DataLong 43) sizeof_long GB_ENC_NUMBER 0 5 (-1) 0) false
  /\ heap_freed (fst (gbQueryIncDecHandler run srv_42 (lit "foo") 1))
     = [DataBuf (lit "42")].
Proof.
  refine (let H := incdec_plain run srv_42 (lit "foo")
                     (mkParsedKV key_foo 3 None 0) item_42 1 _ _ _ _ _ in
          conj (proj1 H) (proj1 (proj2 (proj2 H)))).
  - reflexivity.
  - reflexivity.
  - reflexivity.
  - unfold locked. simpl. lia.
  - reflexivity.
Defined.

(** C5 as stated fails: INC on ["foo"] holding the bytes ["abc"] replies
    [REPL_ERR_NAN], and the item the key holds afterwards is not the one
    it held: it was last accessed at 5 instead of 0. *)
Lemma incdec_plain_counterexample :
  tr_find_node (tree srv_abc) key_foo = Some (Some item_abc)
  /\ gbQueryParseLong (data_bytes (i_data item_abc)) (i_size item_abc) = None
  /\ snd (gbQueryIncDecHandler run srv_abc (lit "foo") 1)
     = gbClientEnqueueCode REPL_ERR_NAN false
  /\ tree (fst (gbQueryIncDecHandler run srv_abc (lit "foo") 1)) !! key_foo
     = Some (Some (set_last_access_time item_abc 5))
  /\ set_last_access_time item_abc 5 <> item_abc.
Proof. repeat split; try (vm_compute; reflexivity). discriminate. Qed.

(** C3 at work: MSET over the memory limit. *)
Lemma mset_alone_checks_memory_witness :
  maxmem (limits srv_over) < memused (stats srv_over)
  /\ gbQueryMultiSetHandler run srv_over (lit "a/* v")
     = (srv_over, gbClientEnqueueCode REPL_ERR_MEM false).
Proof.
  assert (Hm : maxmem (limits srv_over) < memused (stats srv_over))
    by (simpl; lia).
  split; [exact Hm|].
  exact (proj1 (mset_alone_checks_memory run srv_over (lit "a/* v") OP_MTTL Hm)).
Defined.

(** C3 as stated fails: over the memory limit MTTL goes through, replies
    [REPL_VAL] with the count 2 and has set the ttl of ["a/1"]. *)
Lemma bulk_memory_counterexample :
  maxmem (limits srv_over) < memused (stats srv_over)
  /\ snd (gbQueryMultiTtlHandler run srv_over (lit "a/* 7")) = number_reply 2
  /\ tree (fst (gbQueryMultiTtlHandler run srv_over (lit "a/* 7"))) !! lit "a/1"
     = Some (Some (mkItem (DataBuf (lit "x")) 1 GB_ENC_PLAIN 5 5 7 0))
  /\ tree srv_over !! lit "a/1" = Some (Some (plain_item "x" (-1) 0)).
Proof. repeat split; vm_compute; reflexivity. Qed.

(** C4 at work: MGET of two keys. *)
Lemma bulk_reply_by_total_witness :
  walk_total run OP_MGET srv_three (lit "a/*") = Some 2
  /\ set_reply 2 (snd (gbProcessBulk run OP_MGET srv_three (lit "a/*"))).
Proof.
  assert (Hw : walk_total run OP_MGET srv_three (lit "a/*") = Some 2)
    by (vm_compute; reflexivity).
  split; [exact Hw|].
  refine (proj2 (proj2 (bulk_reply_by_total run srv_three OP_MGET (lit "a/*") 2
                          Hw)) _).
  lia.
Defined.

(** C4 as stated fails on COUNT: a pattern that matches no key leaves a
    count of 0, and the reply is [REPL_VAL] with the number 0. *)
Lemma count_zero_counterexample :
  walk_total run OP_COUNT srv_three (lit "zz*") = Some 0
  /\ snd (gbProcessBulk run OP_COUNT srv_three (lit "zz*")) = number_reply 0
  /\ number_reply 0 <> not_found_reply.
Proof. repeat split; try (vm_compute; reflexivity). discriminate. Qed.

(** * Further properties of the query layer *)

(** ** The field scanner *)

(** What the scan of a field returns: the field and what follows make up
    the bytes scanned, the field holds no space and is not longer than the
    counter allows, the counter has moved by its length and one, and the
    scan stopped on a space, at the bound or at the end of the bytes. *)
Lemma scan_field_spec (p : bytes) (i e : Z) :
  let '(tok, q, j) := scan_field p i e in
  p = tok ++ q
  /\ (SP ∉ tok)
  /\ Z.of_nat (length tok) <= Z.max 0 (e - i)
  /\ j = i + Z.of_nat (length tok) + 1
  /\ (q = [] \/ (exists q', q = SP :: q') \/ e <= i + Z.of_nat (length tok)).
Proof.
  revert i. induction p as [|c p IH]; intros i; cbn [scan_field].
  - repeat split; auto; [set_solver | simpl; lia | simpl; lia].
  - destruct (Z.ltb_spec i e) as [Hlt|Hge].
    + destruct (byte_eqb c SP) eqn:Hc.
      * apply Ascii.eqb_eq in Hc. subst c.
        repeat split; eauto; [set_solver | simpl; lia | simpl; lia].
      * specialize (IH (i + 1)).
        destruct (scan_field p (i + 1) e) as [[tok q] j].
        destruct IH as (Hp & Hsp & Hlen & Hj & Hstop).
        assert (Hne : c <> SP)
          by (intros ->; unfold byte_eqb in Hc; rewrite Ascii.eqb_refl in Hc;
              discriminate).
        repeat split.
        -- simpl. now rewrite Hp at 1.
        -- intros [Heq|Hin]%elem_of_cons; [congruence | exact (Hsp Hin)].
        -- simpl length. lia.
        -- simpl length. lia.
        -- destruct Hstop as [?|[?|?]]; auto. right. right. simpl length. lia.
    + repeat split; auto; [set_solver | simpl; lia | simpl; lia |].
      right. right. simpl. lia.
Qed.

Lemma min_le_l (a b : Z) : min a b <= a.
Proof. unfold min. destruct (Z.ltb_spec a b); lia. Qed.

Lemma min_le_r (a b : Z) : min a b <= b.
Proof. unfold min. destruct (Z.ltb_spec a b); lia. Qed.

Lemma wrap_size_small (z : Z) : 0 <= z < 2 ^ 64 -> wrap_size z = z.
Proof. intros H. unfold wrap_size. now apply Z.mod_small. Qed.

(** ** The key of a request *)

(** The key that [gbParseKeyValue] hands back is what the request starts
    with, up to the first space or to [maxkeysize] bytes: it is a prefix of
    the payload without a space, neither empty nor longer than
    [maxkeysize], and it stops at a space, at the end of the payload or at
    [maxkeysize]. *)
Theorem gbParseKeyValue_key (lim : gbLimits) (p : bytes) (want_value : bool)
    (kv : parsed_kv) :
  gbParseKeyValue lim p (payload_size p) want_value = Some kv ->
  p_key kv `prefix_of` p
  /\ (SP ∉ p_key kv)
  /\ p_klen kv = Z.of_nat (length (p_key kv))
  /\ 0 < p_klen kv <= maxkeysize lim
  /\ (p_klen kv = min (payload_size p) (maxkeysize lim)
      \/ p !! length (p_key kv) = Some SP).
Proof.
  unfold gbParseKeyValue, payload_size.
  pose proof (scan_field_spec p 0
                (min (Z.of_nat (length p)) (maxkeysize lim))) as Hscan.
  pose proof (min_le_l (Z.of_nat (length p)) (maxkeysize lim)).
  pose proof (min_le_r (Z.of_nat (length p)) (maxkeysize lim)).
  destruct (scan_field p 0 _) as [[key q] j].
  destruct Hscan as (Hp & Hsp & Hlen & _ & Hstop).
  assert (Hres : 0 < Z.of_nat (length key) ->
                 p_key kv = key -> p_klen kv = Z.of_nat (length key) ->
                 p_key kv `prefix_of` p
                 /\ (SP ∉ p_key kv)
                 /\ p_klen kv = Z.of_nat (length (p_key kv))
                 /\ 0 < p_klen kv <= maxkeysize lim
                 /\ (p_klen kv = min (Z.of_nat (length p)) (maxkeysize lim)
                     \/ p !! length (p_key kv) = Some SP)).
  { intros Hpos -> ->. repeat split; auto; try lia.
    - now exists q.
    - destruct Hstop as [->|[[q' ->]|Hend]].
      + left. rewrite app_nil_r in Hp. subst p. lia.
      + right. rewrite Hp. rewrite lookup_app_r by lia.
        now rewrite Nat.sub_diag.
      + left. lia. }
  destruct want_value; cbv beta iota zeta;
    (destruct (Z.leb_spec (Z.of_nat (length key)) 0) as [|Hpos];
     [discriminate|]); cbn [andb].
  - destruct (_ <=? 0); [discriminate|]. intros [= <-]. now apply Hres.
  - intros [= <-]. now apply Hres.
Qed.

(** ** The value of a request *)

(** The length [gbParseKeyValue] gives for the value is that of the bytes
    behind the separator, cut to [maxvaluesize], as long as there is a
    separator.  A request that ends with its key is not refused: the
    difference of sizes wraps, and the value is said to have
    [maxvaluesize] bytes where the request holds none. *)
Theorem gbParseKeyValue_value (lim : gbLimits) (p : bytes) (kv : parsed_kv) :
  payload_size p < 2 ^ 64 ->
  maxvaluesize lim < 2 ^ 64 ->
  gbParseKeyValue lim p (payload_size p) true = Some kv ->
  exists v,
    p_value kv = Some v
    /\ ((p = p_key kv /\ v = [] /\ p_vlen kv = maxvaluesize lim)
        \/ (exists c, p = p_key kv ++ c :: v
                      /\ p_vlen kv = min (Z.of_nat (length v)) (maxvaluesize lim)
                      /\ 0 < p_vlen kv)).
Proof.
  unfold gbParseKeyValue, payload_size. intros Hsize Hmax.
  pose proof (scan_field_spec p 0
                (min (Z.of_nat (length p)) (maxkeysize lim))) as Hscan.
  destruct (scan_field p 0 _) as [[key q] j].
  destruct Hscan as (Hp & _).
  cbv beta iota zeta.
  destruct (Z.leb_spec (Z.of_nat (length key)) 0) as [|Hpos]; [discriminate|].
  cbn [andb].
  destruct (Z.leb_spec
              (min (wrap_size (Z.of_nat (length p) - Z.of_nat (length key) - 1))
                 (maxvaluesize lim)) 0) as [|Hv]; [discriminate|].
  intros [= <-]. cbn. exists (tail q). split; [reflexivity|].
  assert (Hlen : length p = (length key + length q)%nat)
    by (rewrite Hp at 1; apply length_app).
  destruct q as [|c v].
  - left. rewrite app_nil_r in Hp. repeat split; auto.
    replace (Z.of_nat (length p) - Z.of_nat (length key) - 1) with (-1)
      by (simpl in Hlen; lia).
    change (wrap_size (-1)) with (2 ^ 64 - 1).
    unfold min. destruct (Z.ltb_spec (2 ^ 64 - 1) (maxvaluesize lim)); lia.
  - right. exists c. cbn [tail]. simpl length in Hlen.
    replace (Z.of_nat (length p) - Z.of_nat (length key) - 1)
      with (Z.of_nat (length v)) in * by lia.
    rewrite wrap_size_small in * by lia. auto.
Qed.

(** [gbParseKeyAndOptionalValue] tests what is left before it takes one
    off: the value it hands back lies within the request. *)
Theorem gbParseKeyAndOptionalValue_in_bounds (lim : gbLimits) (p : bytes)
    (kv : parsed_kv) :
  payload_size p < 2 ^ 64 ->
  gbParseKeyAndOptionalValue lim p (payload_size p) true = Some kv ->
  match p_value kv with
  | None => p = p_key kv /\ p_vlen kv = 0
  | Some v =>
      exists c, p = p_key kv ++ c :: v
                /\ 0 < p_vlen kv <= Z.of_nat (length v)
                /\ p_vlen kv <= maxvaluesize lim
  end.
Proof.
  unfold gbParseKeyAndOptionalValue, payload_size. intros Hsize.
  pose proof (scan_field_spec p 0
                (min (Z.of_nat (length p)) (maxkeysize lim))) as Hscan.
  destruct (scan_field p 0 _) as [[key q] j].
  destruct Hscan as (Hp & _).
  assert (Hlen : length p = (length key + length q)%nat)
    by (rewrite Hp at 1; apply length_app).
  cbv beta iota zeta. rewrite wrap_size_small by lia.
  destruct (Z.ltb_spec 0 (Z.of_nat (length p) - Z.of_nat (length key)))
    as [Hleft|Hleft];
    destruct (Z.leb_spec (Z.of_nat (length key)) 0) as [|Hpos];
    try discriminate; cbn.
  - destruct (Z.leb_spec
                (min (Z.of_nat (length p) - Z.of_nat (length key) - 1)
                   (maxvaluesize lim)) 0) as [|Hv]; [discriminate|].
    intros [= <-]. cbn.
    destruct q as [|c v]; [simpl in Hlen; lia|].
    exists c. cbn [tail]. simpl length in Hlen.
    pose proof (min_le_l (Z.of_nat (length p) - Z.of_nat (length key) - 1)
                  (maxvaluesize lim)).
    pose proof (min_le_r (Z.of_nat (length p) - Z.of_nat (length key) - 1)
                  (maxvaluesize lim)).
    repeat split; auto; lia.
  - intros [= <-]. cbn. split; [|reflexivity].
    destruct q; [now rewrite app_nil_r in Hp | simpl in Hlen; lia].
Qed.

(** ** The fields of SET *)

(** A request that [gbParseTtlKeyValue] accepts starts with the ttl, a
    space and the key.  The counter is not reset between the two fields:
    together with the space they fit in [maxkeysize] bytes, so the key of
    a SET is cut sooner than the key of the other requests. *)
Theorem gbParseTtlKeyValue_fields (lim : gbLimits) (p : bytes)
    (want_value : bool) (r : parsed_tkv) :
  gbParseTtlKeyValue lim p (payload_size p) want_value = Some r ->
  (exists rest, p = p_ttl r ++ SP :: p_key (p_kv r) ++ rest)
  /\ (SP ∉ p_ttl r) /\ (SP ∉ p_key (p_kv r))
  /\ 0 < p_ttllen r /\ 0 < p_klen (p_kv r)
  /\ p_ttllen r + 1 + p_klen (p_kv r) <= maxkeysize lim.
Proof.
  unfold gbParseTtlKeyValue, payload_size.
  set (e := min (Z.of_nat (length p)) (maxkeysize lim)).
  pose proof (min_le_r (Z.of_nat (length p)) (maxkeysize lim)) as He.
  fold e in He.
  pose proof (scan_field_spec p 0 e) as H1.
  destruct (scan_field p 0 e) as [[ttl q1] j1].
  destruct H1 as (Hp1 & Hsp1 & Hlen1 & Hj1 & Hstop1).
  pose proof (scan_field_spec (tail q1) j1 e) as H2.
  destruct (scan_field (tail q1) j1 e) as [[key q2] j2].
  destruct H2 as (Hp2 & Hsp2 & Hlen2 & _ & _).
  assert (Hres : 0 < Z.of_nat (length key) ->
                 (exists rest, p = ttl ++ SP :: key ++ rest)
                 /\ Z.of_nat (length ttl) + 1 + Z.of_nat (length key)
                    <= maxkeysize lim).
  { intros Hpos2. split; [|lia].
    destruct Hstop1 as [->|[[q' ->]|Hend]].
    - destruct key; [simpl in Hpos2; lia | discriminate].
    - exists q2. cbn [tail] in Hp2. now rewrite Hp1, Hp2.
    - lia. }
  destruct want_value; cbv beta iota zeta;
    (destruct (Z.leb_spec (Z.of_nat (length ttl)) 0) as [|Hpos1];
     [discriminate|]);
    (destruct (Z.leb_spec (Z.of_nat (length key)) 0) as [|Hpos2];
     [discriminate|]);
    destruct (Hres Hpos2) as [Hrest Hbound]; cbn [andb].
  - destruct (_ <=? 0); [discriminate|]. intros [= <-]. cbn. auto 10.
  - intros [= <-]. cbn. auto 10.
Qed.

(** ** Reading decimal numbers *)

(** The accumulator of the conversion of the library only grows. *)
Lemma of_uint_acc_le (d : Decimal.uint) (acc : positive) :
  (acc <= Pos.of_uint_acc d acc)%positive.
Proof.
  revert acc. induction d; intros acc; simpl; try reflexivity;
    (eapply Pos.le_trans; [|apply IHd]); lia.
Qed.

(** The digit loop, run on the digits of the library, computes what the
    library reads from them, as long as that fits a [long]. *)
Lemma parse_digits_of_uint (d : Decimal.uint) (acc : positive) :
  Z.pos (Pos.of_uint_acc d acc) < 2 ^ 63 ->
  parse_digits (lit (DecimalString.NilEmpty.string_of_uint d)) (Z.pos acc)
  = Some (Z.pos (Pos.of_uint_acc d acc)).
Proof.
  revert acc.
  induction d; intros acc Hfit; cbn [DecimalString.NilEmpty.string_of_uint
    lit list_ascii_of_string parse_digits Pos.of_uint_acc] in *;
    try reflexivity;
    match goal with
    | |- context [is_digit ?c] => change (is_digit c) with true; cbv iota
    end;
    match goal with
    | |- context [byte_val ?c - byte_val CH_0] =>
        let v := eval vm_compute in (byte_val c - byte_val CH_0) in
        change (byte_val c - byte_val CH_0) with v
    end;
    match type of Hfit with
    | Z.pos (Pos.of_uint_acc d ?a) < _ =>
        pose proof (of_uint_acc_le d a) as Hle;
        rewrite wrap_long_id by lia;
        rewrite <- (IHd a Hfit); f_equal; lia
    end.
Qed.

(** The digits of a positive number do not start with a zero. *)
Lemma to_uint_head (n : positive) :
  match Pos.to_uint n with
  | Decimal.Nil | Decimal.D0 _ => False
  | _ => True
  end.
Proof.
  pose proof (DecimalPos.Unsigned.to_of (Pos.to_uint n)) as Hnorm.
  rewrite DecimalPos.Unsigned.of_to in Hnorm. simpl in Hnorm.
  pose proof (DecimalPos.Unsigned.to_uint_nonzero n) as Hnz.
  pose proof (DecimalPos.Unsigned.to_uint_nonnil n) as Hnn.
  destruct (Pos.to_uint n) as [|d| | | | | | | | |]; try exact I.
  - now apply Hnn.
  - rewrite DecimalFacts.unorm_D0 in Hnorm.
    destruct d as [|d|d|d|d|d|d|d|d|d|d]; [now apply Hnz|..];
    match type of Hnorm with
    | _ = Decimal.unorm ?u =>
        assert (Hn : u <> Decimal.Nil) by discriminate;
        apply DecimalFacts.nb_digits_unorm in Hn;
        rewrite <- Hnorm in Hn; simpl in Hn; lia
    end.
Qed.

(** Printing then parsing: [gbQueryParseLong] reads the decimal digits of
    every positive number that a [long] holds as that number, and the
    digits behind a minus sign as its opposite. *)
Theorem gbQueryParseLong_decimal (n : positive) :
  Z.pos n < 2 ^ 63 ->
  gbQueryParseLong (decimal n) (Z.of_nat (length (decimal n)))
  = Some (Z.pos n)
  /\ gbQueryParseLong (CH_MINUS :: decimal n)
       (Z.of_nat (length (CH_MINUS :: decimal n)))
     = Some (Z.neg n).
Proof.
  intros Hfit. unfold gbQueryParseLong. rewrite !take_all.
  change (byte_eqb CH_MINUS CH_0) with false.
  change (byte_eqb CH_MINUS CH_MINUS) with true. cbv iota.
  pose proof (to_uint_head n) as Hhead.
  pose proof (DecimalPos.Unsigned.of_to n) as Hof.
  unfold decimal.
  destruct (Pos.to_uint n) as [|d|d|d|d|d|d|d|d|d|d]; try contradiction;
    cbn [DecimalString.NilEmpty.string_of_uint lit list_ascii_of_string];
    match goal with
    | |- context [byte_eqb ?c CH_0] =>
        change (byte_eqb c CH_0) with false;
        change (byte_eqb c CH_MINUS) with false
    end; cbv iota;
    cbn [Pos.of_uint] in Hof; injection Hof as Hof;
    cbn [parse_digits];
    match goal with
    | |- context [is_digit ?c] => change (is_digit c) with true; cbv iota
    end;
    match goal with
    | |- context [wrap_long (0 * 10 + ?v)] =>
        let w := eval vm_compute in (wrap_long (0 * 10 + v)) in
        change (wrap_long (0 * 10 + v)) with w
    end;
    fold (lit (DecimalString.NilEmpty.string_of_uint d));
    rewrite parse_digits_of_uint by (rewrite Hof; exact Hfit);
    rewrite Hof; cbn [fmap option_fmap option_map];
    (split; f_equal; rewrite wrap_long_id by lia; lia).
Qed.

Section Composition.

Variable E : collaborators.

(** ** What creation and destruction leave alone *)

Lemma gbCreateItem_frame (s : gbServer) (data : item_data) (size : Z)
    (encoding : gbItemEncoding) (ttl : Z) :
  let r := gbCreateItem E s data size encoding ttl in
  time (stats (fst r)) = time (stats s)
  /\ limits (fst r) = limits s
  /\ compression (fst r) = compression s
  /\ requests (stats (fst r)) = requests (stats s).
Proof.
  unfold gbCreateItem. cbn zeta.
  repeat match goal with
    | |- context [if ?c then _ else _] => destruct c
    end; cbn; auto.
Qed.

Lemma gbDestroyItem_frame (s : gbServer) (it : gbItem) :
  time (stats (gbDestroyItem E s it)) = time (stats s)
  /\ limits (gbDestroyItem E s it) = limits s
  /\ compression (gbDestroyItem E s it) = compression s
  /\ requests (stats (gbDestroyItem E s it)) = requests (stats s).
Proof.
  unfold gbDestroyItem, zfree_buffer.
  destruct (encoding_eqb _ _); destruct (owns_buffer it); cbn; auto.
Qed.

(** What [gbSingleSet] leaves: the key bound to the new item, which is
    created now, without expiry and unlocked; the item the key held, if
    any, destroyed; one item more in the count only if there was none. *)
Lemma gbSingleSet_spec (v : bytes) (vlen : Z) (k : bytes) (s : gbServer) :
  let r := gbSingleSet E v vlen k s in
  let now := time (stats s) in
  tree (fst r) = <[k := Some (snd r)]> (tree s)
  /\ time (stats (fst r)) = now
  /\ limits (fst r) = limits s
  /\ i_time (snd r) = now /\ i_last_access_time (snd r) = now
  /\ i_ttl (snd r) = -1 /\ i_lock (snd r) = 0
  /\ nitems (stats (fst r))
     = nitems (stats s)
       + match tr_find (tree s) k with Some _ => 0 | None => 1 end
  /\ item_pool (fst r)
     = match tr_find (tree s) k with
       | Some old => [opool_free_object old; opool_alloc_object]
       | None => [opool_alloc_object]
       end ++ item_pool s
  /\ (vlen <= compression s ->
      i_data (snd r) = DataBuf (zmemdup v vlen)
      /\ i_encoding (snd r) = GB_ENC_PLAIN /\ i_size (snd r) = vlen).
Proof.
  unfold gbSingleSet. cbn zeta.
  set (pre := if compression s <? vlen then _ else _).
  assert (Hpre : exists s0 enc data n,
             pre = (s0, enc, data, n)
             /\ tree s0 = tree s /\ time (stats s0) = time (stats s)
             /\ limits s0 = limits s /\ nitems (stats s0) = nitems (stats s)
             /\ item_pool s0 = item_pool s
             /\ (vlen <= compression s ->
                 data = zmemdup v vlen /\ enc = GB_ENC_PLAIN /\ n = vlen)).
  { subst pre. destruct (Z.ltb_spec (compression s) vlen) as [Hc|Hc].
    - destruct (Z.of_nat (length (lzf_compress E v vlen _)) =? 0).
      + eexists _, _, _, _. split; [reflexivity|]. repeat split; auto; lia.
      + destruct (Qeq_bool _ _);
          (eexists _, _, _, _; split; [reflexivity|]; repeat split; auto; lia).
    - eexists _, _, _, _. split; [reflexivity|]. repeat split; auto. }
  destruct Hpre as (s0 & enc & data & n & -> & Ht & Htime & Hlim & Hn & Hpool & Hplain).
  pose proof (gbCreateItem_spec E s0 (DataBuf data) n enc (-1))
    as (Hitem & Htree1 & Hpool1 & Hn1).
  pose proof (gbCreateItem_frame s0 (DataBuf data) n enc (-1))
    as (Htime1 & Hlim1 & _).
  destruct (gbCreateItem E s0 _ _ _ _) as [s1 item]. cbn [fst snd] in *.
  unfold tr_insert. rewrite Htree1, Ht.
  destruct (tr_find (tree s) k) as [old|] eqn:Hold; cbn [fst snd].
  - rewrite gbDestroyItem_tree, gbDestroyItem_pool, gbDestroyItem_nitems.
    destruct (gbDestroyItem_frame
                (set_tree s1 (<[k:=Some item]> (tree s))) old)
      as (Htime2 & Hlim2 & _).
    rewrite Htime2, Hlim2. cbn. subst item. cbn.
    rewrite Hpool1, Hpool.
    repeat split; auto; try congruence; try lia;
      match goal with
      | Hs : vlen <= _ |- _ =>
          destruct (Hplain Hs) as (-> & -> & ->); reflexivity
      end.
  - cbn. subst item. cbn.
    rewrite Hpool1, Hpool.
    repeat split; auto; try congruence; try lia;
      match goal with
      | Hs : vlen <= _ |- _ =>
          destruct (Hplain Hs) as (-> & -> & ->); reflexivity
      end.
Qed.

(** ** SET *)

(** What a SET that is let through leaves. *)
Lemma set_handler_stores (s : gbServer) (p : bytes) (r : parsed_tkv)
    (ttl : Z) :
  memused (stats s) <= maxmem (limits s) ->
  gbParseTtlKeyValue (limits s) p (payload_size p) true = Some r ->
  gbQueryParseLong (p_ttl r) (p_ttllen r) = Some ttl ->
  (forall it, tr_find (tree s) (p_key (p_kv r)) = Some it ->
              ~ locked it (time (stats s))) ->
  let k := p_key (p_kv r) in
  let now := time (stats s) in
  let out := gbQuerySetHandler E s p in
  exists item,
    snd out = gbClientEnqueueItem REPL_VAL item false
    /\ tree (fst out) = <[k := Some item]> (tree s)
    /\ time (stats (fst out)) = now
    /\ limits (fst out) = limits s
    /\ i_time item = now /\ i_last_access_time item = now
    /\ i_lock item = 0
    /\ i_ttl item = (if 0 <? ttl then min (maxitemttl (limits s)) ttl else -1)
    /\ nitems (stats (fst out))
       = nitems (stats s)
         + match tr_find (tree s) k with Some _ => 0 | None => 1 end
    /\ item_pool (fst out)
       = match tr_find (tree s) k with
         | Some old => [opool_free_object old; opool_alloc_object]
         | None => [opool_alloc_object]
         end ++ item_pool s
    /\ (p_vlen (p_kv r) <= compression s ->
        i_data item
        = DataBuf (zmemdup (default [] (p_value (p_kv r))) (p_vlen (p_kv r)))
        /\ i_encoding item = GB_ENC_PLAIN
        /\ i_size item = p_vlen (p_kv r)).
Proof.
  intros Hmem Hparse Httl Hfree k now out. subst out.
  unfold gbQuerySetHandler. apply Z.leb_le in Hmem.
  rewrite Hmem, Hparse, Httl. fold k.
  pose proof (gbSingleSet_spec (default [] (p_value (p_kv r)))
                (p_vlen (p_kv r)) k s)
    as (Ht & Htime & Hlim & Hit & Hia & Httl0 & Hlock & Hn & Hpool & Hdata).
  assert (Hgo :
    match tr_find (tree s) k with
    | Some item =>
        if gbItemIsLocked item s 0
        then (s, gbClientEnqueueCode REPL_ERR_LOCKED false)
        else
          (fun _ : unit =>
             let '(s0, item0) :=
               gbSingleSet E (default [] (p_value (p_kv r))) (p_vlen (p_kv r)) k s in
             if 0 <? ttl
             then
               (store_item s0 k
                  (set_ttl (set_time item0 (time (stats s0)))
                     (min (maxitemttl (limits s0)) ttl)),
                gbClientEnqueueItem REPL_VAL
                  (set_ttl (set_time item0 (time (stats s0)))
                     (min (maxitemttl (limits s0)) ttl)) false)
             else (s0, gbClientEnqueueItem REPL_VAL item0 false)) ()
    | None =>
        (fun _ : unit =>
           let '(s0, item0) :=
             gbSingleSet E (default [] (p_value (p_kv r))) (p_vlen (p_kv r)) k s in
           if 0 <? ttl
           then
             (store_item s0 k
                (set_ttl (set_time item0 (time (stats s0)))
                   (min (maxitemttl (limits s0)) ttl)),
              gbClientEnqueueItem REPL_VAL
                (set_ttl (set_time item0 (time (stats s0)))
                   (min (maxitemttl (limits s0)) ttl)) false)
           else (s0, gbClientEnqueueItem REPL_VAL item0 false)) ()
    end
    = (let '(s0, item0) :=
         gbSingleSet E (default [] (p_value (p_kv r))) (p_vlen (p_kv r)) k s in
       if 0 <? ttl
       then
         (store_item s0 k
            (set_ttl (set_time item0 (time (stats s0)))
               (min (maxitemttl (limits s0)) ttl)),
          gbClientEnqueueItem REPL_VAL
            (set_ttl (set_time item0 (time (stats s0)))
               (min (maxitemttl (limits s0)) ttl)) false)
       else (s0, gbClientEnqueueItem REPL_VAL item0 false))).
  { destruct (tr_find (tree s) k) as [it|] eqn:Hfind; [|reflexivity].
    specialize (Hfree it Hfind). apply gbItemIsLocked_false in Hfree.
    now rewrite Hfree. }
  cbv zeta in Hgo |- *. rewrite Hgo. clear Hgo.
  destruct (gbSingleSet E _ _ k s) as [s0 item0]. cbn [fst snd] in *.
  destruct (0 <? ttl); cbn [fst snd].
  - eexists. split; [reflexivity|]. cbn.
    rewrite Ht, Htime, Hlim. unfold set_node_data. rewrite insert_insert_eq.
    repeat split; auto;
      match goal with
      | Hs : p_vlen _ <= _ |- _ => now destruct (Hdata Hs) as (? & ? & ?)
      end.
  - exists item0. repeat split; auto;
      match goal with
      | Hs : p_vlen _ <= _ |- _ => now destruct (Hdata Hs) as (? & ? & ?)
      end.
Qed.

(** GET on a key that holds an item. *)
Lemma get_of_item (s : gbServer) (g : bytes) (kvg : parsed_kv) (it : gbItem) :
  gbParseKeyValue (limits s) g (payload_size g) false = Some kvg ->
  tree s !! p_key kvg = Some (Some it) ->
  gbQueryGetHandler E s g
  = if expired it (time (stats s))
    then (gbDestroyItem E (set_tree s (<[p_key kvg := None]> (tree s))) it,
          gbClientEnqueueCode REPL_ERR_NOT_FOUND false)
    else (store_item s (p_key kvg) (set_last_access_time it (time (stats s))),
          gbClientEnqueueItem REPL_VAL
            (set_last_access_time it (time (stats s))) false).
Proof.
  intros Hparse Hnode. unfold gbQueryGetHandler, tr_find_node.
  rewrite Hparse, Hnode. unfold gbIsNodeStillValid.
  destruct (expired it (time (stats s))); reflexivity.
Qed.

Lemma touch_same (it : gbItem) :
  set_last_access_time it (i_last_access_time it) = it.
Proof. now destruct it. Qed.

(** SET then GET: once a SET whose value lies within the request has
    been let through, a GET of the same key at the same reading of the
    clock replies [REPL_VAL] with the very item that SET replied with;
    below the compression threshold that item holds, as plain bytes, the
    first [vlen] bytes of the value, which the request holds. *)
Theorem set_then_get (s : gbServer) (p g : bytes) (r : parsed_tkv)
    (kvg : parsed_kv) (ttl : Z) :
  memused (stats s) <= maxmem (limits s) ->
  gbParseTtlKeyValue (limits s) p (payload_size p) true = Some r ->
  value_in_request (p_kv r) ->
  gbQueryParseLong (p_ttl r) (p_ttllen r) = Some ttl ->
  (forall it, tr_find (tree s) (p_key (p_kv r)) = Some it ->
              ~ locked it (time (stats s))) ->
  gbParseKeyValue (limits s) g (payload_size g) false = Some kvg ->
  p_key kvg = p_key (p_kv r) ->
  exists item,
    snd (gbQuerySetHandler E s p) = gbClientEnqueueItem REPL_VAL item false
    /\ snd (gbQueryGetHandler E (fst (gbQuerySetHandler E s p)) g)
       = gbClientEnqueueItem REPL_VAL item false
    /\ (p_vlen (p_kv r) <= compression s ->
        i_data item
        = DataBuf (zmemdup (default [] (p_value (p_kv r))) (p_vlen (p_kv r)))
        /\ i_encoding item = GB_ENC_PLAIN
        /\ i_size item = p_vlen (p_kv r)
        /\ Z.of_nat (length (data_bytes (i_data item))) = p_vlen (p_kv r)).
Proof.
  intros Hmem Hparse Hin Httl Hfree Hg Hkey.
  destruct (set_handler_stores s p r ttl Hmem Hparse Httl Hfree)
    as (item & Hrep & Ht & Htime & Hlim & Hit & Hia & _ & Hittl & _ & _ & Hdata).
  exists item. split; [exact Hrep|]. split.
  2:{ intros Hsmall. destruct (Hdata Hsmall) as (Hd & He & Hs).
      repeat split; try assumption.
      rewrite Hd. cbn [data_bytes]. unfold zmemdup, value_in_request in *.
      assert (Hpos : 0 < p_vlen (p_kv r)).
      { unfold gbParseTtlKeyValue in Hparse.
        destruct (p_vlen (p_kv r) <=? 0) eqn:Hz; [|apply Z.leb_gt in Hz; lia].
        exfalso. revert Hparse Hz. clear.
        destruct (scan_field p 0 _) as [[tok q] i].
        destruct (scan_field (tail q) i _) as [[key q'] j].
        repeat match goal with
          | |- context [if ?c then _ else _] => destruct c eqn:?
          end; try discriminate; intros [= <-]; cbn in *; congruence. }
      rewrite length_take. lia. }
  rewrite (get_of_item _ g kvg item).
  - rewrite Htime.
    assert (Hval : expired item (time (stats s)) = false).
    { unfold expired. rewrite Hit, Hittl.
      destruct (Z.ltb_spec 0 ttl); [|reflexivity].
      destruct (Z.ltb_spec 0 (min (maxitemttl (limits s)) ttl));
        [|reflexivity].
      cbn. apply Z.leb_gt. lia. }
    rewrite Hval. cbn [snd]. rewrite <- Hia. now rewrite touch_same.
  - now rewrite Hlim.
  - rewrite Ht, Hkey. apply lookup_insert_eq.
Qed.

Lemma set_clock_frame (s : gbServer) (t : Z) :
  tree (set_clock s t) = tree s /\ limits (set_clock s t) = limits s
  /\ time (stats (set_clock s t)) = t
  /\ item_pool (set_clock s t) = item_pool s.
Proof. unfold set_clock. cbn. auto. Qed.

(** The life of an item: an item SET with a positive ttl is kept for
    [min( maxitemttl, ttl )] seconds of the clock of the server.  A GET
    before that replies [REPL_VAL] with the item; a GET from then on
    replies [REPL_ERR_NOT_FOUND] and leaves the key without item.  An item
    SET with a ttl that is not positive is returned at any time. *)
Theorem set_ttl_deadline (s : gbServer) (p g : bytes) (r : parsed_tkv)
    (kvg : parsed_kv) (ttl t : Z) :
  memused (stats s) <= maxmem (limits s) ->
  gbParseTtlKeyValue (limits s) p (payload_size p) true = Some r ->
  gbQueryParseLong (p_ttl r) (p_ttllen r) = Some ttl ->
  (forall it, tr_find (tree s) (p_key (p_kv r)) = Some it ->
              ~ locked it (time (stats s))) ->
  gbParseKeyValue (limits s) g (payload_size g) false = Some kvg ->
  p_key kvg = p_key (p_kv r) ->
  let later := gbQueryGetHandler E (set_clock (fst (gbQuerySetHandler E s p)) t) g in
  let life := min (maxitemttl (limits s)) ttl in
  (0 < ttl -> 0 < life -> life <= t - time (stats s) ->
     snd later = gbClientEnqueueCode REPL_ERR_NOT_FOUND false
     /\ tr_find (tree (fst later)) (p_key kvg) = None)
  /\ ((ttl <= 0 \/ life <= 0 \/ t - time (stats s) < life) ->
      code_of (snd later) = REPL_VAL).
Proof.
  intros Hmem Hparse Httl Hfree Hg Hkey later life.
  destruct (set_handler_stores s p r ttl Hmem Hparse Httl Hfree)
    as (item & _ & Ht & _ & Hlim & Hit & _ & _ & Hittl & _).
  destruct (set_clock_frame (fst (gbQuerySetHandler E s p)) t)
    as (Htc & Hlc & Htimec & _).
  subst later. rewrite (get_of_item _ g kvg item).
  2: { now rewrite Hlc, Hlim. }
  2: { rewrite Htc, Ht, Hkey. apply lookup_insert_eq. }
  rewrite Htimec. unfold expired. rewrite Hit, Hittl. fold life. split.
  - intros Hpos Hlife Hdead.
    destruct (Z.ltb_spec 0 ttl); [|lia].
    destruct (Z.ltb_spec 0 life); [|lia].
    destruct (Z.leb_spec life (t - time (stats s))); [|lia].
    cbn [andb fst snd]. split; [reflexivity|].
    rewrite gbDestroyItem_tree. cbn. unfold tr_find.
    now rewrite lookup_insert_eq.
  - intros Hlive.
    destruct (Z.ltb_spec 0 ttl); [|reflexivity].
    destruct (Z.ltb_spec 0 life); [|reflexivity].
    destruct (Z.leb_spec life (t - time (stats s))); [lia|reflexivity].
Qed.

(** The count of items under SET: writing to a key that holds no item
    takes one object from the pool and adds one to [nitems]; writing over
    an item gives the old one back to the pool and leaves [nitems] as it
    was. *)
Theorem set_accounting (s : gbServer) (p : bytes) (r : parsed_tkv) (ttl : Z) :
  memused (stats s) <= maxmem (limits s) ->
  gbParseTtlKeyValue (limits s) p (payload_size p) true = Some r ->
  gbQueryParseLong (p_ttl r) (p_ttllen r) = Some ttl ->
  (forall it, tr_find (tree s) (p_key (p_kv r)) = Some it ->
              ~ locked it (time (stats s))) ->
  let out := fst (gbQuerySetHandler E s p) in
  match tr_find (tree s) (p_key (p_kv r)) with
  | Some old =>
      nitems (stats out) = nitems (stats s)
      /\ item_pool out
         = opool_free_object old :: opool_alloc_object :: item_pool s
  | None =>
      nitems (stats out) = nitems (stats s) + 1
      /\ item_pool out = opool_alloc_object :: item_pool s
  end.
Proof.
  intros Hmem Hparse Httl Hfree out.
  destruct (set_handler_stores s p r ttl Hmem Hparse Httl Hfree)
    as (item & _ & _ & _ & _ & _ & _ & _ & _ & Hn & Hpool & _).
  subst out. destruct (tr_find (tree s) (p_key (p_kv r)));
    rewrite Hn, Hpool; split; (lia || reflexivity).
Qed.

(** ** DEL *)

(** DEL on an item that is valid and not locked. *)
Lemma del_of_valid (s : gbServer) (g : bytes) (kv : parsed_kv) (it : gbItem) :
  gbParseKeyValue (limits s) g (payload_size g) false = Some kv ->
  tree s !! p_key kv = Some (Some it) ->
  expired it (time (stats s)) = false ->
  ~ locked it (time (stats s)) ->
  gbQueryDelHandler E s g
  = (set_tree (gbDestroyItem E s it) (<[p_key kv := None]> (tree s)),
     gbClientEnqueueCode REPL_OK false).
Proof.
  intros Hparse Hnode Hval Hlock. apply gbItemIsLocked_false in Hlock.
  unfold gbQueryDelHandler, tr_find_node. rewrite Hparse, Hnode, Hlock.
  unfold gbIsNodeStillValid. rewrite Hval. unfold set_node_data.
  now rewrite gbDestroyItem_tree.
Qed.

(** DEL then GET: DEL on an item that is valid and not locked replies
    [REPL_OK], nulls the slot of the key and gives the item back to the
    pool; a GET of the key then replies [REPL_ERR_NOT_FOUND] and changes
    nothing. *)
Theorem del_then_get (s : gbServer) (g : bytes) (kv : parsed_kv) (it : gbItem) :
  gbParseKeyValue (limits s) g (payload_size g) false = Some kv ->
  tree s !! p_key kv = Some (Some it) ->
  expired it (time (stats s)) = false ->
  ~ locked it (time (stats s)) ->
  let out := gbQueryDelHandler E s g in
  snd out = gbClientEnqueueCode REPL_OK false
  /\ tree (fst out) = <[p_key kv := None]> (tree s)
  /\ item_pool (fst out) = opool_free_object it :: item_pool s
  /\ nitems (stats (fst out)) = nitems (stats s) - 1
  /\ gbQueryGetHandler E (fst out) g
     = (fst out, gbClientEnqueueCode REPL_ERR_NOT_FOUND false).
Proof.
  intros Hparse Hnode Hval Hlock out. subst out.
  rewrite (del_of_valid s g kv it) by assumption. cbn [fst snd].
  destruct (gbDestroyItem_frame s it) as (_ & Hlim & _).
  repeat split.
  - cbn [item_pool set_tree]. now rewrite gbDestroyItem_pool.
  - cbn [stats set_tree]. now rewrite gbDestroyItem_nitems.
  - unfold gbQueryGetHandler, tr_find_node. cbn [limits set_tree].
    rewrite Hlim, Hparse. cbn [tree set_tree].
    now rewrite lookup_insert_eq.
Qed.

(** ** LOCK and UNLOCK *)

(** DEL on the server [s] read at the clock [t], whose key holds [it]. *)
Lemma del_of_locked (s : gbServer) (g : bytes) (kv : parsed_kv) (it : gbItem) :
  gbParseKeyValue (limits s) g (payload_size g) false = Some kv ->
  tree s !! p_key kv = Some (Some it) ->
  (locked it (time (stats s)) ->
     gbQueryDelHandler E s g = (s, gbClientEnqueueCode REPL_ERR_LOCKED false))
  /\ (~ locked it (time (stats s)) ->
        code_of (snd (gbQueryDelHandler E s g)) <> REPL_ERR_LOCKED).
Proof.
  intros Hparse Hnode. unfold gbQueryDelHandler, tr_find_node.
  rewrite Hparse, Hnode. split; intros Hlock.
  - apply gbItemIsLocked_true in Hlock. now rewrite Hlock.
  - apply gbItemIsLocked_false in Hlock. rewrite Hlock.
    destruct (gbIsNodeStillValid E _ it s true) as [s' []]; discriminate.
Qed.

(** A lock holds for its time: LOCK with the number [n], read within the
    request, on an item that is valid and not locked replies [REPL_OK];
    from then on DEL replies
    [REPL_ERR_LOCKED], and changes nothing, as long as the clock has moved
    by less than [n] seconds, or for ever if [n] is -1, and no longer
    replies [REPL_ERR_LOCKED] afterwards. *)
Theorem lock_then_del (s : gbServer) (pv g : bytes) (kvv kv : parsed_kv)
    (it : gbItem) (n t : Z) :
  gbParseKeyValue (limits s) pv (payload_size pv) true = Some kvv ->
  value_in_request kvv ->
  gbParseKeyValue (limits s) g (payload_size g) false = Some kv ->
  p_key kvv = p_key kv ->
  tree s !! p_key kv = Some (Some it) ->
  expired it (time (stats s)) = false ->
  ~ locked it (time (stats s)) ->
  gbQueryParseLong (default [] (p_value kvv)) (p_vlen kvv) = Some n ->
  let out := gbQueryLockHandler E s pv in
  let later := set_clock (fst out) t in
  snd out = gbClientEnqueueCode REPL_OK false
  /\ ((n = -1 \/ t - time (stats s) < n) ->
      gbQueryDelHandler E later g
      = (later, gbClientEnqueueCode REPL_ERR_LOCKED false))
  /\ (n <> -1 -> n <= t - time (stats s) ->
      code_of (snd (gbQueryDelHandler E later g)) <> REPL_ERR_LOCKED).
Proof.
  intros Hpv _ Hg Hkey Hnode Hval Hlock Hn out later.
  apply gbItemIsLocked_false in Hlock.
  assert (Hout : out
    = (store_item s (p_key kv)
         (set_lock (set_time (set_last_access_time it (time (stats s)))
                      (time (stats s))) n),
       gbClientEnqueueCode REPL_OK false)).
  { subst out. unfold gbQueryLockHandler, tr_find_node.
    rewrite Hpv, Hkey, Hnode. unfold gbIsNodeStillValid. rewrite Hval, Hn.
    assert (Hl : gbItemIsLocked (set_last_access_time it (time (stats s)))
                   (store_item s (p_key kv)
                      (set_last_access_time it (time (stats s)))) 0 = false)
      by exact Hlock.
    rewrite Hl. cbn [negb]. f_equal.
    unfold store_item, set_node_data, set_tree. cbn.
    now rewrite insert_insert_eq. }
  subst later. rewrite Hout. cbn [fst snd]. split; [reflexivity|].
  set (it' := set_lock _ n).
  destruct (del_of_locked (set_clock (store_item s (p_key kv) it') t) g kv it')
    as [Hyes Hno].
  - exact Hg.
  - cbn. unfold set_node_data. apply lookup_insert_eq.
  - split.
    + intros Hin. apply Hyes. unfold locked. cbn. lia.
    + intros Hne Hout'. apply Hno. unfold locked. cbn. lia.
Qed.

(** UNLOCK sets the lock to 0, whatever it was: on a valid item UNLOCK
    replies [REPL_OK] and leaves the item touched and with the lock 0.  A
    DEL that follows at the same reading of the clock replies [REPL_OK] and
    nulls the slot when the item was created no later than that reading.
    An item stamped later than the clock is still locked for DEL, which
    replies [REPL_ERR_LOCKED] and changes nothing: the time since its
    creation is negative, and so below the lock 0. *)
Theorem unlock_then_del (s : gbServer) (g : bytes) (kv : parsed_kv)
    (it : gbItem) :
  gbParseKeyValue (limits s) g (payload_size g) false = Some kv ->
  tree s !! p_key kv = Some (Some it) ->
  expired it (time (stats s)) = false ->
  let now := time (stats s) in
  let out := gbQueryUnlockHandler E s g in
  let after := gbQueryDelHandler E (fst out) g in
  snd out = gbClientEnqueueCode REPL_OK false
  /\ tree (fst out) !! p_key kv
     = Some (Some (set_last_access_time (set_lock it 0) now))
  /\ (i_time it <= now ->
        snd after = gbClientEnqueueCode REPL_OK false
        /\ tree (fst after) !! p_key kv = Some None)
  /\ (now < i_time it ->
        after = (fst out, gbClientEnqueueCode REPL_ERR_LOCKED false)).
Proof.
  intros Hparse Hnode Hval now out after.
  assert (Hout : out
    = (store_item s (p_key kv)
         (set_last_access_time (set_lock it 0) (time (stats s))),
       gbClientEnqueueCode REPL_OK false)).
  { subst out. unfold gbQueryUnlockHandler, tr_find_node.
    rewrite Hparse, Hnode. unfold gbIsNodeStillValid. now rewrite Hval. }
  subst after. rewrite Hout. cbn [fst snd]. split; [reflexivity|].
  set (it' := set_last_access_time _ _).
  assert (Hheld : tree (store_item s (p_key kv) it') !! p_key kv
                  = Some (Some it'))
    by (cbn; unfold set_node_data; apply lookup_insert_eq).
  split; [exact Hheld|]. split.
  - intros Hborn.
    rewrite (del_of_valid (store_item s (p_key kv) it') g kv it').
    + cbn [fst snd tree set_tree]. split; [reflexivity|].
      apply lookup_insert_eq.
    + exact Hparse.
    + exact Hheld.
    + exact Hval.
    + unfold locked. cbn. lia.
  - intros Hlate.
    apply (del_of_locked (store_item s (p_key kv) it') g kv it').
    + exact Hparse.
    + exact Hheld.
    + right. cbn. subst now. lia.
Qed.

(** ** INC and DEC on a number *)

Lemma wrap_long_add_l (a b : Z) : wrap_long (wrap_long a + b) = wrap_long (a + b).
Proof.
  unfold wrap_long. f_equal.
  replace ((a + 2 ^ 63) mod 2 ^ 64 - 2 ^ 63 + b + 2 ^ 63)
    with ((a + 2 ^ 63) mod 2 ^ 64 + b) by lia.
  rewrite Zplus_mod_idemp_l. f_equal. lia.
Qed.

(** INC or DEC on a number that is valid and not locked. *)
Lemma incdec_of_number (s : gbServer) (g : bytes) (kv : parsed_kv)
    (it : gbItem) (delta : Z) :
  gbParseKeyValue (limits s) g (payload_size g) false = Some kv ->
  tree s !! p_key kv = Some (Some it) ->
  expired it (time (stats s)) = false ->
  ~ locked it (time (stats s)) ->
  i_encoding it = GB_ENC_NUMBER ->
  let it' :=
    set_data (set_last_access_time it (time (stats s)))
      (DataLong (wrap_long (data_long (i_data it) + delta))) in
  gbQueryIncDecHandler E s g delta
  = (store_item s (p_key kv) it', gbClientEnqueueItem REPL_VAL it' false).
Proof.
  intros Hparse Hnode Hval Hlock Henc it'.
  apply gbItemIsLocked_false in Hlock.
  unfold gbQueryIncDecHandler, tr_find_node. rewrite Hparse, Hnode.
  unfold gbIsNodeStillValid. rewrite Hval. cbn [negb]. rewrite Hlock.
  cbn [i_encoding set_last_access_time]. rewrite Henc. cbn [encoding_eqb].
  f_equal. unfold store_item, set_node_data, set_tree. cbn.
  now rewrite insert_insert_eq.
Qed.

(** INC then DEC: on a number that is valid and not locked, INC replies
    with the number plus one (a [long] sum, which wraps at the largest
    [long]) and a DEC that follows replies with the number it was; the item
    is then what it was, but for the time of its last access. *)
Theorem inc_then_dec (s : gbServer) (g : bytes) (kv : parsed_kv)
    (it : gbItem) (n : Z) :
  gbParseKeyValue (limits s) g (payload_size g) false = Some kv ->
  tree s !! p_key kv = Some (Some it) ->
  expired it (time (stats s)) = false ->
  ~ locked it (time (stats s)) ->
  i_encoding it = GB_ENC_NUMBER ->
  i_data it = DataLong n ->
  - 2 ^ 63 <= n < 2 ^ 63 ->
  let now := time (stats s) in
  let up := gbQueryIncDecHandler E s g 1 in
  let down := gbQueryIncDecHandler E (fst up) g (-1) in
  snd up
  = gbClientEnqueueItem REPL_VAL
      (set_data (set_last_access_time it now) (DataLong (wrap_long (n + 1))))
      false
  /\ snd down = gbClientEnqueueItem REPL_VAL (set_last_access_time it now) false
  /\ tree (fst down) = <[p_key kv := Some (set_last_access_time it now)]> (tree s).
Proof.
  intros Hparse Hnode Hval Hlock Henc Hdata Hrange now up down.
  subst up down.
  rewrite (incdec_of_number s g kv it 1) by assumption.
  cbn [fst snd]. rewrite Hdata. cbn [data_long]. split; [reflexivity|].
  set (it1 := set_data _ _).
  rewrite (incdec_of_number (store_item s (p_key kv) it1) g kv it1 (-1)).
  - cbn [fst snd]. subst it1.
    cbn [set_data set_last_access_time i_data i_size i_encoding i_time
           i_last_access_time i_ttl i_lock data_long].
    unfold store_item. cbn [set_tree tree time stats].
    unfold set_node_data. rewrite insert_insert_eq.
    rewrite wrap_long_add_l.
    replace (n + 1 + -1) with n by lia.
    rewrite (wrap_long_id n) by exact Hrange.
    destruct it as [d sz e tm la tt lk]. cbn in Hdata. subst d.
    split; reflexivity.
  - exact Hparse.
  - cbn. unfold set_node_data. apply lookup_insert_eq.
  - exact Hval.
  - exact Hlock.
  - exact Henc.
Qed.

(** ** TTL *)

(** TTL does not look at the lock and moves the creation time: on a valid
    item, locked or not, TTL with the number [n], read within the request,
    replies [REPL_OK] and the
    item is then created now with the ttl [min( maxitemttl, n )], so a lock
    of [i_lock] seconds that was about to end holds for that many seconds
    again. *)
Theorem ttl_restarts_lock (s : gbServer) (pv g : bytes) (kvv kv : parsed_kv)
    (it : gbItem) (n t : Z) :
  gbParseKeyValue (limits s) pv (payload_size pv) true = Some kvv ->
  value_in_request kvv ->
  gbParseKeyValue (limits s) g (payload_size g) false = Some kv ->
  p_key kvv = p_key kv ->
  tree s !! p_key kv = Some (Some it) ->
  expired it (time (stats s)) = false ->
  gbQueryParseLong (default [] (p_value kvv)) (p_vlen kvv) = Some n ->
  let now := time (stats s) in
  let out := gbQueryTtlHandler E s pv in
  let it' :=
    mkItem (i_data it) (i_size it) (i_encoding it) now now
      (min (maxitemttl (limits s)) n) (i_lock it) in
  out = (store_item s (p_key kv) it', gbClientEnqueueCode REPL_OK false)
  /\ (t - now < i_lock it ->
      gbQueryDelHandler E (set_clock (fst out) t) g
      = (set_clock (fst out) t, gbClientEnqueueCode REPL_ERR_LOCKED false)).
Proof.
  intros Hpv _ Hg Hkey Hnode Hval Hn now out it'.
  assert (Hout : out
    = (store_item s (p_key kv) it', gbClientEnqueueCode REPL_OK false)).
  { subst out. unfold gbQueryTtlHandler, tr_find.
    rewrite Hpv, Hkey, Hnode. unfold gbIsItemStillValid. now rewrite Hval, Hn. }
  split; [exact Hout|]. rewrite Hout. cbn [fst]. intros Hin.
  apply (del_of_locked (set_clock (store_item s (p_key kv) it') t) g kv it').
  - exact Hg.
  - cbn. unfold set_node_data. apply lookup_insert_eq.
  - right. cbn. exact Hin.
Qed.

(** ** META *)

(** On a literal without NUL among its first [n] bytes, [strncmp] says
    equal exactly when the first [n] bytes are the same. *)
Lemma strncmp_eq_take (n : nat) (a b : bytes) :
  (n <= length b)%nat -> NUL ∉ take n b ->
  strncmp_eq a b n = true <-> take n a = take n b.
Proof.
  revert a b. induction n as [|n IH]; intros a b Hlen Hnul; [easy|].
  destruct b as [|cb b]; [simpl in Hlen; lia|].
  simpl in Hlen. rewrite firstn_cons in Hnul.
  apply not_elem_of_cons in Hnul as [Hcb Hnul].
  cbn [strncmp_eq hd tail].
  destruct a as [|ca a]; cbn [hd tail].
  - destruct (byte_eqb NUL cb) eqn:Heq.
    + apply Ascii.eqb_eq in Heq. congruence.
    + split; discriminate.
  - destruct (byte_eqb ca cb) eqn:Heq.
    + apply Ascii.eqb_eq in Heq. subst ca.
      destruct (byte_eqb cb NUL) eqn:Hz.
      * apply Ascii.eqb_eq in Hz. congruence.
      * rewrite IH by (auto; lia). rewrite !firstn_cons.
        split; [now intros -> | now intros [= ->]].
    + split; [discriminate|]. rewrite !firstn_cons. intros [= -> _].
      unfold byte_eqb in Heq. now rewrite Ascii.eqb_refl in Heq.
Qed.

(** Two lists agree on the length of the shorter exactly when one is a
    prefix of the other. *)
Lemma take_min_prefix {A} (a b : list A) :
  take (Nat.min (length a) (length b)) a = take (Nat.min (length a) (length b)) b
  <-> a `prefix_of` b \/ b `prefix_of` a.
Proof.
  split.
  - intros Heq. destruct (Nat.le_ge_cases (length a) (length b)) as [Hle|Hle].
    + left. rewrite Nat.min_l, firstn_all in Heq by exact Hle.
      exists (drop (length a) b). rewrite Heq at 1. symmetry. apply take_drop.
    + right. rewrite Nat.min_r, firstn_all in Heq by exact Hle.
      exists (drop (length b) a). rewrite <- Heq at 1. symmetry. apply take_drop.
  - intros [[c ->]|[c ->]]; rewrite length_app.
    + rewrite Nat.min_l by lia. rewrite firstn_all. now rewrite take_app_length.
    + rewrite Nat.min_r by lia. rewrite firstn_all. now rewrite take_app_length.
Qed.

Lemma is_Some_if (b : bool) (x : Z) (o : option Z) :
  is_Some (if b then Some x else o) <-> b = true \/ is_Some o.
Proof.
  destruct b; split; eauto; intros [H|H]; (discriminate || exact H).
Qed.

(** The test of one name by [gbGetItemMeta]. *)
Lemma meta_name_test (m : bytes) (name : string) :
  name ∈ meta_fields ->
  strncmp_eq m (lit name)
    (Z.to_nat (min (Z.of_nat (length m)) (Z.of_nat (length (lit name)))))
  = true
  <-> m `prefix_of` lit name \/ lit name `prefix_of` m.
Proof.
  intros Hin. rewrite <- take_min_prefix.
  assert (Hmin : Z.to_nat (min (Z.of_nat (length m))
                             (Z.of_nat (length (lit name))))
                 = Nat.min (length m) (length (lit name))).
  { unfold min. destruct (Z.ltb_spec (Z.of_nat (length m))
                            (Z.of_nat (length (lit name)))); lia. }
  rewrite Hmin. apply strncmp_eq_take; [lia|].
  intros Hnul. apply elem_of_take in Hnul as (i & Hi & _).
  apply list_elem_of_lookup_2, list_elem_of_In in Hi.
  apply list_elem_of_In in Hin. simpl in Hin.
  destruct Hin as [<-|[<-|[<-|[<-|[<-|[<-|[<-|[]]]]]]]];
    simpl in Hi; intuition discriminate.
Qed.

(** META takes a field by its beginning: [gbGetItemMeta] finds a value
    exactly when the field of the request is the beginning of one of its
    seven names, or starts with one of them. *)
Theorem meta_field_by_prefix (s : gbServer) (it : gbItem) (m : bytes) :
  is_Some (gbGetItemMeta s it m (Z.of_nat (length m)))
  <-> exists name, name ∈ meta_fields
                   /\ (m `prefix_of` lit name \/ lit name `prefix_of` m).
Proof.
  assert (Hin : forall name, In name meta_fields -> name ∈ meta_fields)
    by (intros name; apply list_elem_of_In).
  assert (H1 := meta_name_test m "size" (Hin "size"%string ltac:(simpl; auto 10))).
  assert (H2 := meta_name_test m "encoding" (Hin "encoding"%string ltac:(simpl; auto 10))).
  assert (H3 := meta_name_test m "access" (Hin "access"%string ltac:(simpl; auto 10))).
  assert (H4 := meta_name_test m "created" (Hin "created"%string ltac:(simpl; auto 10))).
  assert (H5 := meta_name_test m "ttl" (Hin "ttl"%string ltac:(simpl; auto 10))).
  assert (H6 := meta_name_test m "left" (Hin "left"%string ltac:(simpl; auto 10))).
  assert (H7 := meta_name_test m "lock" (Hin "lock"%string ltac:(simpl; auto 10))).
  change (Z.of_nat (length (lit "size"))) with 4 in H1.
  change (Z.of_nat (length (lit "encoding"))) with 8 in H2.
  change (Z.of_nat (length (lit "access"))) with 6 in H3.
  change (Z.of_nat (length (lit "created"))) with 7 in H4.
  change (Z.of_nat (length (lit "ttl"))) with 3 in H5.
  change (Z.of_nat (length (lit "left"))) with 4 in H6.
  change (Z.of_nat (length (lit "lock"))) with 4 in H7.
  unfold gbGetItemMeta. cbv zeta.
  rewrite !is_Some_if, H1, H2, H3, H4, H5, H6, H7.
  split.
  - intros [H|[H|[H|[H|[H|[H|[H|[x Hx]]]]]]]]; try discriminate;
      eexists; (split; [|exact H]); apply Hin; simpl; tauto.
  - intros (name & Hname & Hp). apply list_elem_of_In in Hname.
    simpl in Hname.
    destruct Hname as [<-|[<-|[<-|[<-|[<-|[<-|[<-|[]]]]]]]]; tauto.
Qed.

(** The time left: for the field [left], META on a valid item replies
    with -1 when the item has no expiry and otherwise with the seconds it
    has left, which are at least one: an item with no second left is not
    reported, it is expired. *)
Theorem meta_left_positive (s : gbServer) (pv : bytes) (kvv : parsed_kv)
    (it : gbItem) :
  gbParseKeyValue (limits s) pv (payload_size pv) true = Some kvv ->
  tree s !! p_key kvv = Some (Some it) ->
  expired it (time (stats s)) = false ->
  p_vlen kvv = 4 ->
  take 4 (default [] (p_value kvv)) = lit "left" ->
  exists v,
    snd (gbQueryMetaHandler E s pv)
    = gbClientEnqueueData REPL_VAL GB_ENC_NUMBER v sizeof_long false
    /\ ((i_ttl it <= 0 /\ v = -1)
        \/ (0 < i_ttl it
            /\ v = i_ttl it - (time (stats s) - i_time it) /\ 0 < v)).
Proof.
  intros Hparse Hnode Hval Hlen Htake.
  unfold gbQueryMetaHandler, tr_find_node. rewrite Hparse, Hnode.
  unfold gbIsNodeStillValid. rewrite Hval, Hlen. cbn [snd].
  destruct (default [] (p_value kvv)) as [|c1 [|c2 [|c3 [|c4 rest]]]];
    try discriminate.
  injection Htake as -> -> -> ->.
  unfold gbGetItemMeta. cbn -[Z.sub Z.leb].
  eexists. split; [reflexivity|].
  unfold expired in Hval.
  destruct (Z.leb_spec (i_ttl it) 0) as [Hle|Hgt]; [left; auto|].
  right. destruct (Z.ltb_spec 0 (i_ttl it)); [|lia].
  cbn [andb] in Hval. apply Z.leb_gt in Hval. lia.
Qed.

(** ** Bulk operations *)

(** A walk whose callback answers 0 or 1 counts at most the keys it
    visits. *)
Lemma tr_walk_le_keys (cb : gbServer -> bytes -> gbItem -> gbServer * Z) :
  (forall s k it, snd (cb s k it) <= 1) ->
  forall keys s, snd (tr_walk cb keys s) <= Z.of_nat (length keys).
Proof.
  intros Hcb keys. induction keys as [|key keys IH]; intros s; [simpl; lia|].
  cbn [tr_walk]. destruct (tr_find (tree s) key) as [it|].
  - specialize (Hcb s key it). destruct (cb s key it) as [s1 r].
    specialize (IH s1). destruct (tr_walk cb keys s1) as [s2 n].
    simpl in *. lia.
  - specialize (IH s). destruct (tr_walk cb keys s) as [s2 n]. simpl in *. lia.
Qed.

Lemma tr_walk_nodes_le_keys (cb : gbServer -> bytes -> slot -> gbServer * Z) :
  (forall s k d, snd (cb s k d) <= 1) ->
  forall keys s, snd (tr_walk_nodes cb keys s) <= Z.of_nat (length keys).
Proof.
  intros Hcb keys. induction keys as [|key keys IH]; intros s; [simpl; lia|].
  cbn [tr_walk_nodes]. destruct (tr_find_node (tree s) key) as [d|].
  - specialize (Hcb s key d). destruct (cb s key d) as [s1 r].
    specialize (IH s1). destruct (tr_walk_nodes cb keys s1) as [s2 n].
    simpl in *. lia.
  - specialize (IH s). destruct (tr_walk_nodes cb keys s) as [s2 n].
    simpl in *. lia.
Qed.

Local Ltac callback_le :=
  repeat match goal with
    | |- context [gbItemIsLocked ?it ?s 0] => destruct (gbItemIsLocked it s 0)
    | |- context [gbIsItemStillValid ?E ?it ?s ?k ?r] =>
        destruct (gbIsItemStillValid E it s k r) as [? []]
    | |- context [gbIsNodeStillValid ?E ?k ?it ?s ?r] =>
        destruct (gbIsNodeStillValid E k it s r) as [? []]
    | |- context [encoding_eqb ?a ?b] => destruct (encoding_eqb a b)
    | |- context [gbQueryParseLong ?v ?n] => destruct (gbQueryParseLong v n)
    | |- context [promote ?E ?s ?it ?n ?d] => destruct (promote E s it n d)
    end;
  simpl; lia.

Lemma callbacks_le_one :
  (forall v vlen s k it, snd (gbMultiSetCallback E v vlen s k it) <= 1)
  /\ (forall ttl s k it, snd (gbMultiTtlCallback E ttl s k it) <= 1)
  /\ (forall s k d, snd (gbMultiDelCallback E s k d) <= 1)
  /\ (forall delta s k it, snd (gbMultiIncDecCallback E delta s k it) <= 1)
  /\ (forall n s k it, snd (gbMultiLockCallback E n s k it) <= 1)
  /\ (forall s k it, snd (gbMultiUnlockCallback E s k it) <= 1)
  /\ (forall s k it, snd (gbCountCallback E s k it) <= 1).
Proof.
  repeat split; intros;
    unfold gbMultiSetCallback, gbMultiTtlCallback, gbMultiDelCallback,
      gbMultiIncDecCallback, gbMultiLockCallback, gbMultiUnlockCallback,
      gbCountCallback;
    try match goal with d : slot |- _ => destruct d end;
    callback_le.
Qed.

(** A bulk operation never counts more than the search matched: the count
    its reply is decided on is at most the number of keys that the search
    of the index returned for the pattern of the request. *)
Theorem bulk_count_bounded (s : gbServer) (op : bulk_op) (p : bytes)
    (found : Z) :
  walk_total E op s p = Some found ->
  exists q, bulk_pattern op s p = Some q
            /\ found <= Z.of_nat (length (bulk_matches E s q)).
Proof.
  destruct callbacks_le_one as (Hset & Httl & Hdel & Hinc & Hlock & Hunl & Hcnt).
  unfold bulk_matches.
  destruct op; cbn [walk_total bulk_pattern].
  - destruct (memused (stats s) <=? maxmem (limits s)); [|discriminate].
    destruct (gbParseKeyValue _ p _ true) as [kv|]; [cbn|discriminate].
    intros [= <-]. eexists. split; [reflexivity|].
    apply tr_walk_le_keys, Hset.
  - destruct (gbParseKeyValue _ p _ true) as [kv|]; [cbn|discriminate].
    destruct (gbQueryParseLong _ _) as [ttl|]; [cbn|discriminate].
    intros [= <-]. eexists. split; [reflexivity|].
    apply tr_walk_le_keys, Httl.
  - destruct (gbParseKeyAndOptionalValue _ p _ true) as [kv|];
      [cbn|discriminate].
    destruct (mget_limit kv) as [limit|]; [cbn|discriminate].
    unfold tr_search.
    set (ks := tr_matching E (tree s) _ _ _ _).
    intros [= <-]. eexists. split; [reflexivity|]. cbn [fst snd]. fold ks.
    destruct (Z.eqb_spec (Z.of_nat (length ks)) 0); [lia|].
    apply (mget_filter_bounds E ks (map (tr_find (tree s)) ks) s).
  - destruct (gbParseKeyValue _ p _ false) as [kv|]; [cbn|discriminate].
    intros [= <-]. eexists. split; [reflexivity|].
    apply tr_walk_nodes_le_keys, Hdel.
  - destruct (gbParseKeyValue _ p _ false) as [kv|]; [cbn|discriminate].
    intros [= <-]. eexists. split; [reflexivity|].
    apply tr_walk_le_keys, Hinc.
  - destruct (gbParseKeyValue _ p _ false) as [kv|]; [cbn|discriminate].
    intros [= <-]. eexists. split; [reflexivity|].
    apply tr_walk_le_keys, Hinc.
  - destruct (gbParseKeyValue _ p _ true) as [kv|]; [cbn|discriminate].
    destruct (gbQueryParseLong _ _) as [n|]; [cbn|discriminate].
    intros [= <-]. eexists. split; [reflexivity|].
    apply tr_walk_le_keys, Hlock.
  - destruct (gbParseKeyValue _ p _ false) as [kv|]; [cbn|discriminate].
    intros [= <-]. eexists. split; [reflexivity|].
    apply tr_walk_le_keys, Hunl.
  - destruct (gbParseKeyValue _ p _ false) as [kv|]; [cbn|discriminate].
    intros [= <-]. eexists. split; [reflexivity|].
    apply tr_walk_le_keys, Hcnt.
  - destruct (gbParseKeyValue _ p _ false) as [kv|]; [cbn|discriminate].
    intros [= <-]. eexists. split; [reflexivity|]. cbn. lia.
Qed.

(** A walk whose callback leaves every key it visits alone leaves the
    server alone and counts nothing. *)
Lemma tr_walk_skip (cb : gbServer -> bytes -> gbItem -> gbServer * Z)
    (keys : list bytes) (s : gbServer) :
  (forall key it, key ∈ keys -> tr_find (tree s) key = Some it ->
                  cb s key it = (s, 0)) ->
  tr_walk cb keys s = (s, 0).
Proof.
  induction keys as [|key keys IH]; intros Hcb; [reflexivity|].
  cbn [tr_walk]. destruct (tr_find (tree s) key) as [it|] eqn:Hfind.
  - rewrite (Hcb key it) by (auto; left). rewrite IH; [reflexivity|].
    intros k i Hk. apply Hcb. now right.
  - rewrite IH; [reflexivity|]. intros k i Hk. apply Hcb. now right.
Qed.

Lemma tr_walk_nodes_skip (cb : gbServer -> bytes -> slot -> gbServer * Z)
    (keys : list bytes) (s : gbServer) :
  (forall key d, key ∈ keys -> tr_find_node (tree s) key = Some d ->
                 cb s key d = (s, 0)) ->
  tr_walk_nodes cb keys s = (s, 0).
Proof.
  induction keys as [|key keys IH]; intros Hcb; [reflexivity|].
  cbn [tr_walk_nodes]. destruct (tr_find_node (tree s) key) as [d|] eqn:Hfind.
  - rewrite (Hcb key d) by (auto; left). rewrite IH; [reflexivity|].
    intros k i Hk. apply Hcb. now right.
  - rewrite IH; [reflexivity|]. intros k i Hk. apply Hcb. now right.
Qed.

(** Locks stop the bulk writes: when every item that the search of an
    MSET, MDEL, MINC or MDEC matches is locked, the request changes
    nothing at all, not even an expired item, and replies
    [REPL_ERR_NOT_FOUND]. *)
Theorem bulk_all_locked (s : gbServer) (op : bulk_op) (p : bytes)
    (q : parsed_kv * Z) :
  op ∈ [OP_MSET; OP_MDEL; OP_MINC; OP_MDEC] ->
  is_Some (walk_total E op s p) ->
  bulk_pattern op s p = Some q ->
  (forall key it, key ∈ bulk_matches E s q ->
                  tr_find (tree s) key = Some it ->
                  locked it (time (stats s))) ->
  gbProcessBulk E op s p = (s, not_found_reply).
Proof.
  intros Hop Hwalk Hq Hlocked. unfold bulk_matches in Hlocked.
  assert (Hl : forall key it,
             key ∈ tr_matching E (tree s) (p_key (fst q)) (p_klen (fst q))
                     (snd q) (maxkeysize (limits s)) ->
             tr_find (tree s) key = Some it -> gbItemIsLocked it s 0 = true)
    by (intros key it Hin Hf; apply gbItemIsLocked_true; eauto).
  apply list_elem_of_In in Hop. simpl in Hop.
  destruct Hop as [<-|[<-|[<-|[<-|[]]]]];
    cbn [walk_total bulk_pattern gbProcessBulk] in *;
    unfold gbQueryMultiSetHandler, gbQueryMultiDelHandler,
      gbQueryMultiIncDecHandler.
  - destruct (memused (stats s) <=? maxmem (limits s));
      [|destruct Hwalk; discriminate].
    destruct (gbParseKeyValue _ p _ true) as [kv|]; [|discriminate].
    cbn in Hq. injection Hq as <-. cbn [fst snd] in Hl.
    unfold tr_search_callback. rewrite tr_walk_skip; [reflexivity|].
    intros key it Hin Hf. unfold gbMultiSetCallback. now rewrite (Hl key it).
  - destruct (gbParseKeyValue _ p _ false) as [kv|]; [|discriminate].
    cbn in Hq. injection Hq as <-. cbn [fst snd] in Hl.
    unfold tr_search_nodes_callback. rewrite tr_walk_nodes_skip; [reflexivity|].
    intros key d Hin Hf. unfold gbMultiDelCallback.
    destruct d as [it|]; [|reflexivity].
    rewrite (Hl key it); auto. unfold tr_find. unfold tr_find_node in Hf.
    now rewrite Hf.
  - destruct (gbParseKeyValue _ p _ false) as [kv|]; [|discriminate].
    cbn in Hq. injection Hq as <-. cbn [fst snd] in Hl.
    unfold tr_search_callback. rewrite tr_walk_skip; [reflexivity|].
    intros key it Hin Hf. unfold gbMultiIncDecCallback. now rewrite (Hl key it).
  - destruct (gbParseKeyValue _ p _ false) as [kv|]; [|discriminate].
    cbn in Hq. injection Hq as <-. cbn [fst snd] in Hl.
    unfold tr_search_callback. rewrite tr_walk_skip; [reflexivity|].
    intros key it Hin Hf. unfold gbMultiIncDecCallback. now rewrite (Hl key it).
Qed.

(** What the filter of MGET leaves staged: as many values as keys, and a
    count that went down by one for every value it set to [NULL]. *)
Lemma mget_filter_values (m_keys : list bytes) (m_values : list slot)
    (s : gbServer) (found : Z) :
  length m_values = length m_keys ->
  let r := mget_filter E m_keys m_values s found in
  length (snd r) = length m_keys
  /\ snd (fst r)
     = found - Z.of_nat (length m_keys)
       + Z.of_nat (length (filter is_Some (snd r))).
Proof.
  revert m_values s found.
  induction m_keys as [|ki ks IH]; intros [|vi vs] s found Hlen;
    try discriminate; [simpl; split; [reflexivity|lia]|].
  injection Hlen as Hlen. cbn [mget_filter].
  destruct vi as [item|].
  - destruct (gbIsItemStillValid E item s (c_str ki) true) as [s1 []].
    + specialize (IH vs (store_item s1 ki
                           (set_last_access_time item (time (stats s1))))
                    found Hlen).
      destruct (mget_filter E ks vs _ found) as [[s2 f2] vs2].
      cbn [fst snd] in *. destruct IH as [IH1 IH2].
      rewrite filter_cons_True by eauto. simpl length. split; lia.
    + specialize (IH vs s1 (found - 1) Hlen).
      destruct (mget_filter E ks vs s1 (found - 1)) as [[s2 f2] vs2].
      cbn [fst snd] in *. destruct IH as [IH1 IH2].
      rewrite filter_cons_False by (intros [? ?]; discriminate).
      simpl length. split; lia.
  - specialize (IH vs s (found - 1) Hlen).
    destruct (mget_filter E ks vs s (found - 1)) as [[s2 f2] vs2].
    cbn [fst snd] in *. destruct IH as [IH1 IH2].
    rewrite filter_cons_False by (intros [? ?]; discriminate).
    simpl length. split; lia.
Qed.

(** The set MGET sends: the count of a key/value set that MGET replies
    with is positive and is the number of values that are not [NULL]
    among the staged ones, which are as many as the staged keys. *)
Theorem mget_reply_values (s : gbServer) (p : bytes) (found : Z)
    (m_keys : list bytes) (m_values : list slot) (close : bool) :
  snd (gbQueryMultiGetHandler E s p)
  = gbClientEnqueueKeyValueSet found m_keys m_values close ->
  length m_values = length m_keys
  /\ found = Z.of_nat (length (filter is_Some m_values))
  /\ 0 < found.
Proof.
  assert (Hsearch : forall expr exprlen limit,
    snd (mget_search E s expr exprlen limit)
    = gbClientEnqueueKeyValueSet found m_keys m_values close ->
    length m_values = length m_keys
    /\ found = Z.of_nat (length (filter is_Some m_values))
    /\ 0 < found).
  { intros expr exprlen limit. unfold mget_search, tr_search.
    set (ks := tr_matching E (tree s) _ _ _ _).
    set (vs := map (tr_find (tree s)) ks).
    destruct (Z.of_nat (length ks) =? 0); [discriminate|].
    pose proof (mget_filter_values ks vs s (Z.of_nat (length ks))
                  ltac:(subst vs; apply length_map)) as [Hl Hf].
    pose proof (mget_filter_bounds E ks vs s (Z.of_nat (length ks))) as Hb.
    destruct (mget_filter E ks vs s (Z.of_nat (length ks))) as [[s' n] vs'].
    cbn [fst snd] in *.
    destruct (Z.eqb_spec n 0); [discriminate|].
    cbn [snd]. intros [= <- <- <- _]. repeat split; auto; lia. }
  unfold gbQueryMultiGetHandler.
  destruct (gbParseKeyAndOptionalValue _ p _ true) as [kv|]; [|discriminate].
  destruct (p_value kv) as [v|]; [destruct (p_vlen kv =? 0)|];
    try apply Hsearch.
  destruct (gbQueryParseLong v (p_vlen kv)); [apply Hsearch|discriminate].
Qed.

(** ** KEYS *)

Lemma buffers_freed_app (a b : list pool_op) :
  buffers_freed (a ++ b) = buffers_freed a ++ buffers_freed b.
Proof. unfold buffers_freed. apply flat_map_app. Qed.

Lemma after_pool_calls_nil (s : gbServer) : after_pool_calls s [] = s.
Proof. destruct s. reflexivity. Qed.

Lemma after_pool_calls_app (s : gbServer) (a b : list pool_op) :
  after_pool_calls (after_pool_calls s a) b = after_pool_calls s (b ++ a).
Proof.
  unfold after_pool_calls.
  cbn [tree stats limits compression item_pool heap_freed].
  now rewrite buffers_freed_app, <- !app_assoc.
Qed.

Lemma gbCreateVolatileItem_calls (s : gbServer) (data : item_data) (size : Z)
    (encoding : gbItemEncoding) :
  fst (gbCreateVolatileItem s data size encoding)
  = after_pool_calls s [opool_alloc_object].
Proof. reflexivity. Qed.

Lemma gbDestroyVolatileItem_calls (s : gbServer) (it : gbItem) :
  gbDestroyVolatileItem s it = after_pool_calls s [opool_free_object it].
Proof.
  unfold gbDestroyVolatileItem, zfree_buffer, after_pool_calls, buffers_freed.
  cbn [flat_map]. destruct (owns_buffer it); reflexivity.
Qed.

Lemma keys_stage_spec (keys : list bytes) (i : nat) (s : gbServer) :
  keys_stage keys i s
  = (after_pool_calls s (replicate (length keys) opool_alloc_object),
     map index_string (seq i (length keys)),
     map (fun key => Some (volatile_key key)) keys).
Proof.
  revert i s. induction keys as [|key keys IH]; intros i s.
  - cbn. now rewrite after_pool_calls_nil.
  - cbn [keys_stage].
    pose proof (gbCreateVolatileItem_calls s (DataBuf key) (strlen key)
                  GB_ENC_PLAIN) as Hmk.
    destruct (gbCreateVolatileItem s _ _ _) as [s1 item] eqn:Hcall.
    cbn [fst] in Hmk. subst s1.
    assert (Hitem : item = volatile_key key)
      by (unfold gbCreateVolatileItem in Hcall; now injection Hcall as <-).
    rewrite IH, after_pool_calls_app, Hitem.
    cbn [length seq map]. do 2 f_equal.
    change (opool_alloc_object :: replicate (length keys) opool_alloc_object)
      with (replicate (S (length keys)) opool_alloc_object).
    now rewrite <- replicate_cons_app.
Qed.

Lemma keys_unstage_spec (items : list gbItem) (s : gbServer) :
  keys_unstage (map Some items) s
  = after_pool_calls s (rev (map opool_free_object items)).
Proof.
  revert s. induction items as [|it items IH]; intros s.
  - cbn. now rewrite after_pool_calls_nil.
  - cbn [map keys_unstage].
    now rewrite IH, gbDestroyVolatileItem_calls, after_pool_calls_app.
Qed.

(** KEYS answers from the index alone: it replies with the keys that the
    search matched, numbered from 0 in decimal, each wrapped as plain
    bytes of its C string length; it looks at no item, so a key whose
    item has expired is listed like any other; it leaves the index and
    the counters as they were and gives every volatile item it took from
    the pool back.  Without a match it replies [REPL_ERR_NOT_FOUND]. *)
Theorem keys_reply (s : gbServer) (p : bytes) (kv : parsed_kv) :
  gbParseKeyValue (limits s) p (payload_size p) false = Some kv ->
  let keys :=
    tr_matching E (tree s) (p_key kv) (p_klen kv) (-1) (maxkeysize (limits s)) in
  gbQueryKeysHandler E s p
  = match keys with
    | [] => (s, gbClientEnqueueCode REPL_ERR_NOT_FOUND false)
    | _ =>
        (after_pool_calls s
           (rev (map (fun key => opool_free_object (volatile_key key)) keys)
            ++ replicate (length keys) opool_alloc_object),
         gbClientEnqueueKeyValueSet (Z.of_nat (length keys))
           (map index_string (seq 0 (length keys)))
           (map (fun key => Some (volatile_key key)) keys) false)
    end.
Proof.
  intros Hparse keys. unfold gbQueryKeysHandler, tr_search.
  rewrite Hparse. fold keys.
  destruct keys as [|key keys'] eqn:Hk; [reflexivity|].
  destruct (Z.eqb_spec (Z.of_nat (length (key :: keys'))) 0) as [Hz|_];
    [simpl in Hz; lia|].
  rewrite keys_stage_spec.
  rewrite <- (map_map volatile_key Some), keys_unstage_spec.
  rewrite !map_map. f_equal.
  apply after_pool_calls_app.
Qed.

(** ** What the handlers leave alone *)

Local Ltac settings_eq :=
  unfold settings, store_item, set_tree, set_node_data, pool_call,
    set_memused, set_stats, gbDestroyVolatileItem, after_pool_calls in *;
  cbn [stats limits compression time requests fst snd] in *;
  congruence.

Lemma settings_create (s : gbServer) (data : item_data) (size : Z)
    (encoding : gbItemEncoding) (ttl : Z) :
  settings (fst (gbCreateItem E s data size encoding ttl)) = settings s.
Proof.
  destruct (gbCreateItem_frame s data size encoding ttl) as (? & ? & ? & ?).
  settings_eq.
Qed.

Lemma settings_destroy (s : gbServer) (it : gbItem) :
  settings (gbDestroyItem E s it) = settings s.
Proof. destruct (gbDestroyItem_frame s it) as (? & ? & ? & ?). settings_eq. Qed.

Lemma settings_node_valid (k : bytes) (it : gbItem) (s : gbServer) (r : bool) :
  settings (fst (gbIsNodeStillValid E k it s r)) = settings s.
Proof.
  unfold gbIsNodeStillValid. destruct (expired _ _); [|reflexivity].
  cbn [fst]. rewrite settings_destroy. destruct r; reflexivity.
Qed.

Lemma settings_item_valid (it : gbItem) (s : gbServer) (k : bytes) (r : bool) :
  settings (fst (gbIsItemStillValid E it s k r)) = settings s.
Proof.
  unfold gbIsItemStillValid. destruct (expired _ _); [|reflexivity].
  cbn [fst]. rewrite settings_destroy. destruct r; reflexivity.
Qed.

Lemma settings_single_set (v : bytes) (vlen : Z) (k : bytes) (s : gbServer) :
  settings (fst (gbSingleSet E v vlen k s)) = settings s.
Proof.
  unfold gbSingleSet. cbn zeta.
  set (pre := if compression s <? vlen then _ else _).
  assert (Hpre : settings (fst (fst (fst pre))) = settings s).
  { subst pre. destruct (compression s <? vlen); [|reflexivity].
    destruct (_ =? 0); [reflexivity|]. destruct (Qeq_bool _ _); reflexivity. }
  destruct pre as [[[s0 enc] data] n]. cbn [fst] in Hpre.
  pose proof (settings_create s0 (DataBuf data) n enc (-1)) as Hc.
  destruct (gbCreateItem E s0 _ _ _ _) as [s1 item]. cbn [fst] in Hc.
  unfold tr_insert. destruct (tr_find (tree s1) k) as [old|]; cbn [fst].
  - rewrite settings_destroy. settings_eq.
  - settings_eq.
Qed.

Lemma settings_promote (s : gbServer) (it : gbItem) (num delta : Z) :
  settings (fst (promote E s it num delta)) = settings s.
Proof. reflexivity. Qed.

(** Case analysis of a handler, keeping what each step does to the
    settings. *)
Local Ltac settings_steps :=
  repeat match goal with
    | |- context [gbIsNodeStillValid E ?k ?it ?s ?r] =>
        let H := fresh "Hs" in
        pose proof (settings_node_valid k it s r) as H;
        destruct (gbIsNodeStillValid E k it s r) as [? []]; cbn [fst] in H
    | |- context [gbIsItemStillValid E ?it ?s ?k ?r] =>
        let H := fresh "Hs" in
        pose proof (settings_item_valid it s k r) as H;
        destruct (gbIsItemStillValid E it s k r) as [? []]; cbn [fst] in H
    | |- context [gbSingleSet E ?v ?n ?k ?s] =>
        let H := fresh "Hs" in
        pose proof (settings_single_set v n k s) as H;
        destruct (gbSingleSet E v n k s) as [? ?]; cbn [fst] in H
    | |- context [gbCreateItem E ?s ?d ?n ?e ?t] =>
        let H := fresh "Hs" in
        pose proof (settings_create s d n e t) as H;
        destruct (gbCreateItem E s d n e t) as [? ?]; cbn [fst] in H
    | |- context [promote E ?s ?it ?n ?d] =>
        let H := fresh "Hs" in
        pose proof (settings_promote s it n d) as H;
        destruct (promote E s it n d) as [? ?]; cbn [fst] in H
    | |- context [gbDestroyItem E ?s ?it] =>
        let H := fresh "Hs" in
        let x := fresh "s" in
        pose proof (settings_destroy s it) as H;
        set (x := gbDestroyItem E s it) in *; clearbody x
    | |- context [match ?x with _ => _ end] => destruct x
    end.

Lemma settings_single_handlers (s : gbServer) (p : bytes) (delta : Z) :
  settings (fst (gbQueryGetHandler E s p)) = settings s
  /\ settings (fst (gbQuerySetHandler E s p)) = settings s
  /\ settings (fst (gbQueryTtlHandler E s p)) = settings s
  /\ settings (fst (gbQueryDelHandler E s p)) = settings s
  /\ settings (fst (gbQueryIncDecHandler E s p delta)) = settings s
  /\ settings (fst (gbQueryLockHandler E s p)) = settings s
  /\ settings (fst (gbQueryUnlockHandler E s p)) = settings s
  /\ settings (fst (gbQueryMetaHandler E s p)) = settings s.
Proof.
  repeat split.
  - unfold gbQueryGetHandler. settings_steps; cbn [fst]; settings_eq.
  - unfold gbQuerySetHandler. settings_steps; cbn [fst]; settings_eq.
  - unfold gbQueryTtlHandler. settings_steps; cbn [fst]; settings_eq.
  - unfold gbQueryDelHandler. settings_steps; cbn [fst]; settings_eq.
  - unfold gbQueryIncDecHandler. settings_steps; cbn [fst]; settings_eq.
  - unfold gbQueryLockHandler. settings_steps; cbn [fst]; settings_eq.
  - unfold gbQueryUnlockHandler. settings_steps; cbn [fst]; settings_eq.
  - unfold gbQueryMetaHandler. settings_steps; cbn [fst]; settings_eq.
Qed.

Lemma settings_callbacks :
  (forall v vlen s k it,
      settings (fst (gbMultiSetCallback E v vlen s k it)) = settings s)
  /\ (forall ttl s k it,
        settings (fst (gbMultiTtlCallback E ttl s k it)) = settings s)
  /\ (forall s k d, settings (fst (gbMultiDelCallback E s k d)) = settings s)
  /\ (forall delta s k it,
        settings (fst (gbMultiIncDecCallback E delta s k it)) = settings s)
  /\ (forall n s k it,
        settings (fst (gbMultiLockCallback E n s k it)) = settings s)
  /\ (forall s k it, settings (fst (gbMultiUnlockCallback E s k it)) = settings s)
  /\ (forall s k it, settings (fst (gbCountCallback E s k it)) = settings s).
Proof.
  repeat split; intros;
    unfold gbMultiSetCallback, gbMultiTtlCallback, gbMultiDelCallback,
      gbMultiIncDecCallback, gbMultiLockCallback, gbMultiUnlockCallback,
      gbCountCallback;
    settings_steps; cbn [fst negb andb]; settings_steps; cbn [fst];
    settings_eq.
Qed.

Lemma settings_walk (cb : gbServer -> bytes -> gbItem -> gbServer * Z) :
  (forall s k it, settings (fst (cb s k it)) = settings s) ->
  forall keys s, settings (fst (tr_walk cb keys s)) = settings s.
Proof.
  intros Hcb keys. induction keys as [|key keys IH]; intros s; [reflexivity|].
  cbn [tr_walk]. destruct (tr_find (tree s) key) as [it|].
  - specialize (Hcb s key it). destruct (cb s key it) as [s1 r].
    specialize (IH s1). destruct (tr_walk cb keys s1) as [s2 n].
    cbn [fst] in *. congruence.
  - specialize (IH s). destruct (tr_walk cb keys s) as [s2 n].
    cbn [fst] in *. congruence.
Qed.

Lemma settings_walk_nodes (cb : gbServer -> bytes -> slot -> gbServer * Z) :
  (forall s k d, settings (fst (cb s k d)) = settings s) ->
  forall keys s, settings (fst (tr_walk_nodes cb keys s)) = settings s.
Proof.
  intros Hcb keys. induction keys as [|key keys IH]; intros s; [reflexivity|].
  cbn [tr_walk_nodes]. destruct (tr_find_node (tree s) key) as [d|].
  - specialize (Hcb s key d). destruct (cb s key d) as [s1 r].
    specialize (IH s1). destruct (tr_walk_nodes cb keys s1) as [s2 n].
    cbn [fst] in *. congruence.
  - specialize (IH s). destruct (tr_walk_nodes cb keys s) as [s2 n].
    cbn [fst] in *. congruence.
Qed.

Lemma settings_mget_filter (m_keys : list bytes) (m_values : list slot)
    (s : gbServer) (found : Z) :
  settings (fst (fst (mget_filter E m_keys m_values s found))) = settings s.
Proof.
  revert m_values s found.
  induction m_keys as [|ki ks IH]; intros [|vi vs] s found; try reflexivity.
  cbn [mget_filter]. destruct vi as [item|].
  - pose proof (settings_item_valid item s (c_str ki) true) as Hv.
    destruct (gbIsItemStillValid E item s (c_str ki) true) as [s1 []];
      cbn [fst] in Hv.
    + specialize (IH vs (store_item s1 ki
                           (set_last_access_time item (time (stats s1))))
                    found).
      destruct (mget_filter E ks vs _ found) as [[s2 f2] vs2].
      cbn [fst] in *. settings_eq.
    + specialize (IH vs s1 (found - 1)).
      destruct (mget_filter E ks vs s1 (found - 1)) as [[s2 f2] vs2].
      cbn [fst] in *. congruence.
  - specialize (IH vs s (found - 1)).
    destruct (mget_filter E ks vs s (found - 1)) as [[s2 f2] vs2].
    cbn [fst] in *. congruence.
Qed.

Lemma settings_mget_search (s : gbServer) (expr : bytes) (exprlen limit : Z) :
  settings (fst (mget_search E s expr exprlen limit)) = settings s.
Proof.
  unfold mget_search, tr_search.
  set (ks := tr_matching E (tree s) _ _ _ _).
  destruct (_ =? 0); [reflexivity|].
  pose proof (settings_mget_filter ks (map (tr_find (tree s)) ks) s
                (Z.of_nat (length ks))) as Hf.
  destruct (mget_filter E ks _ s _) as [[s' n] vs']. cbn [fst] in Hf.
  destruct (n =? 0); exact Hf.
Qed.

Lemma settings_bulk (op : bulk_op) (s : gbServer) (p : bytes) :
  settings (fst (gbProcessBulk E op s p)) = settings s.
Proof.
  destruct settings_callbacks
    as (Hset & Httl & Hdel & Hinc & Hlock & Hunl & Hcnt).
  assert (Hwalk : forall cb e n l m,
             (forall s k it, settings (fst (cb s k it)) = settings s) ->
             settings (fst (tr_search_callback E s e n l m cb)) = settings s)
    by (intros; now apply settings_walk).
  destruct op; cbn [gbProcessBulk];
    unfold gbQueryMultiSetHandler, gbQueryMultiTtlHandler,
      gbQueryMultiGetHandler, gbQueryMultiDelHandler,
      gbQueryMultiIncDecHandler, gbQueryMultiLockHandler,
      gbQueryMultiUnlockHandler, gbQueryCountHandler, gbQueryKeysHandler,
      tr_count;
    repeat match goal with
      | |- context [tr_search_callback E s ?e ?n ?l ?m ?cb] =>
          let H := fresh "Hw" in
          assert (H := Hwalk cb e n l m ltac:(auto));
          destruct (tr_search_callback E s e n l m cb) as [? ?]; cbn [fst] in H
      | |- context [tr_search_nodes_callback E s ?e ?n ?m ?cb] =>
          let H := fresh "Hw" in
          assert (H := settings_walk_nodes cb Hdel
                         (tr_matching E (tree s) e n (-1) m) s);
          fold (tr_search_nodes_callback E s e n m cb) in H;
          destruct (tr_search_nodes_callback E s e n m cb) as [? ?];
          cbn [fst] in H
      | |- context [mget_search E s ?e ?n ?l] =>
          rewrite (settings_mget_search s e n l)
      | |- context [keys_stage ?ks ?i ?s0] =>
          rewrite (keys_stage_spec ks i s0);
          rewrite <- (map_map volatile_key Some), keys_unstage_spec
      | |- context [match ?x with _ => _ end] => destruct x
      end; cbn [fst]; try reflexivity; try assumption.
Qed.

End Composition.

(** ** STATS *)

(** What STATS stages: 27 volatile items under the labels of
    [stats_labels]. *)
Lemma stats_staged_spec (info : server_info) (s : gbServer) :
  exists items,
    stats_staged info s
    = mkStaged (after_pool_calls s (replicate 27 opool_alloc_object))
        (map lit stats_labels) (map Some items) 27
    /\ length items = 27%nat.
Proof.
  unfold stats_staged. destruct s as [t st lim c pool heap].
  destruct (HAVE_JEMALLOC info);
    cbn -[wrap_long c_str strlen lit long_of_double];
    (eexists [_; _; _; _; _; _; _; _; _; _; _; _; _; _; _; _; _; _; _; _; _;
              _; _; _; _; _; _];
     split; reflexivity).
Qed.

(** The reply of STATS: a key/value set of 27 pairs whose keys are the
    labels of [stats_labels], each once, in that order, and whose values
    are all there; the index, the counters and the limits are left as they
    were, and the 27 volatile items taken from the pool are given back. *)
Theorem stats_reply (info : server_info) (s : gbServer) (p : bytes) :
  exists items,
    gbQueryStatsHandler info s p
    = (after_pool_calls s
         (rev (map opool_free_object items)
          ++ replicate 27 opool_alloc_object),
       gbClientEnqueueKeyValueSet 27 (map lit stats_labels)
         (map Some items) false)
    /\ length items = 27%nat
    /\ NoDup (map lit stats_labels).
Proof.
  destruct (stats_staged_spec info s) as (items & Hst & Hlen).
  exists items. unfold gbQueryStatsHandler. rewrite Hst.
  cbn [sg_server sg_keys sg_values sg_elems].
  rewrite keys_unstage_spec, after_pool_calls_app.
  split; [reflexivity|]. split; [exact Hlen|].
  apply (bool_decide_unpack _). vm_compute. exact I.
Qed.

(** STATS writes none of the settings. *)
Lemma settings_stats (info : server_info) (s : gbServer) (p : bytes) :
  settings (fst (gbQueryStatsHandler info s p)) = settings s.
Proof.
  unfold gbQueryStatsHandler, stats_staged.
  destruct s as [t st lim c pool heap].
  destruct (HAVE_JEMALLOC info);
    cbn -[wrap_long c_str strlen lit long_of_double]; reflexivity.
Qed.

(** ** The dispatcher *)

Local Ltac all_cases :=
  repeat match goal with
    | |- context [match ?x with _ => _ end] => destruct x
    end.

(** No handler asks for the connection to be closed. *)
Lemma handlers_keep_open (E : collaborators) (info : server_info)
    (s : gbServer) (p : bytes) (delta : Z) (op : bulk_op) :
  close_of (snd (gbQueryGetHandler E s p)) = false
  /\ close_of (snd (gbQuerySetHandler E s p)) = false
  /\ close_of (snd (gbQueryTtlHandler E s p)) = false
  /\ close_of (snd (gbQueryDelHandler E s p)) = false
  /\ close_of (snd (gbQueryIncDecHandler E s p delta)) = false
  /\ close_of (snd (gbQueryLockHandler E s p)) = false
  /\ close_of (snd (gbQueryUnlockHandler E s p)) = false
  /\ close_of (snd (gbQueryMetaHandler E s p)) = false
  /\ close_of (snd (gbQueryStatsHandler info s p)) = false
  /\ close_of (snd (gbProcessBulk E op s p)) = false.
Proof.
  repeat split.
  - unfold gbQueryGetHandler. all_cases; reflexivity.
  - unfold gbQuerySetHandler. all_cases; reflexivity.
  - unfold gbQueryTtlHandler. all_cases; reflexivity.
  - unfold gbQueryDelHandler. all_cases; reflexivity.
  - unfold gbQueryIncDecHandler. all_cases; reflexivity.
  - unfold gbQueryLockHandler. all_cases; reflexivity.
  - unfold gbQueryUnlockHandler. all_cases; reflexivity.
  - unfold gbQueryMetaHandler. all_cases; reflexivity.
  - destruct op; cbn [gbProcessBulk];
      unfold gbQueryMultiSetHandler, gbQueryMultiTtlHandler,
        gbQueryMultiGetHandler, gbQueryMultiDelHandler,
        gbQueryMultiIncDecHandler, gbQueryMultiLockHandler,
        gbQueryMultiUnlockHandler, gbQueryCountHandler, gbQueryKeysHandler,
        mget_search, reply_found;
      all_cases; reflexivity.
Qed.

(** Every request counts once and only END closes: whatever the opcode,
    known or not, [gbProcessQuery] adds one to the counter of requests and
    leaves the clock, the limits and the compression threshold as they
    were; it enqueues a reply unless the opcode is unknown; and the reply
    asks for the connection to be closed exactly when the opcode is
    END. *)
Theorem process_query_counts (E : collaborators) (info : server_info)
    (op : opcode) (s : gbServer) (p : bytes) :
  let out := gbProcessQuery E info op s p in
  settings (fst out)
  = (time (stats s), limits s, compression s, requests (stats s) + 1)
  /\ (snd out = None <-> op = OP_OTHER)
  /\ (forall r, snd out = Some r -> (close_of r = true <-> op = OP_END)).
Proof.
  set (s1 := set_requests s (requests (stats s) + 1)).
  assert (Hs1 : settings s1
                = (time (stats s), limits s, compression s,
                   requests (stats s) + 1)) by reflexivity.
  destruct (settings_single_handlers E s1 p 1)
    as (Hget & Hset & Httl & Hdel & Hinc & Hlock & Hunl & Hmeta).
  destruct (settings_single_handlers E s1 p (-1)) as (_ & _ & _ & _ & Hdec & _).
  pose proof (settings_stats info s1 p) as Hstats.
  assert (Hopen : forall delta bop,
             _ /\ _ /\ _ /\ _ /\ _ /\ _ /\ _ /\ _ /\ _ /\ _)
    by (intros delta bop; exact (handlers_keep_open E info s1 p delta bop)).
  destruct (Hopen 1 OP_MSET)
    as (Cget & Cset & Cttl & Cdel & Cinc & Clock & Cunl & Cmeta & Cstats & _).
  destruct (Hopen (-1) OP_MSET) as (_ & _ & _ & _ & Cdec & _).
  assert (Cbulk : forall bop, close_of (snd (gbProcessBulk E bop s1 p)) = false)
    by (intros bop; apply (Hopen 0 bop)).
  unfold gbProcessQuery. fold s1.
  change (time (stats s), limits s, compression s, requests (stats s) + 1)
    with (settings s1).
  assert (Hsent : forall (out : gbServer * reply) (o : opcode),
             settings (fst out) = settings s1 ->
             close_of (snd out) = false -> o <> OP_END -> o <> OP_OTHER ->
             settings (fst (fst out, Some (snd out))) = settings s1
             /\ (snd (fst out, Some (snd out)) = None <-> o = OP_OTHER)
             /\ (forall r, snd (fst out, Some (snd out)) = Some r ->
                           (close_of r = true <-> o = OP_END))).
  { intros out o Hset' Hclose Hend Hother. cbn [fst snd].
    split; [exact Hset'|]. split; [split; [discriminate|contradiction]|].
    intros r [= <-]. rewrite Hclose. split; [discriminate|contradiction]. }
  destruct op.
  - apply Hsent; [exact Hget | exact Cget | discriminate | discriminate].
  - apply Hsent; [exact Hset | exact Cset | discriminate | discriminate].
  - apply Hsent; [exact Httl | exact Cttl | discriminate | discriminate].
  - apply Hsent; [exact Hdel | exact Cdel | discriminate | discriminate].
  - apply Hsent; [exact Hinc | exact Cinc | discriminate | discriminate].
  - apply Hsent; [exact Hdec | exact Cdec | discriminate | discriminate].
  - apply Hsent; [exact Hlock | exact Clock | discriminate | discriminate].
  - apply Hsent; [exact Hunl | exact Cunl | discriminate | discriminate].
  - apply Hsent; [exact Hstats | exact Cstats | discriminate | discriminate].
  - cbn [fst snd]. split; [reflexivity|]. split; [split; discriminate|].
    intros r [= <-]. split; discriminate.
  - apply Hsent; [exact Hmeta | exact Cmeta | discriminate | discriminate].
  - cbn [fst snd]. split; [reflexivity|]. split; [split; discriminate|].
    intros r [= <-]. split; reflexivity.
  - apply Hsent; [apply settings_bulk | apply Cbulk | discriminate | discriminate].
  - cbn [fst snd]. split; [reflexivity|]. split; [split; reflexivity|].
    discriminate.
Qed.

(** ** The counter of items *)

Lemma live_lookup (t : tree_t) (k : bytes) :
  filter (fun kd : bytes * slot => is_Some (snd kd)) t !! k
  = match tr_find t k with Some it => Some (Some it) | None => None end.
Proof.
  unfold tr_find. rewrite map_lookup_filter.
  destruct (t !! k) as [[it|]|]; reflexivity.
Qed.

Lemma live_insert_item (t : tree_t) (k : bytes) (x : gbItem) :
  live (<[k := Some x]> t)
  = live t + match tr_find t k with Some _ => 0 | None => 1 end.
Proof.
  unfold live. rewrite map_filter_insert_True by (cbn; eauto).
  rewrite map_size_insert, live_lookup.
  destruct (tr_find t k); cbn; lia.
Qed.

Lemma live_remove (t : tree_t) (k : bytes) (it : gbItem) :
  tr_find t k = Some it ->
  live (delete k t) = live t - 1 /\ live (<[k := None]> t) = live t - 1.
Proof.
  intros Hfind. unfold live.
  rewrite map_filter_insert_False by (cbn; intros [? ?]; discriminate).
  rewrite map_filter_delete.
  set (m := filter _ t).
  assert (Hm : m !! k = Some (Some it)) by (subst m; now rewrite live_lookup, Hfind).
  rewrite map_size_delete, Hm.
  rewrite <- (insert_id m k (Some it) Hm), <- insert_delete_eq.
  rewrite map_size_insert_None by apply lookup_delete_eq.
  cbn. split; lia.
Qed.

Section Accounting.

Variable E : collaborators.

(** Destroying the item of a key and taking it out of the index keeps the
    count. *)
Lemma counted_destroy (s : gbServer) (k : bytes) (it : gbItem) (t' : tree_t) :
  counted s -> tr_find (tree s) k = Some it ->
  t' = <[k := None]> (tree s) \/ t' = delete k (tree s) ->
  counted (gbDestroyItem E (set_tree s t') it).
Proof.
  unfold counted. intros Hc Hfind Ht'.
  rewrite gbDestroyItem_tree, gbDestroyItem_nitems. cbn [tree stats set_tree].
  destruct (live_remove (tree s) k it Hfind) as [Hd Hn].
  destruct Ht' as [->| ->]; lia.
Qed.

(** Writing through the item of a key keeps the count. *)
Lemma counted_store (s : gbServer) (k : bytes) (it it' : gbItem) :
  counted s -> tr_find (tree s) k = Some it -> counted (store_item s k it').
Proof.
  unfold counted, store_item, set_node_data. cbn [tree stats set_tree].
  intros Hc Hfind. rewrite live_insert_item, Hfind. lia.
Qed.

Lemma counted_node_valid (s : gbServer) (k : bytes) (it : gbItem) :
  counted s -> tr_find (tree s) k = Some it ->
  let r := gbIsNodeStillValid E k it s true in
  counted (fst r) /\ (snd r = true -> fst r = s).
Proof.
  intros Hc Hfind. unfold gbIsNodeStillValid.
  destruct (expired it (time (stats s))); cbn [fst snd].
  - split; [|discriminate]. apply (counted_destroy s k it); auto.
  - auto.
Qed.

Lemma counted_item_valid (s : gbServer) (k : bytes) (it : gbItem) :
  counted s -> tr_find (tree s) k = Some it ->
  let r := gbIsItemStillValid E it s k true in
  counted (fst r) /\ (snd r = true -> fst r = s).
Proof.
  intros Hc Hfind. unfold gbIsItemStillValid.
  destruct (expired it (time (stats s))); cbn [fst snd].
  - split; [|discriminate]. rewrite (tr_remove_item _ _ _ Hfind).
    apply (counted_destroy s k it); auto.
  - auto.
Qed.

Lemma counted_single_set (v : bytes) (vlen : Z) (k : bytes) (s : gbServer) :
  counted s -> counted (fst (gbSingleSet E v vlen k s)).
Proof.
  unfold counted. intros Hc.
  destruct (gbSingleSet_spec E v vlen k s)
    as (Ht & _ & _ & _ & _ & _ & _ & Hn & _).
  rewrite Ht, Hn, live_insert_item. lia.
Qed.

Lemma tr_find_of_node (t : tree_t) (k : bytes) (it : gbItem) :
  tr_find_node t k = Some (Some it) -> tr_find t k = Some it.
Proof. unfold tr_find, tr_find_node. now intros ->. Qed.

Lemma tr_find_store (s : gbServer) (k : bytes) (it : gbItem) :
  tr_find (tree (store_item s k it)) k = Some it.
Proof.
  unfold tr_find, store_item, set_node_data. cbn [tree set_tree].
  now rewrite lookup_insert_eq.
Qed.

Lemma counted_get (s : gbServer) (p : bytes) :
  counted s -> counted (fst (gbQueryGetHandler E s p)).
Proof.
  intros Hc. unfold gbQueryGetHandler.
  destruct (gbParseKeyValue _ p _ false) as [kv|]; [|exact Hc].
  destruct (tr_find_node (tree s) (p_key kv)) as [[it|]|] eqn:Hn;
    try exact Hc.
  apply tr_find_of_node in Hn.
  destruct (counted_node_valid s (p_key kv) it Hc Hn) as [Hc1 Hsame].
  destruct (gbIsNodeStillValid E (p_key kv) it s true) as [s1 []];
    cbn [fst snd] in *; [|exact Hc1].
  rewrite (Hsame eq_refl). now apply (counted_store s (p_key kv) it).
Qed.

Lemma counted_unlock (s : gbServer) (p : bytes) :
  counted s -> counted (fst (gbQueryUnlockHandler E s p)).
Proof.
  intros Hc. unfold gbQueryUnlockHandler.
  destruct (gbParseKeyValue _ p _ false) as [kv|]; [|exact Hc].
  destruct (tr_find_node (tree s) (p_key kv)) as [[it|]|] eqn:Hn;
    try exact Hc.
  apply tr_find_of_node in Hn.
  destruct (counted_node_valid s (p_key kv) it Hc Hn) as [Hc1 Hsame].
  destruct (gbIsNodeStillValid E (p_key kv) it s true) as [s1 []];
    cbn [fst snd] in *; [|exact Hc1].
  rewrite (Hsame eq_refl). now apply (counted_store s (p_key kv) it).
Qed.

Lemma counted_meta (s : gbServer) (p : bytes) :
  counted s -> counted (fst (gbQueryMetaHandler E s p)).
Proof.
  intros Hc. unfold gbQueryMetaHandler.
  destruct (gbParseKeyValue _ p _ true) as [kv|]; [|exact Hc].
  destruct (tr_find_node (tree s) (p_key kv)) as [[it|]|] eqn:Hn;
    try exact Hc.
  apply tr_find_of_node in Hn.
  destruct (counted_node_valid s (p_key kv) it Hc Hn) as [Hc1 Hsame].
  destruct (gbIsNodeStillValid E (p_key kv) it s true) as [s1 []];
    cbn [fst snd] in *; [|exact Hc1].
  rewrite (Hsame eq_refl). now apply (counted_store s (p_key kv) it).
Qed.

Lemma counted_lock (s : gbServer) (p : bytes) :
  counted s -> counted (fst (gbQueryLockHandler E s p)).
Proof.
  intros Hc. unfold gbQueryLockHandler.
  destruct (gbParseKeyValue _ p _ true) as [kv|]; [|exact Hc].
  destruct (tr_find_node (tree s) (p_key kv)) as [[it|]|] eqn:Hn;
    try exact Hc.
  apply tr_find_of_node in Hn.
  destruct (counted_node_valid s (p_key kv) it Hc Hn) as [Hc1 Hsame].
  destruct (gbIsNodeStillValid E (p_key kv) it s true) as [s1 []];
    cbn [fst snd] in *; [|exact Hc1].
  rewrite (Hsame eq_refl).
  destruct (gbQueryParseLong _ _) as [n|]; [|exact Hc].
  set (it1 := set_last_access_time it (time (stats s))).
  assert (Hc2 : counted (store_item s (p_key kv) it1))
    by now apply (counted_store s (p_key kv) it).
  destruct (negb _); cbn [fst]; [|exact Hc2].
  apply (counted_store _ (p_key kv) it1); [exact Hc2 | apply tr_find_store].
Qed.

Lemma counted_ttl (s : gbServer) (p : bytes) :
  counted s -> counted (fst (gbQueryTtlHandler E s p)).
Proof.
  intros Hc. unfold gbQueryTtlHandler.
  destruct (gbParseKeyValue _ p _ true) as [kv|]; [|exact Hc].
  destruct (tr_find (tree s) (p_key kv)) as [it|] eqn:Hn; [|exact Hc].
  destruct (counted_item_valid s (p_key kv) it Hc Hn) as [Hc1 Hsame].
  destruct (gbIsItemStillValid E it s (p_key kv) true) as [s1 []];
    cbn [fst snd] in *; [|exact Hc1].
  rewrite (Hsame eq_refl).
  destruct (gbQueryParseLong _ _) as [n|]; [|exact Hc].
  now apply (counted_store s (p_key kv) it).
Qed.

Lemma counted_del (s : gbServer) (p : bytes) :
  counted s -> counted (fst (gbQueryDelHandler E s p)).
Proof.
  intros Hc. unfold gbQueryDelHandler.
  destruct (gbParseKeyValue _ p _ false) as [kv|]; [|exact Hc].
  destruct (tr_find_node (tree s) (p_key kv)) as [[it|]|] eqn:Hn;
    try exact Hc.
  apply tr_find_of_node in Hn.
  destruct (gbItemIsLocked it s 0); [exact Hc|].
  destruct (counted_node_valid s (p_key kv) it Hc Hn) as [Hc1 Hsame].
  destruct (gbIsNodeStillValid E (p_key kv) it s true) as [s1 []];
    cbn [fst snd] in *; [|exact Hc1].
  rewrite (Hsame eq_refl). unfold counted, set_node_data.
  cbn [tree stats set_tree].
  rewrite gbDestroyItem_tree, gbDestroyItem_nitems.
  destruct (live_remove (tree s) (p_key kv) it Hn) as [_ Hl].
  unfold counted in Hc. lia.
Qed.

Lemma counted_set (s : gbServer) (p : bytes) :
  counted s -> counted (fst (gbQuerySetHandler E s p)).
Proof.
  intros Hc. unfold gbQuerySetHandler.
  destruct (_ <=? _); [|exact Hc].
  destruct (gbParseTtlKeyValue _ p _ true) as [r|]; [|exact Hc].
  destruct (gbQueryParseLong _ _) as [ttl|]; [|exact Hc].
  assert (Hgo : counted
    (fst (let '(s0, item) :=
            gbSingleSet E (default [] (p_value (p_kv r))) (p_vlen (p_kv r))
              (p_key (p_kv r)) s in
          if 0 <? ttl
          then
            (store_item s0 (p_key (p_kv r))
               (set_ttl (set_time item (time (stats s0)))
                  (min (maxitemttl (limits s0)) ttl)),
             gbClientEnqueueItem REPL_VAL
               (set_ttl (set_time item (time (stats s0)))
                  (min (maxitemttl (limits s0)) ttl)) false)
          else (s0, gbClientEnqueueItem REPL_VAL item false)))).
  { pose proof (counted_single_set (default [] (p_value (p_kv r)))
                  (p_vlen (p_kv r)) (p_key (p_kv r)) s Hc) as Hc1.
    destruct (gbSingleSet_spec E (default [] (p_value (p_kv r)))
                (p_vlen (p_kv r)) (p_key (p_kv r)) s) as (Ht & _).
    destruct (gbSingleSet E _ _ _ s) as [s0 item]. cbn [fst snd] in *.
    destruct (0 <? ttl); cbn [fst]; [|exact Hc1].
    apply (counted_store s0 (p_key (p_kv r)) item); [exact Hc1|].
    unfold tr_find. now rewrite Ht, lookup_insert_eq. }
  destruct (tr_find (tree s) (p_key (p_kv r))) as [it|]; [|exact Hgo].
  destruct (gbItemIsLocked it s 0); [exact Hc | exact Hgo].
Qed.

Lemma counted_incdec (s : gbServer) (p : bytes) (delta : Z) :
  counted s -> counted (fst (gbQueryIncDecHandler E s p delta)).
Proof.
  intros Hc. unfold gbQueryIncDecHandler.
  destruct (gbParseKeyValue _ p _ false) as [kv|]; [|exact Hc].
  set (k := p_key kv).
  assert (Hnew : tr_find (tree s) k = None ->
    forall s1 item,
      gbCreateItem E s (DataLong 1) sizeof_long GB_ENC_NUMBER (-1) = (s1, item) ->
      counted (set_tree s1 (<[k := Some item]> (tree s1)))).
  { intros Hnone s1 item Hmk.
    pose proof (gbCreateItem_spec E s (DataLong 1) sizeof_long GB_ENC_NUMBER (-1))
      as (_ & Ht & _ & Hn).
    rewrite Hmk in Ht, Hn. cbn [fst] in Ht, Hn.
    unfold counted. cbn [tree stats set_tree].
    rewrite Ht, Hn, live_insert_item, Hnone. unfold counted in Hc. lia. }
  unfold tr_find_node.
  destruct (tree s !! k) as [[it|]|] eqn:Hn.
  - assert (Hf : tr_find (tree s) k = Some it)
      by (unfold tr_find; now rewrite Hn).
    destruct (counted_node_valid s k it Hc Hf) as [Hc1 Hsame].
    destruct (gbIsNodeStillValid E k it s true) as [s1 []];
      cbn [fst snd negb] in *; [|exact Hc1].
    rewrite (Hsame eq_refl).
    destruct (gbItemIsLocked it s 0); [exact Hc|].
    set (it1 := set_last_access_time it (time (stats s))).
    assert (Hc2 : counted (store_item s k it1))
      by now apply (counted_store s k it).
    destruct (encoding_eqb (i_encoding it1) GB_ENC_NUMBER); cbn [fst].
    + apply (counted_store _ k it1); [exact Hc2 | apply tr_find_store].
    + destruct (if encoding_eqb _ _ then _ else _) as [num|]; [|exact Hc2].
      unfold promote. cbn [fst].
      apply (counted_store _ k it1); [exact Hc2 | apply tr_find_store].
  - assert (Hf : tr_find (tree s) k = None)
      by (unfold tr_find; now rewrite Hn).
    destruct (gbCreateItem E s _ _ _ _) as [s1 item] eqn:Hmk. cbn [fst].
    apply Hnew; auto.
  - assert (Hf : tr_find (tree s) k = None)
      by (unfold tr_find; now rewrite Hn).
    destruct (gbCreateItem E s _ _ _ _) as [s1 item] eqn:Hmk. cbn [fst].
    apply Hnew; auto.
Qed.

(** The count of items is kept: when [nitems] is the number of keys of
    the index that hold an item, it still is after any single-key request,
    whatever the request does: read, write, delete, lock, create a number
    or find an item expired. *)
Theorem single_key_counted (s : gbServer) (p : bytes) (delta : Z) :
  counted s ->
  counted (fst (gbQueryGetHandler E s p))
  /\ counted (fst (gbQuerySetHandler E s p))
  /\ counted (fst (gbQueryTtlHandler E s p))
  /\ counted (fst (gbQueryDelHandler E s p))
  /\ counted (fst (gbQueryIncDecHandler E s p delta))
  /\ counted (fst (gbQueryLockHandler E s p))
  /\ counted (fst (gbQueryUnlockHandler E s p))
  /\ counted (fst (gbQueryMetaHandler E s p)).
Proof.
  intros Hc.
  pose proof (counted_get s p Hc). pose proof (counted_set s p Hc).
  pose proof (counted_ttl s p Hc). pose proof (counted_del s p Hc).
  pose proof (counted_incdec s p delta Hc). pose proof (counted_lock s p Hc).
  pose proof (counted_unlock s p Hc). pose proof (counted_meta s p Hc).
  auto 10.
Qed.

End Accounting.

(** ** The counter of items under the bulk requests *)

Lemma c_str_id (key : bytes) : NUL ∉ key -> c_str key = key.
Proof.
  induction key as [|c key IH]; [reflexivity|].
  intros Hnul. cbn [c_str]. unfold byte_eqb.
  destruct (Ascii.eqb_spec c NUL) as [->|_].
  - exfalso. apply Hnul. left.
  - f_equal. apply IH. intros Hin. apply Hnul. now right.
Qed.

Section Invariant.

Variable E : collaborators.

Lemma counted_walk (cb : gbServer -> bytes -> gbItem -> gbServer * Z) :
  keeps_count cb ->
  forall keys s,
    Forall (fun key => NUL ∉ key) keys -> counted s ->
    counted (fst (tr_walk cb keys s)).
Proof.
  intros Hcb keys. induction keys as [|key keys IH]; intros s Hk Hc;
    [exact Hc|].
  apply Forall_cons in Hk as [Hkey Hk]. cbn [tr_walk].
  destruct (tr_find (tree s) key) as [item|] eqn:Hfind.
  - pose proof (Hcb s key item Hc Hfind (c_str_id key Hkey)) as Hc1.
    destruct (cb s key item) as [s1 r]. cbn [fst] in Hc1.
    specialize (IH s1 Hk Hc1). destruct (tr_walk cb keys s1) as [s2 n].
    exact IH.
  - specialize (IH s Hk Hc). destruct (tr_walk cb keys s) as [s2 n].
    exact IH.
Qed.

Local Ltac check_valid s key item Hc Hfind :=
  let Hc1 := fresh "Hc1" in
  let Hsame := fresh "Hsame" in
  let s1 := fresh "s1" in
  destruct (counted_item_valid E s key item Hc Hfind) as [Hc1 Hsame];
  destruct (gbIsItemStillValid E item s key true) as [s1 []];
  cbn [fst snd negb andb] in *;
  [rewrite (Hsame eq_refl) in *; clear Hsame | exact Hc1].

Lemma counted_mset_callback (v : bytes) (vlen : Z) :
  keeps_count (gbMultiSetCallback E v vlen).
Proof.
  intros s key item Hc Hfind Hkey. unfold gbMultiSetCallback. rewrite Hkey.
  destruct (gbItemIsLocked item s 0); [exact Hc|].
  check_valid s key item Hc Hfind.
  now apply counted_single_set.
Qed.

Lemma counted_mttl_callback (ttl : Z) : keeps_count (gbMultiTtlCallback E ttl).
Proof.
  intros s key item Hc Hfind Hkey. unfold gbMultiTtlCallback. rewrite Hkey.
  check_valid s key item Hc Hfind.
  now apply (counted_store s key item).
Qed.

Lemma counted_mincdec_callback (delta : Z) :
  keeps_count (gbMultiIncDecCallback E delta).
Proof.
  intros s key item Hc Hfind Hkey. unfold gbMultiIncDecCallback. rewrite Hkey.
  destruct (gbItemIsLocked item s 0); [exact Hc|].
  check_valid s key item Hc Hfind.
  set (it1 := set_last_access_time item (time (stats s))).
  assert (Hc2 : counted (store_item s key it1))
    by now apply (counted_store s key item).
  destruct (encoding_eqb (i_encoding it1) GB_ENC_NUMBER); cbn [fst].
  - apply (counted_store _ key it1); [exact Hc2 | apply tr_find_store].
  - destruct (encoding_eqb (i_encoding it1) GB_ENC_PLAIN); [|exact Hc2].
    destruct (gbQueryParseLong _ _) as [num|]; [|exact Hc2].
    unfold promote. cbn [fst].
    apply (counted_store _ key it1); [exact Hc2 | apply tr_find_store].
Qed.

Lemma counted_mlock_callback (n : Z) : keeps_count (gbMultiLockCallback E n).
Proof.
  intros s key item Hc Hfind Hkey. unfold gbMultiLockCallback. rewrite Hkey.
  check_valid s key item Hc Hfind.
  destruct (negb _); [|exact Hc].
  now apply (counted_store s key item).
Qed.

Lemma counted_munlock_callback : keeps_count (gbMultiUnlockCallback E).
Proof.
  intros s key item Hc Hfind Hkey. unfold gbMultiUnlockCallback. rewrite Hkey.
  check_valid s key item Hc Hfind.
  now apply (counted_store s key item).
Qed.

Lemma counted_count_callback : keeps_count (gbCountCallback E).
Proof.
  intros s key item Hc Hfind Hkey. unfold gbCountCallback. rewrite Hkey.
  check_valid s key item Hc Hfind.
  now apply (counted_store s key item).
Qed.

Lemma counted_mdel_walk (keys : list bytes) (s : gbServer) :
  counted s -> counted (fst (tr_walk_nodes (gbMultiDelCallback E) keys s)).
Proof.
  revert s. induction keys as [|key keys IH]; intros s Hc; [exact Hc|].
  cbn [tr_walk_nodes].
  assert (Hstep : counted
            (fst match tr_find_node (tree s) key with
                 | Some d => gbMultiDelCallback E s key d
                 | None => (s, 0)
                 end)).
  { destruct (tr_find_node (tree s) key) as [[item|]|] eqn:Hn;
      try exact Hc.
    apply tr_find_of_node in Hn. unfold gbMultiDelCallback.
    destruct (gbItemIsLocked item s 0); [exact Hc|].
    destruct (counted_node_valid E s key item Hc Hn) as [Hc1 Hsame].
    destruct (gbIsNodeStillValid E key item s true) as [s1 []];
      cbn [fst snd] in *; [|exact Hc1].
    rewrite (Hsame eq_refl).
    apply (counted_destroy E s key item); auto. }
  destruct (match tr_find_node (tree s) key with
            | Some d => gbMultiDelCallback E s key d
            | None => (s, 0)
            end) as [s1 r].
  cbn [fst] in Hstep. specialize (IH s1 Hstep).
  destruct (tr_walk_nodes _ keys s1) as [s2 n]. exact IH.
Qed.

(** MGET works on the items that the search found: as long as no key
    comes twice, each is still the item of its key when its turn comes. *)
Lemma counted_mget_filter (s0 : gbServer) (keys : list bytes) :
  forall (s : gbServer) (found : Z),
    NoDup keys -> Forall (fun key => NUL ∉ key) keys ->
    counted s ->
    (forall key, key ∈ keys -> tr_find (tree s) key = tr_find (tree s0) key) ->
    counted (fst (fst (mget_filter E keys (map (tr_find (tree s0)) keys)
                         s found))).
Proof.
  induction keys as [|ki keys IH]; intros s found Hnd Hk Hc Hsnap;
    [exact Hc|].
  apply NoDup_cons in Hnd as [Hnotin Hnd].
  apply Forall_cons in Hk as [Hkey Hk].
  cbn [map mget_filter]. rewrite (c_str_id ki Hkey).
  assert (Hki : tr_find (tree s) ki = tr_find (tree s0) ki)
    by (apply Hsnap; left).
  assert (Hrest : forall t' : tree_t,
             (forall key, key <> ki -> t' !! key = tree s !! key) ->
             forall key, key ∈ keys ->
                         tr_find t' key = tr_find (tree s0) key).
  { intros t' Ht' key Hin. rewrite <- (Hsnap key) by now right.
    unfold tr_find. rewrite Ht'; [reflexivity|].
    intros ->. contradiction. }
  destruct (tr_find (tree s0) ki) as [item|].
  - destruct (counted_item_valid E s ki item Hc Hki) as [Hc1 Hsame].
    pose proof (gbDestroyItem_tree E (set_tree s (tr_remove (tree s) ki)) item)
      as Htree.
    unfold gbIsItemStillValid in *.
    destruct (expired item (time (stats s))); cbn [fst snd] in *.
    + specialize (IH _ (found - 1) Hnd Hk Hc1).
      destruct (mget_filter E keys _ _ (found - 1)) as [[s2 f2] vs].
      apply IH. apply Hrest. intros key Hne. rewrite Htree.
      cbn [tree set_tree]. now apply tr_remove_ne.
    + set (it1 := set_last_access_time item (time (stats s))).
      specialize (IH (store_item s ki it1) found Hnd Hk
                    (counted_store s ki item it1 Hc Hki)).
      destruct (mget_filter E keys _ _ found) as [[s2 f2] vs].
      apply IH. apply Hrest. intros key Hne.
      unfold store_item, set_node_data. cbn [tree set_tree].
      now apply lookup_insert_ne.
  - specialize (IH s (found - 1) Hnd Hk Hc).
    destruct (mget_filter E keys _ s (found - 1)) as [[s2 f2] vs].
    apply IH. apply Hrest. reflexivity.
Qed.

Lemma counted_mget_search (s : gbServer) (expr : bytes) (exprlen limit : Z) :
  let keys := tr_matching E (tree s) expr exprlen limit (maxkeysize (limits s)) in
  NoDup keys -> Forall (fun key => NUL ∉ key) keys ->
  counted s -> counted (fst (mget_search E s expr exprlen limit)).
Proof.
  intros keys Hnd Hk Hc. unfold mget_search, tr_search. fold keys.
  destruct (_ =? 0); [exact Hc|].
  pose proof (counted_mget_filter s keys s (Z.of_nat (length keys)) Hnd Hk Hc
                (fun _ _ => eq_refl)) as Hf.
  destruct (mget_filter E keys _ s _) as [[s1 n] vs]. cbn [fst] in Hf.
  destruct (n =? 0); exact Hf.
Qed.

Lemma counted_pool_calls (s : gbServer) (ops : list pool_op) :
  counted s -> counted (after_pool_calls s ops).
Proof. intros Hc. exact Hc. Qed.

Lemma counted_keys (s : gbServer) (p : bytes) :
  counted s -> counted (fst (gbQueryKeysHandler E s p)).
Proof.
  intros Hc. unfold gbQueryKeysHandler, tr_search.
  destruct (gbParseKeyValue _ p _ false) as [kv|]; [|exact Hc].
  destruct (_ =? 0); [exact Hc|].
  rewrite keys_stage_spec. rewrite <- (map_map volatile_key Some).
  cbn [fst]. rewrite keys_unstage_spec. exact Hc.
Qed.

Lemma counted_stats (info : server_info) (s : gbServer) (p : bytes) :
  counted s -> counted (fst (gbQueryStatsHandler info s p)).
Proof.
  unfold gbQueryStatsHandler, stats_staged, counted.
  destruct s as [t st lim c pool heap].
  destruct (HAVE_JEMALLOC info);
    cbn -[wrap_long c_str strlen lit long_of_double live]; auto.
Qed.

Lemma counted_bulk (op : bulk_op) (s : gbServer) (p : bytes) :
  counted s ->
  (forall q, bulk_pattern op s p = Some q -> search_sound E s q) ->
  counted (fst (gbProcessBulk E op s p)).
Proof.
  intros Hc Hq.
  assert (Hwalk : forall cb kv,
             keeps_count cb -> search_sound E s (kv, -1) ->
             counted (fst (tr_search_callback E s (p_key kv) (p_klen kv) (-1)
                             (maxkeysize (limits s)) cb))).
  { intros cb kv Hcb [_ Hk]. unfold tr_search_callback.
    now apply counted_walk. }
  destruct op; cbn [gbProcessBulk bulk_pattern] in *.
  - unfold gbQueryMultiSetHandler. destruct (_ <=? _); [|exact Hc].
    destruct (gbParseKeyValue _ p _ true) as [kv|]; [|exact Hc].
    specialize (Hwalk (gbMultiSetCallback E (default [] (p_value kv))
                         (p_vlen kv)) kv
                  (counted_mset_callback _ _) (Hq _ eq_refl)).
    destruct (tr_search_callback _ _ _ _ _ _ _) as [s1 n]. exact Hwalk.
  - unfold gbQueryMultiTtlHandler.
    destruct (gbParseKeyValue _ p _ true) as [kv|]; [|exact Hc].
    destruct (gbQueryParseLong _ _) as [ttl|]; [|exact Hc].
    specialize (Hwalk (gbMultiTtlCallback E ttl) kv
                  (counted_mttl_callback _) (Hq _ eq_refl)).
    destruct (tr_search_callback _ _ _ _ _ _ _) as [s1 n]. exact Hwalk.
  - unfold gbQueryMultiGetHandler.
    destruct (gbParseKeyAndOptionalValue _ p _ true) as [kv|]; [|exact Hc].
    cbn [mbind option_bind] in Hq. unfold mget_limit in Hq.
    destruct (p_value kv) as [v|].
    + destruct (p_vlen kv =? 0).
      * destruct (Hq _ eq_refl). now apply counted_mget_search.
      * destruct (gbQueryParseLong v (p_vlen kv)) as [limit|]; [|exact Hc].
        destruct (Hq _ eq_refl). now apply counted_mget_search.
    + destruct (Hq _ eq_refl). now apply counted_mget_search.
  - unfold gbQueryMultiDelHandler, tr_search_nodes_callback.
    destruct (gbParseKeyValue _ p _ false) as [kv|]; [|exact Hc].
    pose proof (counted_mdel_walk
                  (tr_matching E (tree s) (p_key kv) (p_klen kv) (-1)
                     (maxkeysize (limits s))) s Hc) as Hd.
    destruct (tr_walk_nodes _ _ s) as [s1 n]. exact Hd.
  - unfold gbQueryMultiIncDecHandler.
    destruct (gbParseKeyValue _ p _ false) as [kv|]; [|exact Hc].
    specialize (Hwalk (gbMultiIncDecCallback E 1) kv
                  (counted_mincdec_callback _) (Hq _ eq_refl)).
    destruct (tr_search_callback _ _ _ _ _ _ _) as [s1 n]. exact Hwalk.
  - unfold gbQueryMultiIncDecHandler.
    destruct (gbParseKeyValue _ p _ false) as [kv|]; [|exact Hc].
    specialize (Hwalk (gbMultiIncDecCallback E (-1)) kv
                  (counted_mincdec_callback _) (Hq _ eq_refl)).
    destruct (tr_search_callback _ _ _ _ _ _ _) as [s1 n]. exact Hwalk.
  - unfold gbQueryMultiLockHandler.
    destruct (gbParseKeyValue _ p _ true) as [kv|]; [|exact Hc].
    destruct (gbQueryParseLong _ _) as [n|]; [|exact Hc].
    specialize (Hwalk (gbMultiLockCallback E n) kv
                  (counted_mlock_callback _) (Hq _ eq_refl)).
    destruct (tr_search_callback _ _ _ _ _ _ _) as [s1 m]. exact Hwalk.
  - unfold gbQueryMultiUnlockHandler.
    destruct (gbParseKeyValue _ p _ false) as [kv|]; [|exact Hc].
    specialize (Hwalk (gbMultiUnlockCallback E) kv
                  counted_munlock_callback (Hq _ eq_refl)).
    destruct (tr_search_callback _ _ _ _ _ _ _) as [s1 n]. exact Hwalk.
  - unfold gbQueryCountHandler, tr_count.
    destruct (gbParseKeyValue _ p _ false) as [kv|]; [|exact Hc].
    specialize (Hwalk (gbCountCallback E) kv
                  counted_count_callback (Hq _ eq_refl)).
    destruct (tr_search_callback _ _ _ _ _ _ _) as [s1 n]. exact Hwalk.
  - now apply counted_keys.
Qed.

(** The count of items is an invariant of the server: when [nitems] is
    the number of keys of the index that hold an item, it still is after
    any request that [gbProcessQuery] serves, whatever the opcode and the
    payload, as long as the search of the index hands a bulk request each
    matching key once and as a C string. *)
Theorem process_query_counted (info : server_info) (op : opcode)
    (s : gbServer) (p : bytes) :
  counted s ->
  (forall bop q, op = OP_BULK bop -> bulk_pattern bop s p = Some q ->
                 search_sound E s q) ->
  counted (fst (gbProcessQuery E info op s p)).
Proof.
  intros Hc Hq. unfold gbProcessQuery.
  set (s1 := set_requests s (requests (stats s) + 1)).
  assert (Hc1 : counted s1) by exact Hc.
  destruct op; cbn [fst snd].
  - now apply counted_get.
  - now apply counted_set.
  - now apply counted_ttl.
  - now apply counted_del.
  - now apply counted_incdec.
  - now apply counted_incdec.
  - now apply counted_lock.
  - now apply counted_unlock.
  - now apply counted_stats.
  - exact Hc1.
  - now apply counted_meta.
  - exact Hc1.
  - apply counted_bulk; [exact Hc1|].
    intros q Hpat. exact (Hq op q eq_refl Hpat).
  - exact Hc1.
Qed.

End Invariant.

(** ** COUNT *)

Section Count.

Variable E : collaborators.

Lemma count_walk (s0 : gbServer) (keys : list bytes) :
  forall s : gbServer,
    NoDup keys -> Forall (fun key => NUL ∉ key) keys ->
    time (stats s) = time (stats s0) ->
    (forall key, key ∈ keys -> tr_find (tree s) key = tr_find (tree s0) key) ->
    snd (tr_walk (gbCountCallback E) keys s)
    = Z.of_nat (length (filter (fun key => Is_true (valid_item s0 key)) keys)).
Proof.
  induction keys as [|ki keys IH]; intros s Hnd Hk Htime Hsnap;
    [reflexivity|].
  apply NoDup_cons in Hnd as [Hnotin Hnd].
  apply Forall_cons in Hk as [Hkey Hk].
  cbn [tr_walk].
  assert (Hki : tr_find (tree s) ki = tr_find (tree s0) ki)
    by (apply Hsnap; left).
  assert (Hrest : forall t' : tree_t,
             (forall key, key <> ki -> t' !! key = tree s !! key) ->
             forall key, key ∈ keys ->
                         tr_find t' key = tr_find (tree s0) key).
  { intros t' Ht' key Hin. rewrite <- (Hsnap key) by now right.
    unfold tr_find. rewrite Ht'; [reflexivity|].
    intros ->. contradiction. }
  rewrite Hki.
  destruct (tr_find (tree s0) ki) as [item|] eqn:H0.
  - unfold gbCountCallback, gbIsItemStillValid.
    rewrite (c_str_id ki Hkey), Htime.
    destruct (expired item (time (stats s0))) eqn:Hexp.
    + rewrite filter_cons_False
        by (unfold valid_item; rewrite H0, Hexp; cbn; tauto).
      specialize (IH (gbDestroyItem E (set_tree s (tr_remove (tree s) ki)) item)
                    Hnd Hk).
      cbv beta iota zeta. cbn [negb].
      destruct (tr_walk _ keys _) as [s2 n]. cbn [snd] in *.
      rewrite IH; [lia| |].
      * destruct (gbDestroyItem_frame E (set_tree s (tr_remove (tree s) ki)) item)
          as [-> _]. exact Htime.
      * apply Hrest. intros key Hne. rewrite gbDestroyItem_tree.
        cbn [tree set_tree]. now apply tr_remove_ne.
    + rewrite filter_cons_True
        by (unfold valid_item; rewrite H0, Hexp; exact I).
      specialize (IH (store_item s ki
                        (set_last_access_time item (time (stats s)))) Hnd Hk).
      cbv beta iota zeta. cbn [negb].
      destruct (tr_walk _ keys _) as [s2 n]. cbn [snd length] in *.
      rewrite IH; [lia|exact Htime|].
      apply Hrest. intros key Hne.
      unfold store_item, set_node_data. cbn [tree set_tree].
      now apply lookup_insert_ne.
  - rewrite filter_cons_False by (unfold valid_item; rewrite H0; cbn; tauto).
    specialize (IH s Hnd Hk Htime).
    destruct (tr_walk _ keys s) as [s2 n]. cbn [snd] in *.
    rewrite IH; [lia|]. apply Hrest. reflexivity.
Qed.

(** COUNT counts what is alive: its reply is [REPL_VAL] with the number
    of matching keys that hold an item which has not expired; a key
    without item or with an expired one is not counted. *)
Theorem count_valid_items (s : gbServer) (p : bytes) (kv : parsed_kv) :
  gbParseKeyValue (limits s) p (payload_size p) false = Some kv ->
  search_sound E s (kv, -1) ->
  snd (gbQueryCountHandler E s p)
  = number_reply
      (Z.of_nat (length (filter (fun key => Is_true (valid_item s key))
                           (bulk_matches E s (kv, -1))))).
Proof.
  intros Hparse [Hnd Hk]. unfold gbQueryCountHandler, tr_count,
    tr_search_callback. rewrite Hparse.
  pose proof (count_walk s (bulk_matches E s (kv, -1)) s Hnd Hk eq_refl
                (fun _ _ => eq_refl)) as Hw.
  unfold bulk_matches in *. cbn [fst snd] in *.
  destruct (tr_walk _ _ s) as [s1 n]. cbn [snd] in *. now rewrite Hw.
Qed.

End Count.

(** ** The limit of MGET *)

Section MgetLimit.

Variable E : collaborators.

(** What the filter of MGET leaves staged when the search handed it each
    key once and as a C string: for every key what [mget_value] tells of
    the server the request came to. *)
Lemma mget_filter_sound (s0 : gbServer) (keys : list bytes) :
  forall (s : gbServer) (found : Z),
    NoDup keys -> Forall (fun key => NUL ∉ key) keys ->
    time (stats s) = time (stats s0) ->
    (forall key, key ∈ keys -> tr_find (tree s) key = tr_find (tree s0) key) ->
    snd (mget_filter E keys (map (tr_find (tree s0)) keys) s found)
    = map (mget_value s0) keys.
Proof.
  induction keys as [|ki keys IH]; intros s found Hnd Hk Htime Hsnap;
    [reflexivity|].
  apply NoDup_cons in Hnd as [Hnotin Hnd].
  apply Forall_cons in Hk as [Hkey Hk].
  cbn [map mget_filter]. rewrite (c_str_id ki Hkey).
  assert (Hrest : forall t' : tree_t,
             (forall key, key <> ki -> t' !! key = tree s !! key) ->
             forall key, key ∈ keys ->
                         tr_find t' key = tr_find (tree s0) key).
  { intros t' Ht' key Hin. rewrite <- (Hsnap key) by now right.
    unfold tr_find. rewrite Ht'; [reflexivity|].
    intros ->. contradiction. }
  destruct (tr_find (tree s0) ki) as [item|] eqn:H0.
  - unfold gbIsItemStillValid. rewrite Htime.
    destruct (expired item (time (stats s0))) eqn:Hexp.
    + assert (Hval : mget_value s0 ki = None)
        by (unfold mget_value; now rewrite H0, Hexp).
      specialize (IH (gbDestroyItem E (set_tree s (tr_remove (tree s) ki)) item)
                    (found - 1) Hnd Hk).
      cbv beta iota zeta.
      destruct (mget_filter E keys _ _ (found - 1)) as [[s2 f2] vs].
      cbn [snd] in *. rewrite Hval. f_equal. apply IH.
      * destruct (gbDestroyItem_frame E (set_tree s (tr_remove (tree s) ki)) item)
          as [-> _]. exact Htime.
      * apply Hrest. intros key Hne. rewrite gbDestroyItem_tree.
        cbn [tree set_tree]. now apply tr_remove_ne.
    + assert (Hval : mget_value s0 ki
                     = Some (set_last_access_time item (time (stats s0))))
        by (unfold mget_value; now rewrite H0, Hexp).
      specialize (IH (store_item s ki
                        (set_last_access_time item (time (stats s))))
                    found Hnd Hk).
      cbv beta iota zeta.
      destruct (mget_filter E keys _ _ found) as [[s2 f2] vs].
      cbn [snd] in *. rewrite Hval, Htime. f_equal. apply IH; [exact Htime|].
      apply Hrest. intros key Hne.
      unfold store_item, set_node_data. cbn [tree set_tree].
      now apply lookup_insert_ne.
  - assert (Hval : mget_value s0 ki = None)
      by (unfold mget_value; now rewrite H0).
    specialize (IH s (found - 1) Hnd Hk Htime).
    destruct (mget_filter E keys _ s (found - 1)) as [[s2 f2] vs].
    cbn [snd] in *. rewrite Hval. f_equal. apply IH. apply Hrest. reflexivity.
Qed.

(** C10: the second token of an MGET request is the limit of its search.
    When it is there and is not a number the reply is [REPL_ERR_NAN] and
    the server is returned as it was, whatever the index would match.
    When it is a number the keys gathered are those of the search of the
    index under that limit, and under the limit -1 when there is no
    token: without such a key the reply is [REPL_ERR_NOT_FOUND] and
    nothing changes; the keys of a set sent are those keys; and when the
    search hands each key once and as a C string, the reply is the set of
    those keys with the items they hold, counted by the items that have
    not expired, or [REPL_ERR_NOT_FOUND] when none is left. *)
Theorem mget_optional_limit (s : gbServer) (p : bytes) (kv : parsed_kv) :
  gbParseKeyAndOptionalValue (limits s) p (payload_size p) true = Some kv ->
  let gathered (limit : Z) :=
    tr_matching E (tree s) (p_key kv) (p_klen kv) limit
      (maxkeysize (limits s)) in
  let searched_with (limit : Z) : Prop :=
    (gathered limit = [] ->
       gbQueryMultiGetHandler E s p
       = (s, gbClientEnqueueCode REPL_ERR_NOT_FOUND false))
    /\ (forall found m_keys m_values close,
          snd (gbQueryMultiGetHandler E s p)
          = gbClientEnqueueKeyValueSet found m_keys m_values close ->
          m_keys = gathered limit)
    /\ (search_sound E s (kv, limit) ->
          snd (gbQueryMultiGetHandler E s p) = mget_reply s (gathered limit)) in
  match p_value kv with
  | Some v =>
      match gbQueryParseLong v (p_vlen kv) with
      | Some limit => searched_with limit
      | None =>
          forall E' : collaborators,
            gbQueryMultiGetHandler E' s p
            = (s, gbClientEnqueueCode REPL_ERR_NAN false)
      end
  | None => searched_with (-1)
  end.
Proof.
  intros Hparse gathered searched_with.
  assert (Hgo : forall limit,
             gbQueryMultiGetHandler E s p
             = mget_search E s (p_key kv) (p_klen kv) limit ->
             searched_with limit).
  { intros limit Heq. unfold searched_with. rewrite Heq.
    unfold mget_search, tr_search.
    fold (gathered limit). set (keys := gathered limit).
    split; [|split].
    - intros ->. reflexivity.
    - intros found m_keys m_values close.
      destruct (Z.of_nat (length keys) =? 0); [discriminate|].
      destruct (mget_filter E keys _ s _) as [[s' n] vs].
      destruct (n =? 0); [discriminate|].
      cbn [snd]. now intros [= _ <- _ _].
    - intros [Hnd Hk]. unfold bulk_matches in Hnd, Hk.
      cbn [fst snd] in Hnd, Hk. fold (gathered limit) in Hnd, Hk.
      fold keys in Hnd, Hk.
      pose proof (mget_filter_sound s keys s (Z.of_nat (length keys)) Hnd Hk
                    eq_refl (fun _ _ => eq_refl)) as Hv.
      destruct (mget_filter_values E keys (map (tr_find (tree s)) keys) s
                  (Z.of_nat (length keys)) (length_map _ _)) as [_ Hf].
      unfold mget_reply.
      destruct (Z.eqb_spec (Z.of_nat (length keys)) 0) as [Hz|Hz].
      + destruct keys; [reflexivity|simpl in Hz; lia].
      + destruct (mget_filter E keys _ s _) as [[s' n] vs].
        cbn [fst snd] in *. subst vs.
        replace (Z.of_nat (length (filter is_Some (map (mget_value s) keys))))
          with n by lia.
        destruct (n =? 0); reflexivity. }
  destruct (p_value kv) as [v|] eqn:Hv.
  - pose proof (optional_value_not_empty _ _ _ _ _ Hparse Hv) as Hlen.
    destruct (gbQueryParseLong v (p_vlen kv)) as [limit|] eqn:Hnum.
    + apply Hgo. unfold gbQueryMultiGetHandler.
      now rewrite Hparse, Hv, Hlen, Hnum.
    + intros E'. unfold gbQueryMultiGetHandler.
      now rewrite Hparse, Hv, Hlen, Hnum.
  - apply Hgo. unfold gbQueryMultiGetHandler. now rewrite Hparse, Hv.
Qed.

End MgetLimit.

(** ** Runs of the further properties *)

(** The key of ["foo bar"] is ["foo"], which stops at the space. *)
Lemma gbParseKeyValue_key_witness :
  key_foo `prefix_of` lit "foo bar"
  /\ (SP ∉ key_foo)
  /\ lit "foo bar" !! 3%nat = Some SP.
Proof.
  destruct (gbParseKeyValue_key test_limits (lit "foo bar") true
              (kv_foo_with "bar")) as (Hp & Hs & _ & _ & [Hm|Hsp]).
  - reflexivity.
  - vm_compute in Hm. discriminate Hm.
  - auto.
Defined.

(** The value of ["foo bar"] is the three bytes behind the space. *)
Lemma gbParseKeyValue_value_witness :
  exists v,
    p_value (kv_foo_with "bar") = Some v
    /\ ((lit "foo bar" = key_foo /\ v = [] /\ 3 = maxvaluesize test_limits)
        \/ (exists c, lit "foo bar" = key_foo ++ c :: v
                      /\ 3 = min (Z.of_nat (length v)) (maxvaluesize test_limits)
                      /\ 0 < 3)).
Proof.
  refine (gbParseKeyValue_value test_limits (lit "foo bar")
            (kv_foo_with "bar") _ _ _).
  - reflexivity.
  - reflexivity.
  - reflexivity.
Defined.

(** The limit of the MGET request ["a/* 1"] is the byte behind the space. *)
Lemma gbParseKeyAndOptionalValue_in_bounds_witness :
  exists c, lit "a/* 1" = lit "a/*" ++ c :: lit "1"
            /\ 0 < 1 <= Z.of_nat (length (lit "1"))
            /\ 1 <= maxvaluesize test_limits.
Proof.
  refine (gbParseKeyAndOptionalValue_in_bounds test_limits (lit "a/* 1")
            (mkParsedKV (lit "a/*") 3 (Some (lit "1")) 1) _ _).
  - reflexivity.
  - reflexivity.
Defined.

(** The fields of the SET request ["60 foo baz"]. *)
Lemma gbParseTtlKeyValue_fields_witness :
  (exists rest, lit "60 foo baz" = lit "60" ++ SP :: key_foo ++ rest)
  /\ 2 + 1 + 3 <= maxkeysize test_limits.
Proof.
  destruct (gbParseTtlKeyValue_fields test_limits (lit "60 foo baz") true
              (tkv_foo_baz "60")) as (Hr & _ & _ & _ & _ & Hl).
  - reflexivity.
  - split; [exact Hr | exact Hl].
Defined.

(** The digits of 42, with and without sign. *)
Lemma gbQueryParseLong_decimal_witness :
  gbQueryParseLong (lit "42") 2 = Some 42
  /\ gbQueryParseLong (lit "-42") 3 = Some (-42).
Proof.
  refine (gbQueryParseLong_decimal 42 _). reflexivity.
Defined.

(** SET then GET of ["foo"], which held ["42"]. *)
Lemma set_then_get_witness :
  exists item,
    snd (gbQuerySetHandler run srv_42 (lit "-1 foo baz"))
    = gbClientEnqueueItem REPL_VAL item false
    /\ snd (gbQueryGetHandler run
              (fst (gbQuerySetHandler run srv_42 (lit "-1 foo baz")))
              (lit "foo"))
       = gbClientEnqueueItem REPL_VAL item false
    /\ i_data item = DataBuf (lit "baz").
Proof.
  destruct (set_then_get run srv_42 (lit "-1 foo baz") (lit "foo")
              (tkv_foo_baz "-1") kv_foo (-1))
    as (item & Hset & Hget & Hitem).
  - simpl. lia.
  - reflexivity.
  - unfold value_in_request. simpl. lia.
  - reflexivity.
  - intros it Hit. vm_compute in Hit. injection Hit as <-.
    unfold locked. simpl. lia.
  - reflexivity.
  - reflexivity.
  - exists item. split; [exact Hset|]. split; [exact Hget|].
    apply Hitem. simpl. lia.
Defined.

(** ["foo"] SET at 5 with a ttl of 2 is gone at 7. *)
Lemma set_ttl_deadline_witness :
  snd (gbQueryGetHandler run
         (set_clock (fst (gbQuerySetHandler run srv_42 (lit "2 foo baz"))) 7)
         (lit "foo"))
  = gbClientEnqueueCode REPL_ERR_NOT_FOUND false.
Proof.
  refine (proj1 (proj1 (set_ttl_deadline run srv_42 (lit "2 foo baz")
                          (lit "foo") (tkv_foo_baz "2") kv_foo 2 7
                          _ _ _ _ _ _) _ _ _)).
  - simpl. lia.
  - reflexivity.
  - reflexivity.
  - intros it Hit. vm_compute in Hit. injection Hit as <-.
    unfold locked. simpl. lia.
  - reflexivity.
  - reflexivity.
  - lia.
  - reflexivity.
  - simpl. unfold min. simpl. lia.
Defined.

(** SET over the item of ["foo"]: the old item goes back to the pool. *)
Lemma set_accounting_witness :
  nitems (stats (fst (gbQuerySetHandler run srv_42 (lit "-1 foo baz")))) = 1
  /\ item_pool (fst (gbQuerySetHandler run srv_42 (lit "-1 foo baz")))
     = [opool_free_object item_42; opool_alloc_object].
Proof.
  refine (set_accounting run srv_42 (lit "-1 foo baz") (tkv_foo_baz "-1") (-1)
            _ _ _ _).
  - simpl. lia.
  - reflexivity.
  - reflexivity.
  - intros it Hit. vm_compute in Hit. injection Hit as <-.
    unfold locked. simpl. lia.
Defined.

(** DEL then GET of ["foo"]. *)
Lemma del_then_get_witness :
  snd (gbQueryDelHandler run srv_42 (lit "foo"))
  = gbClientEnqueueCode REPL_OK false
  /\ item_pool (fst (gbQueryDelHandler run srv_42 (lit "foo")))
     = [opool_free_object item_42]
  /\ snd (gbQueryGetHandler run (fst (gbQueryDelHandler run srv_42 (lit "foo")))
            (lit "foo"))
     = gbClientEnqueueCode REPL_ERR_NOT_FOUND false.
Proof.
  destruct (del_then_get run srv_42 (lit "foo") kv_foo item_42)
    as (Hdel & _ & Hpool & _ & Hget).
  - reflexivity.
  - reflexivity.
  - reflexivity.
  - unfold locked. simpl. lia.
  - split; [exact Hdel|]. split; [exact Hpool|]. now rewrite Hget.
Defined.

(** ["foo"] locked at 5 for 10 seconds is still locked at 14. *)
Lemma lock_then_del_witness :
  snd (gbQueryLockHandler run srv_42 (lit "foo 10"))
  = gbClientEnqueueCode REPL_OK false
  /\ snd (gbQueryDelHandler run
            (set_clock (fst (gbQueryLockHandler run srv_42 (lit "foo 10"))) 14)
            (lit "foo"))
     = gbClientEnqueueCode REPL_ERR_LOCKED false.
Proof.
  destruct (lock_then_del run srv_42 (lit "foo 10") (lit "foo")
              (kv_foo_with "10") kv_foo item_42 10 14)
    as (Hlock & Hdel & _).
  - reflexivity.
  - unfold value_in_request. simpl. lia.
  - reflexivity.
  - reflexivity.
  - reflexivity.
  - reflexivity.
  - unfold locked. simpl. lia.
  - reflexivity.
  - split; [exact Hlock|]. rewrite Hdel; [reflexivity|].
    right. simpl. lia.
Defined.

(** UNLOCK then DEL of the locked ["foo"]. *)
Lemma unlock_then_del_witness :
  snd (gbQueryUnlockHandler run srv_locked (lit "foo"))
  = gbClientEnqueueCode REPL_OK false
  /\ snd (gbQueryDelHandler run
            (fst (gbQueryUnlockHandler run srv_locked (lit "foo"))) (lit "foo"))
     = gbClientEnqueueCode REPL_OK false.
Proof.
  destruct (unlock_then_del run srv_locked (lit "foo") kv_foo item_locked)
    as (Hun & _ & Hdel & _).
  - reflexivity.
  - reflexivity.
  - reflexivity.
  - split; [exact Hun|]. apply Hdel. simpl. lia.
Defined.

(** INC then DEC of ["foo"] holding the number 7. *)
Lemma inc_then_dec_witness :
  snd (gbQueryIncDecHandler run srv_7 (lit "foo") 1)
  = gbClientEnqueueItem REPL_VAL
      (mkItem (DataLong 8) sizeof_long GB_ENC_NUMBER 0 5 (-1) 0) false
  /\ snd (gbQueryIncDecHandler run
            (fst (gbQueryIncDecHandler run srv_7 (lit "foo") 1)) (lit "foo") (-1))
     = gbClientEnqueueItem REPL_VAL
         (mkItem (DataLong 7) sizeof_long GB_ENC_NUMBER 0 5 (-1) 0) false.
Proof.
  destruct (inc_then_dec run srv_7 (lit "foo") kv_foo item_7 7)
    as (Hup & Hdown & _).
  - reflexivity.
  - reflexivity.
  - reflexivity.
  - unfold locked. simpl. lia.
  - reflexivity.
  - reflexivity.
  - lia.
  - split; [exact Hup | exact Hdown].
Defined.

(** The lock of ["foo"] ends at 60; after a TTL at 5 it holds at 60. *)
Lemma ttl_restarts_lock_witness :
  locked item_locked 59
  /\ ~ locked item_locked 60
  /\ gbQueryDelHandler run
       (set_clock (fst (gbQueryTtlHandler run srv_locked (lit "foo 100"))) 60)
       (lit "foo")
     = (set_clock (fst (gbQueryTtlHandler run srv_locked (lit "foo 100"))) 60,
        gbClientEnqueueCode REPL_ERR_LOCKED false).
Proof.
  split; [right; simpl; lia|].
  split; [unfold locked; simpl; lia|].
  refine (proj2 (ttl_restarts_lock run srv_locked (lit "foo 100") (lit "foo")
                   (kv_foo_with "100") kv_foo item_locked 100 60
                   _ _ _ _ _ _ _) _).
  - reflexivity.
  - unfold value_in_request. simpl. lia.
  - reflexivity.
  - reflexivity.
  - reflexivity.
  - reflexivity.
  - reflexivity.
  - simpl. lia.
Defined.

(** ["foo"], created at 0 with a ttl of 10, has 5 seconds left at 5. *)
Lemma meta_left_positive_witness :
  snd (gbQueryMetaHandler run srv_ttl (lit "foo left"))
  = gbClientEnqueueData REPL_VAL GB_ENC_NUMBER 5 sizeof_long false.
Proof.
  destruct (meta_left_positive run srv_ttl (lit "foo left")
              (kv_foo_with "left") item_ttl)
    as (v & Hv & [[Hno _]|(_ & Hleft & _)]).
  - reflexivity.
  - reflexivity.
  - reflexivity.
  - reflexivity.
  - reflexivity.
  - simpl in Hno. lia.
  - rewrite Hv, Hleft. reflexivity.
Defined.

(** MDEL of ["a/*"] counts two of the keys matched. *)
Lemma bulk_count_bounded_witness :
  exists q, bulk_pattern OP_MDEL srv_three (lit "a/*") = Some q
            /\ 2 <= Z.of_nat (length (bulk_matches run srv_three q)).
Proof.
  refine (bulk_count_bounded run srv_three OP_MDEL (lit "a/*") 2 _).
  vm_compute. reflexivity.
Defined.

(** MDEL of ["f*"] when ["foo"] is locked. *)
Lemma bulk_all_locked_witness :
  gbProcessBulk run OP_MDEL srv_locked (lit "f*")
  = (srv_locked, not_found_reply).
Proof.
  refine (bulk_all_locked run srv_locked OP_MDEL (lit "f*")
            (mkParsedKV (lit "f*") 2 None 0, -1) _ _ _ _).
  - repeat constructor.
  - exists 0. vm_compute. reflexivity.
  - reflexivity.
  - intros key it Hin Hit. vm_compute in Hin.
    apply list_elem_of_singleton in Hin. subst key.
    vm_compute in Hit. injection Hit as <-.
    right. simpl. lia.
Defined.

(** The set MGET of ["a/*"] replies with. *)
Lemma mget_reply_values_witness :
  length [Some (set_last_access_time (plain_item "y" (-1) 0) 5);
          Some (set_last_access_time (plain_item "x" (-1) 0) 5)]
  = length [lit "a/2"; lit "a/1"]
  /\ 2 = Z.of_nat (length (filter is_Some
           [Some (set_last_access_time (plain_item "y" (-1) 0) 5);
            Some (set_last_access_time (plain_item "x" (-1) 0) 5)]))
  /\ 0 < 2.
Proof.
  refine (mget_reply_values run srv_three (lit "a/*") 2 _ _ false _).
  vm_compute. reflexivity.
Defined.

(** KEYS of ["a/*"] on three keys. *)
Lemma keys_reply_witness :
  snd (gbQueryKeysHandler run srv_three (lit "a/*"))
  = gbClientEnqueueKeyValueSet 2 [lit "0"; lit "1"]
      [Some (volatile_key (lit "a/2")); Some (volatile_key (lit "a/1"))] false.
Proof.
  rewrite (keys_reply run srv_three (lit "a/*")
             (mkParsedKV (lit "a/*") 3 None 0)).
  - vm_compute. reflexivity.
  - reflexivity.
Defined.

(** The count of items after a DEL and after an INC that creates its item. *)
Lemma single_key_counted_witness :
  counted srv_42
  /\ counted (fst (gbQueryDelHandler run srv_42 (lit "foo")))
  /\ counted (fst (gbQueryIncDecHandler run srv_42 (lit "bar") 1)).
Proof.
  assert (Hc : counted srv_42) by (vm_compute; reflexivity).
  split; [exact Hc|].
  destruct (single_key_counted run srv_42 (lit "foo") 1 Hc)
    as (_ & _ & _ & Hdel & _).
  destruct (single_key_counted run srv_42 (lit "bar") 1 Hc)
    as (_ & _ & _ & _ & Hinc & _).
  split; [exact Hdel | exact Hinc].
Defined.

(** MDEL of ["a/*"] on three keys keeps the count. *)
Lemma process_query_counted_witness :
  counted srv_three
  /\ counted (fst (gbProcessQuery run test_info (OP_BULK OP_MDEL) srv_three
                     (lit "a/*"))).
Proof.
  assert (Hc : counted srv_three) by (vm_compute; reflexivity).
  split; [exact Hc|].
  refine (process_query_counted run test_info (OP_BULK OP_MDEL) srv_three
            (lit "a/*") Hc _).
  intros bop q Hop Hq. injection Hop as <-.
  vm_compute in Hq. injection Hq as <-.
  split; apply (bool_decide_unpack _); vm_compute; exact I.
Defined.

(** COUNT of ["a/*"] when one of the two keys has expired. *)
Lemma count_valid_items_witness :
  snd (gbQueryCountHandler run srv_mixed (lit "a/*")) = number_reply 1.
Proof.
  refine (count_valid_items run srv_mixed (lit "a/*")
            (mkParsedKV (lit "a/*") 3 None 0) _ _).
  - reflexivity.
  - split; apply (bool_decide_unpack _); vm_compute; exact I.
Defined.

(** C10 at work: MGET of ["a/*"] with the limit 1 on three keys, two of
    which match. *)
Lemma mget_optional_limit_witness :
  snd (gbQueryMultiGetHandler run srv_three (lit "a/* 1"))
  = gbClientEnqueueKeyValueSet 1 [lit "a/2"]
      [Some (set_last_access_time (plain_item "y" (-1) 0) 5)] false.
Proof.
  refine (eq_trans
            (proj2 (proj2 (mget_optional_limit run srv_three (lit "a/* 1")
                             (mkParsedKV (lit "a/*") 3 (Some (lit "1")) 1) _))
               _) _).
  - reflexivity.
  - split; apply (bool_decide_unpack _); vm_compute; exact I.
  - vm_compute. reflexivity.
Defined.
